(** * Video Splitter: a shallow embedding of [app.py]

    The development follows the methods of [VideoSplitterApp] and [main],
    with its segment-configuration and processing loops.

    - Python [str] values are [string]s; the characters are ASCII (a code
      from 128 on stands for no character of a Python text).
    - Python [int] values are [Z]; the interpreter's limit on the number of
      digits [int] reads from a text is not modelled.
    - Python [float] values are IEEE-754 binary64 numbers, taken from the
      standard library's [spec_float] with [prec = 53] and [emax = 1024];
      the operations round to nearest, ties to even.
    - Exceptions are explicit: a computation returns [Ok v] or [Raise e].
    - What Streamlit shows is a list of widgets, kept when an exception is
      raised.
    - The external tools (yt-dlp, ffprobe, ffmpeg), [shutil.which] and the
      temporary directory are oracles passed as arguments.
    - The session's output directory is a finite set of file names.
    - One run of [main] takes the session state and what the user entered
      and pressed, and gives the page, the session state and how it ended.

    The definitions come first, in the order of the source; the properties
    follow, the claims C1 to C10 among the lemmas they rest on, and then
    the further properties X1 to X19. *)

From Stdlib Require Import ZArith List String Ascii Bool Lia DecimalString.
From Stdlib Require Import DecimalFacts DecimalNat DecimalPos DecimalZ.
From Stdlib Require Import SpecFloat.
From Stdlib Require Import Reals Lra.
From stdpp Require Import base gmap strings.

Local Open Scope string_scope.
Local Open Scope list_scope.
Local Open Scope Z_scope.

(** ** Exceptions *)

Inductive exn : Type :=
| ValueError
| TypeError
| ZeroDivisionError
| OverflowError
| TimeoutExpired
| OSError.

Inductive result (A : Type) : Type :=
| Ok (a : A)
| Raise (e : exn).
Arguments Ok {A} a.
Arguments Raise {A} e.

(** Sequencing: [x ← c; k] runs [c] and stops at the first exception. *)
#[global] Instance result_ret : MRet result := fun _ a => Ok a.
#[global] Instance result_bind : MBind result := fun _ _ k c =>
  match c with
  | Ok a => k a
  | Raise e => Raise e
  end.

Definition returns {A : Type} (c : result A) : Prop := exists a, c = Ok a.

(** ** Python strings *)

Module PyStr.

(** [str.isspace] on ASCII: TAB, LF, VT, FF, CR, FS, GS, RS, US, space. *)
Definition is_space (c : ascii) : bool :=
  let n := Z.of_nat (nat_of_ascii c) in
  ((9 <=? n) && (n <=? 13)) || ((28 <=? n) && (n <=? 32)).

Definition is_digit (c : ascii) : bool :=
  let n := Z.of_nat (nat_of_ascii c) in (48 <=? n) && (n <=? 57).

Definition digit_value (c : ascii) : Z := Z.of_nat (nat_of_ascii c) - 48.

Fixpoint lstrip (s : string) : string :=
  match s with
  | String c s' => if is_space c then lstrip s' else s
  | EmptyString => EmptyString
  end.

Fixpoint rstrip (s : string) : string :=
  match s with
  | String c s' =>
      match rstrip s' with
      | EmptyString => if is_space c then EmptyString else String c EmptyString
      | r => String c r
      end
  | EmptyString => EmptyString
  end.

(** [s.strip()] *)
Definition strip (s : string) : string := rstrip (lstrip s).

Definition lower_char (c : ascii) : ascii :=
  let n := nat_of_ascii c in
  if ((65 <=? Z.of_nat n) && (Z.of_nat n <=? 90)) then ascii_of_nat (n + 32) else c.

(** [s.lower()] *)
Fixpoint lower (s : string) : string :=
  match s with
  | String c s' => String (lower_char c) (lower s')
  | EmptyString => EmptyString
  end.

(** [c in s] for a one-character needle *)
Fixpoint contains (c : ascii) (s : string) : bool :=
  match s with
  | String d s' => if Ascii.eqb c d then true else contains c s'
  | EmptyString => false
  end.

(** [s.split(c)]: never empty, one more part than occurrences of [c]. *)
Fixpoint split (c : ascii) (s : string) : list string :=
  match s with
  | EmptyString => [EmptyString]
  | String d s' =>
      if Ascii.eqb c d then EmptyString :: split c s'
      else match split c s' with
           | p :: ps => String d p :: ps
           | [] => [String d EmptyString]
           end
  end.

(** [s.endswith(suffix)] *)
Definition endswith (s suffix : string) : bool :=
  let n := String.length s in
  let k := String.length suffix in
  (k <=? n)%nat && String.eqb (substring (n - k) k s) suffix.

(** truthiness of a string: non-empty *)
Definition truthy (s : string) : bool :=
  match s with EmptyString => false | _ => true end.

End PyStr.

(** ** Python numbers: [int] is [Z], [float] is binary64 *)

Module PyNum.

Definition prec : Z := 53.
Definition emax : Z := 1024.

Definition float : Type := spec_float.

Definition fadd : float -> float -> float := SFadd prec emax.
Definition fsub : float -> float -> float := SFsub prec emax.
Definition fmul : float -> float -> float := SFmul prec emax.
Definition fabs : float -> float := SFabs.
Definition fopp : float -> float := SFopp.

(** [x < y], [x <= y], [x > y], [x >= y] on floats; all false on NaN *)
Definition flt (x y : float) : bool := SFltb x y.
Definition fle (x y : float) : bool := SFleb x y.
Definition fgt (x y : float) : bool := SFltb y x.
Definition fge (x y : float) : bool := SFleb y x.

Definition is_zero (x : float) : bool :=
  match x with S754_zero _ => true | _ => false end.

(** [float(n)] for an int [n], as done implicitly by [n + x], [n / x],
    [n * x]: correctly rounded, [OverflowError] beyond the float range. *)
Definition float_of_int (n : Z) : result float :=
  match binary_normalize prec emax n 0 false with
  | S754_infinity _ => Raise OverflowError
  | x => Ok x
  end.

(** [x / y] on floats *)
Definition float_truediv (x y : float) : result float :=
  if is_zero y then Raise ZeroDivisionError else Ok (SFdiv prec emax x y).

(** [a / b] on ints: the correctly rounded quotient *)
Definition int_truediv (a b : Z) : result float :=
  match b with
  | Z0 => Raise ZeroDivisionError
  | Zpos q | Zneg q =>
      match a with
      | Z0 => Ok (S754_zero (b <? 0))
      | Zpos p | Zneg p =>
          match SFdiv prec emax (S754_finite (a <? 0) p 0)
                                (S754_finite (b <? 0) q 0) with
          | S754_infinity _ => Raise OverflowError
          | x => Ok x
          end
      end
  end.

(** [int(x)] for a float [x]: truncation toward zero *)
Definition int_of_float (x : float) : result Z :=
  match x with
  | S754_nan => Raise ValueError
  | S754_infinity _ => Raise OverflowError
  | S754_zero _ => Ok 0
  | S754_finite s m e => Ok (cond_Zopp s (Z.shiftl (Zpos m) e))
  end.

(** the float nearest to [n * 10^k], for [n >= 0] *)
Definition float_of_decimal (neg : bool) (n k : Z) : float :=
  match n with
  | Zpos p =>
      if 0 <=? k then binary_normalize prec emax (cond_Zopp neg (n * 10 ^ k)) 0 false
      else SFdiv prec emax (S754_finite neg p 0)
                           (S754_finite false (Z.to_pos (10 ^ (- k))) 0)
  | _ => S754_zero neg
  end.

(** *** Numeric literals in strings *)

(** the blanks that [int] and [float] pass over around a numeral in an
    ASCII text: TAB, LF, VT, FF, CR and space. FS, GS, RS and US, which
    [str.strip] removes, are not among them: [int] and [float] reject a
    text that holds one. *)
Definition is_blank (c : ascii) : bool :=
  let n := Z.of_nat (nat_of_ascii c) in ((9 <=? n) && (n <=? 13)) || (n =? 32).

Fixpoint lstrip_blanks (s : string) : string :=
  match s with
  | String c s' => if is_blank c then lstrip_blanks s' else s
  | EmptyString => EmptyString
  end.

Fixpoint rstrip_blanks (s : string) : string :=
  match s with
  | String c s' =>
      match rstrip_blanks s' with
      | EmptyString => if is_blank c then EmptyString else String c EmptyString
      | r => String c r
      end
  | EmptyString => EmptyString
  end.

(** a maximal run [digit (["_"] digit)*]; returns the value read so far,
    the number of digits and the unread rest; an underscore is read only
    between two digits *)
Fixpoint scan_digits (acc : Z) (n : nat) (after_digit : bool) (s : string)
  : Z * nat * string :=
  match s with
  | String c s' =>
      if PyStr.is_digit c then
        scan_digits (acc * 10 + PyStr.digit_value c) (S n) true s'
      else if Ascii.eqb c "_" && after_digit then
        match s' with
        | String d _ =>
            if PyStr.is_digit d then scan_digits acc n false s' else (acc, n, s)
        | EmptyString => (acc, n, s)
        end
      else (acc, n, s)
  | EmptyString => (acc, n, s)
  end.

Definition scan_sign (s : string) : bool * string :=
  match s with
  | String "-" s' => (true, s')
  | String "+" s' => (false, s')
  | _ => (false, s)
  end.

(** [int(s)] for a string [s], base 10: blanks, a sign, digits, blanks *)
Definition int_of_string (s : string) : result Z :=
  let '(neg, s1) := scan_sign (lstrip_blanks s) in
  match scan_digits 0 0 false s1 with
  | (v, S _, rest) =>
      match lstrip_blanks rest with
      | EmptyString => Ok (cond_Zopp neg v)
      | _ => Raise ValueError
      end
  | _ => Raise ValueError
  end.

Definition scan_exponent (s : string) : option (Z * string) :=
  match s with
  | String c s1 =>
      if Ascii.eqb (PyStr.lower_char c) "e" then
        let '(neg, s2) := scan_sign s1 in
        match scan_digits 0 0 false s2 with
        | (v, S _, rest) => Some (cond_Zopp neg v, rest)
        | _ => None
        end
      else None
  | EmptyString => None
  end.

(** [number [exponent]] from the grammar of [float]; the value is
    [mantissa * 10 ^ exponent] *)
Definition scan_floatnumber (s : string) : option (Z * Z * string) :=
  let '(ip, ni, s1) := scan_digits 0 0 false s in
  let '(m, nd, nf, s2) :=
    match s1 with
    | String "." s1' =>
        let '(m, n, r) := scan_digits ip ni false s1' in (m, n, (n - ni)%nat, r)
    | _ => (ip, ni, 0%nat, s1)
    end in
  match nd with
  | O => None
  | S _ =>
      match scan_exponent s2 with
      | Some (ex, rest) => Some (m, ex - Z.of_nat nf, rest)
      | None => Some (m, - Z.of_nat nf, s2)
      end
  end.

(** [float(s)] for a string [s]: blanks, a sign, then "inf", "infinity",
    "nan" in any case or a decimal number, blanks; the value is the float
    nearest to the decimal number *)
Definition float_of_string (s : string) : result float :=
  let '(neg, s1) := scan_sign (rstrip_blanks (lstrip_blanks s)) in
  let l := PyStr.lower s1 in
  if String.eqb l "inf" || String.eqb l "infinity" then Ok (S754_infinity neg)
  else if String.eqb l "nan" then Ok S754_nan
  else match scan_floatnumber s1 with
       | Some (m, k, EmptyString) => Ok (float_of_decimal neg m k)
       | _ => Raise ValueError
       end.

End PyNum.

Import PyNum.

(** ** Python numbers: text of numbers, [//] and [%] on floats *)

Module PyFmt.

(** [str(n)] and [f"{n}"] for an int [n] *)
Definition str_of_int (n : Z) : string := NilZero.string_of_int (Z.to_int n).

(** [n / d] rounded to the nearest integer, ties to the even one, [d > 0] *)
Definition div_half_even (n d : Z) : Z :=
  let q := n `div` d in
  match 2 * (n `mod` d) ?= d with
  | Lt => q
  | Eq => if Z.even q then q else q + 1
  | Gt => q + 1
  end.

(** the magnitude [m * 2 ^ e] counted in hundredths, correctly rounded *)
Definition hundredths (m : positive) (e : Z) : Z :=
  if 0 <=? e then 100 * Zpos m * 2 ^ e
  else div_half_even (100 * Zpos m) (2 ^ (- e)).

(** a number from 0 to 99 written with two digits *)
Definition two_digits (n : Z) : string :=
  let s := str_of_int n in
  if (String.length s <? 2)%nat then "0" +:+ s else s.

(** the sign bit; Python prints no sign for NaN *)
Definition sign_bit (x : float) : bool :=
  match x with
  | S754_zero s | S754_infinity s | S754_finite s _ _ => s
  | S754_nan => false
  end.

(** what [format(x, ".2f")] writes after the sign *)
Definition digits_2f (x : float) : string :=
  match x with
  | S754_nan => "nan"
  | S754_infinity _ => "inf"
  | S754_zero _ => "0.00"
  | S754_finite _ m e =>
      let h := hundredths m e in
      str_of_int (h `div` 100) +:+ "." +:+ two_digits (h `mod` 100)
  end.

Fixpoint zeros (n : nat) : string :=
  match n with
  | O => EmptyString
  | S n' => String "0" (zeros n')
  end.

(** [f"{x:05.2f}"]: two decimals, and zeros between the sign and the digits
    up to a width of five characters *)
Definition format_05_2f (x : float) : string :=
  let sign := if sign_bit x then "-" else "" in
  let digits := digits_2f x in
  sign +:+ zeros (5 - String.length sign - String.length digits) +:+ digits.

End PyFmt.

Module PyArith.

Definition zero : float := S754_zero false.
Definition half : float := S754_finite false 4503599627370496 (-53).
Definition one : float := S754_finite false 4503599627370496 (-52).

(** C's [floor] *)
Definition ffloor (x : float) : float :=
  match x with
  | S754_finite s m e =>
      if 0 <=? e then x
      else
        let q := Zpos m `div` 2 ^ (- e) in
        if s then
          binary_normalize prec emax
            (- (if Zpos m `mod` 2 ^ (- e) =? 0 then q else q + 1)) 0 true
        else binary_normalize prec emax q 0 false
  | _ => x
  end.

(** C's [fmod]: the exact remainder of the magnitudes, with the sign of
    [x] *)
Definition fmod (x y : float) : float :=
  match x, y with
  | S754_nan, _ | _, S754_nan => S754_nan
  | S754_infinity _, _ => S754_nan
  | _, S754_zero _ => S754_nan
  | S754_zero _, _ => x
  | S754_finite _ _ _, S754_infinity _ => x
  | S754_finite sx mx ex, S754_finite _ my ey =>
      let e := Z.min ex ey in
      let X := Zpos mx * 2 ^ (ex - e) in
      let Y := Zpos my * 2 ^ (ey - e) in
      binary_normalize prec emax (cond_Zopp sx (X `mod` Y)) e sx
  end.

(** [vx % wx] on floats: the remainder takes the sign of [wx] *)
Definition float_mod (vx wx : float) : result float :=
  if is_zero wx then Raise ZeroDivisionError
  else
    let rem := fmod vx wx in
    Ok (if is_zero rem then S754_zero (PyFmt.sign_bit wx)
        else if xorb (flt wx zero) (flt rem zero) then fadd rem wx
        else rem).

(** [vx // wx] on floats: the quotient of [vx - fmod(vx, wx)] by [wx],
    lowered by one when the remainder changes sign, snapped to an integer *)
Definition float_floordiv (vx wx : float) : result float :=
  if is_zero wx then Raise ZeroDivisionError
  else
    let rem := fmod vx wx in
    let div := SFdiv prec emax (fsub vx rem) wx in
    let div :=
      if negb (is_zero rem) && xorb (flt wx zero) (flt rem zero)
      then fsub div one else div in
    Ok (if is_zero div then
          (* a zero with the sign of the true quotient *)
          S754_zero (PyFmt.sign_bit (SFdiv prec emax vx wx))
        else
          let floordiv := ffloor div in
          if fgt (fsub div floordiv) half then fadd floordiv one
          else floordiv).

End PyArith.

(** ** [VideoSplitterApp]: parsing and crop geometry *)

(** [parse_time_input]: the result is a float, or [None] when the text has
    a colon and is split in neither two nor three parts (no branch returns). *)
Definition parse_time_input (time_str : string) : result (option float) :=
  let time_str := PyStr.strip time_str in
  if PyStr.contains ":" time_str then
    match PyStr.split ":" time_str with
    | [minutes; seconds] =>
        m ← int_of_string minutes;
        s ← float_of_string seconds;
        fm ← float_of_int (m * 60);
        Ok (Some (fadd fm s))
    | [hours; minutes; seconds] =>
        h ← int_of_string hours;
        m ← int_of_string minutes;
        s ← float_of_string seconds;
        fhm ← float_of_int (h * 3600 + m * 60);
        Ok (Some (fadd fhm s))
    | _ => Ok None
    end
  else
    x ← float_of_string time_str;
    Ok (Some x).

(** [parse_aspect_ratio]: [None] stands for the original ratio. *)
Definition parse_aspect_ratio (ratio_str : string) : result (option (float * float)) :=
  if String.eqb (PyStr.lower ratio_str) "original" then Ok None
  else if negb (PyStr.contains ":" ratio_str) then Raise ValueError
  else
    match PyStr.split ":" ratio_str with
    | [width; height] =>
        w ← float_of_string width;
        h ← float_of_string height;
        Ok (Some (w, h))
    | _ => Raise ValueError
    end.

Record crop_info : Type := {
  width : Z;
  height : Z;
  x : Z;
  y : Z
}.

(** the literal [0.01] *)
Definition tolerance : float := S754_finite false 5764607523034235 (-59).

(** [calculate_crop_dimensions] *)
Definition calculate_crop_dimensions (original_width original_height : Z)
    (target_ratio : option (float * float)) : result (option crop_info) :=
  match target_ratio with
  | None => Ok None
  | Some (target_width, target_height) =>
      target_aspect ← float_truediv target_width target_height;
      original_aspect ← int_truediv original_width original_height;
      if flt (fabs (fsub target_aspect original_aspect)) tolerance then Ok None
      else
        '(new_width, new_height, crop_x, crop_y) ←
          (if fgt target_aspect original_aspect then
             fw ← float_of_int original_width;
             q ← float_truediv fw target_aspect;
             new_height ← int_of_float q;
             Ok (original_width, new_height, 0, (original_height - new_height) `div` 2)
           else
             fh ← float_of_int original_height;
             new_width ← int_of_float (fmul fh target_aspect);
             Ok (new_width, original_height, (original_width - new_width) `div` 2, 0));
        (* Ensure even dimensions *)
        let new_width := new_width - new_width `mod` 2 in
        let new_height := new_height - new_height `mod` 2 in
        let crop_x := crop_x - crop_x `mod` 2 in
        let crop_y := crop_y - crop_y `mod` 2 in
        Ok (Some {| width := new_width; height := new_height;
                    x := crop_x; y := crop_y |})
  end.

(** ** [main]: the segment-configuration loop *)

(** one segment's text inputs: the two [st.text_input]s and the selectbox *)
Record request : Type := {
  start_time : string;
  end_time : string;
  aspect_ratio_text : string
}.

(** an entry of the [segments] list *)
Record segment : Type := {
  seg_start : float;
  seg_end : float;
  seg_duration : float;
  seg_aspect_ratio : option (float * float);
  seg_ratio_text : string
}.

(** the second component of [process_segment]'s result *)
Inductive detail : Type :=
| OutputPath (path : string)
| NoDimensions                   (* "Could not get video dimensions" *)
| FFmpegError (stderr : string)  (* "FFmpeg error: stderr" *)
| ExceptionText (e : exn)        (* "Exception: e" *).

(** what the page shows; [n] is the segment number [i+1] *)
Inductive widget : Type :=
| st_error_start_not_before_end (n : nat)
    (* "Start time must be less than end time for segment n" *)
| st_error_start_exceeds_duration (n : nat)
    (* "Start time exceeds video duration for segment n" *)
| st_warning_end_adjusted (n : nat)
    (* "End time exceeds video duration for segment n, will be adjusted" *)
| st_success_segment (n : nat) (s : segment)
    (* "Segment n: start to end (duration) - ratio" *)
| st_error_invalid_time_format (n : nat) (e : exn)
    (* "Invalid time format for segment n: e" *)
| st_success_completed (n : nat)
    (* "Segment n completed successfully" *)
| st_error_failed (n : nat) (reason : detail)
    (* "Segment n failed: reason" *).

(** Code that writes to the page and may raise: the widgets shown so far
    stay on the page when an exception is raised. *)
Definition ui (A : Type) : Type := (list widget * result A)%type.

#[global] Instance ui_ret : MRet ui := fun _ a => ([], Ok a).
#[global] Instance ui_bind : MBind ui := fun _ _ k c =>
  match c with
  | (w, Ok a) => let '(w', r) := k a in (w ++ w', r)
  | (w, Raise e) => (w, Raise e)
  end.

Definition show (w : widget) : ui unit := ([w], Ok tt).
Definition run {A : Type} (c : result A) : ui A := ([], c).

(** the body of the [try] for segment number [n = i+1]; [None] is the
    [continue] after a rejection. [video_duration] is a float here: [main]
    has formatted it with [seconds_to_time] before the loop. *)
Definition validate_segment (video_duration : float) (n : nat) (r : request)
    : ui (option segment) :=
  start_seconds ← run (parse_time_input (start_time r));
  end_seconds ← run (parse_time_input (end_time r));
  match start_seconds, end_seconds with
  | Some start_seconds, Some end_seconds =>
      if fge start_seconds end_seconds then
        _ ← show (st_error_start_not_before_end n); mret None
      else if fge start_seconds video_duration then
        _ ← show (st_error_start_exceeds_duration n); mret None
      else
        end_seconds ←
          (if fgt end_seconds video_duration then
             _ ← show (st_warning_end_adjusted n); mret video_duration
           else mret end_seconds);
        let duration := fsub end_seconds start_seconds in
        parsed_ratio ← run (parse_aspect_ratio (aspect_ratio_text r));
        let s := {| seg_start := start_seconds; seg_end := end_seconds;
                    seg_duration := duration; seg_aspect_ratio := parsed_ratio;
                    seg_ratio_text := aspect_ratio_text r |} in
        _ ← show (st_success_segment n s);
        mret (Some s)
  | _, _ =>
      (* [>=] between [None] and anything *)
      run (Raise TypeError)
  end.

(** one iteration of [for i in range(num_segments)], after the inputs are
    read: the guard on empty texts, and [except ValueError] *)
Definition configure_segment (video_duration : float) (i : nat) (r : request)
    : ui (option segment) :=
  if PyStr.truthy (start_time r) && PyStr.truthy (end_time r) then
    match validate_segment video_duration (S i) r with
    | (w, Raise ValueError) =>
        (w ++ [st_error_invalid_time_format (S i) ValueError], Ok None)
    | c => c
    end
  else mret None.

(** the whole loop, from index [i] on; the result is the [segments] list *)
Fixpoint configure_segments (video_duration : float) (i : nat) (rs : list request)
    : ui (list segment) :=
  match rs with
  | [] => mret []
  | r :: rs' =>
      s ← configure_segment video_duration i r;
      segments ← configure_segments video_duration (S i) rs';
      mret (option_list s ++ segments)
  end.

(** ** Files and external tools *)

Module PyPath.

(** [os.path.join(a, b)] *)
Definition join (a b : string) : string :=
  match b with
  | String "/" _ => b
  | _ =>
      if negb (PyStr.truthy a) || PyStr.endswith a "/" then a +:+ b
      else a +:+ "/" +:+ b
  end.

(** [os.path.basename(p)]: what follows the last slash *)
Definition basename (p : string) : string :=
  List.last (PyStr.split "/" p) EmptyString.

End PyPath.

(** The app object: the path of its output directory and the names of the
    files in it. It lives in the session state, across reruns of [main]. *)
Record app : Type := {
  output_dir : string;
  files : gset string
}.

(** the arguments given to ffmpeg *)
Record command : Type := {
  cmd_input : string;
  cmd_ss : float;
  cmd_t : float;
  cmd_crop : option crop_info;
  cmd_output : string
}.

(** One run of ffmpeg under [subprocess.run(..., timeout=120)]: it returns
    an exit code and its stderr, or an exception is raised (a timeout, a
    missing executable); it may write its output file and touches no other
    file of the output directory. *)
Record tool_run : Type := {
  creates_output : bool;
  completion : result (Z * string)
}.

(** the external tools *)
Record tools : Type := {
  (** [get_video_info]: duration and dimensions, each possibly [None] *)
  get_video_info : string -> option float * option (Z * Z);
  (** ffmpeg, given its arguments and the current output directory *)
  ffmpeg : command -> gset string -> tool_run
}.

(** [f"{index:02d}"] for an index that is not negative *)
Definition format_02d (index : nat) : string :=
  let s := NilZero.string_of_uint (Nat.to_uint index) in
  if (String.length s <? 2)%nat then "0" +:+ s else s.

Definition output_name (index : nat) : string :=
  "video_part_" +:+ format_02d index +:+ ".mp4".

(** the first part of [process_segment]'s [try] block: the crop for the
    segment; the outer [None] is the early return when the dimensions of
    the source are not known *)
Definition segment_crop (t : tools) (input_path : string) (segment_info : segment)
    : result (option (option crop_info)) :=
  match seg_aspect_ratio segment_info with
  | Some ratio =>
      match snd (get_video_info t input_path) with
      | None => Ok None
      | Some (w, h) =>
          c ← calculate_crop_dimensions w h (Some ratio); Ok (Some c)
      end
  | None => Ok (Some None)
  end.

Definition ffmpeg_command (input_path : string) (segment_info : segment)
    (crop : option crop_info) (output_path : string) : command :=
  {| cmd_input := input_path; cmd_ss := seg_start segment_info;
     cmd_t := seg_duration segment_info; cmd_crop := crop;
     cmd_output := output_path |}.

(** the output directory after a run of ffmpeg for [name] *)
Definition files_after (r : tool_run) (name : string) (fs : gset string)
    : gset string :=
  if creates_output r then {[ name ]} ∪ fs else fs.

(** [process_segment]: the result pair and the output directory afterwards *)
Definition process_segment (t : tools) (a : app) (input_path : string)
    (segment_info : segment) (index : nat) : (bool * detail) * gset string :=
  let output_path := PyPath.join (output_dir a) (output_name index) in
  match segment_crop t input_path segment_info with
  | Ok None => ((false, NoDimensions), files a)
  | Raise e => ((false, ExceptionText e), files a)
  | Ok (Some crop_info) =>
      let r := ffmpeg t (ffmpeg_command input_path segment_info crop_info output_path)
                 (files a) in
      let files' := files_after r (output_name index) (files a) in
      match completion r with
      | Raise e => ((false, ExceptionText e), files')
      | Ok (returncode, stderr) =>
          if (returncode =? 0) && bool_decide (output_name index ∈ files')
          then ((true, OutputPath output_path), files')
          else ((false, FFmpegError stderr), files')
      end
  end.

(** [create_zip_file]: the member names of the archive *)
Definition create_zip_file (a : app) : gset string :=
  filter (fun filename => PyStr.endswith filename ".mp4" = true) (files a).

(** what a press of "Process All Segments" leaves behind *)
Record processing : Type := {
  successful_segments : list string;
  failed_segments : list (nat * detail);
  shown : list widget
}.

(** [for i, segment in enumerate(segments)], from index [i] on *)
Fixpoint process_segments (t : tools) (a : app) (video_path : string)
    (i : nat) (segments : list segment) : processing * app :=
  match segments with
  | [] => ({| successful_segments := []; failed_segments := []; shown := [] |}, a)
  | segment :: rest =>
      let '((success, result), files') :=
        process_segment t a video_path segment (S i) in
      let a' := {| output_dir := output_dir a; files := files' |} in
      let '(p, a'') := process_segments t a' video_path (S i) rest in
      (match success, result with
       | true, OutputPath path =>
           {| successful_segments := path :: successful_segments p;
              failed_segments := failed_segments p;
              shown := st_success_completed (S i) :: shown p |}
       | _, _ =>
           {| successful_segments := successful_segments p;
              failed_segments := (S i, result) :: failed_segments p;
              shown := st_error_failed (S i) result :: shown p |}
       end, a'')
  end.

(** the "Process All Segments" branch of [main]: the report, the archive
    offered for download when a segment succeeded, and the app afterwards *)
Definition process_all (t : tools) (a : app) (video_path : string)
    (segments : list segment) : processing * option (gset string) * app :=
  let '(p, a') := process_segments t a video_path 0 segments in
  match successful_segments p with
  | [] => (p, None, a')
  | _ :: _ => (p, Some (create_zip_file a'), a')
  end.

(** ** [VideoSplitterApp]: the methods that reach outside the process *)

(** a finished [subprocess.run(..., capture_output=True, text=True)] *)
Record completed_process : Type := {
  cp_returncode : Z;
  cp_stdout : string;
  cp_stderr : string
}.

(** what [download_video] and [get_video_info] write on the page *)
Inductive notice : Type :=
| st_info_downloading                        (* "Downloading video..." *)
| st_success_downloaded                      (* "Video downloaded successfully!" *)
| st_error_download_failed (stderr : string) (* "Download failed: stderr" *)
| st_error_download_exception (e : exn)      (* "Exception during download: e" *)
| st_error_video_info (e : exn)              (* "Error getting video info: e" *).

(** the two runs of ffprobe on a path: each returns, or raises when the
    program cannot be started *)
Record probes : Type := {
  ffprobe_duration : string -> result completed_process;
  ffprobe_dimensions : string -> result completed_process
}.

(** The temporary directory as [find_downloaded_file] looks at it: which
    paths exist, the names in the directory in the order the system lists
    them, and the change time of a path. *)
Record directory : Type := {
  path_exists : string -> bool;
  entries : list string;
  getctime : string -> float
}.

(** one run of yt-dlp: it returns or raises, and leaves the temporary
    directory in some state *)
Record download_run : Type := {
  dl_completion : result completed_process;
  dl_directory : directory
}.

Module VideoSplitterApp.

(** [__init__], given the directory [tempfile.mkdtemp()] made: the output
    directory is created in it, empty *)
Definition init (temp_dir : string) : app :=
  {| output_dir := PyPath.join temp_dir "output_videos"; files := ∅ |}.

(** [check_dependencies]; [which name] tells whether [shutil.which] finds
    the program *)
Definition check_dependencies (which : string -> bool) : list string :=
  (if which "ffmpeg" then [] else ["FFmpeg"])
  ++ (if which "yt-dlp" then [] else ["yt-dlp"]).

Definition extensions : list string := [".mp4"; ".webm"; ".mkv"; ".avi"; ".mov"].

(** [max(video_files, key=os.path.getctime)] from a first candidate on: a
    later file replaces the candidate when its time is greater *)
Fixpoint max_by_ctime (d : directory) (best : string) (video_files : list string)
    : string :=
  match video_files with
  | [] => best
  | f :: rest =>
      max_by_ctime d (if fgt (getctime d f) (getctime d best) then f else best) rest
  end.

(** [Path(temp_dir).glob("*" + ext)], as texts: the entries whose names end
    in [ext]; [temp_dir] is the path [mkdtemp] gave, which ends in no slash *)
Definition glob_ext (temp_dir : string) (d : directory) (ext : string)
    : list string :=
  map (PyPath.join temp_dir)
      (List.filter (fun name => PyStr.endswith name ext) (entries d)).

(** [find_downloaded_file] *)
Definition find_downloaded_file (temp_dir : string) (d : directory)
    (pattern : string) : option string :=
  let base_name := List.hd EmptyString (PyStr.split "." pattern) in
  match List.find (fun ext => path_exists d (base_name +:+ ext)) extensions with
  | Some ext => Some (base_name +:+ ext)
  | None =>
      (* Look for recently created video files *)
      match flat_map (glob_ext temp_dir d) extensions with
      | [] => None
      | f :: video_files => Some (max_by_ctime d f video_files)
      end
  end.

(** [download_video]; [yt_dlp url output] is the run of the command *)
Definition download_video (yt_dlp : string -> string -> download_run)
    (temp_dir url : string) : list notice * option string :=
  let output_path := PyPath.join temp_dir "downloaded_video.%(ext)s" in
  let r := yt_dlp url output_path in
  match dl_completion r with
  | Raise e => ([st_info_downloading; st_error_download_exception e], None)
  | Ok result =>
      let failed :=
        ([st_info_downloading; st_error_download_failed (cp_stderr result)], None) in
      if cp_returncode result =? 0 then
        match find_downloaded_file temp_dir (dl_directory r) output_path with
        | Some downloaded_file =>
            if PyStr.truthy downloaded_file
            then ([st_info_downloading; st_success_downloaded], Some downloaded_file)
            else failed
        | None => failed
        end
      else failed
  end.

(** the [try] block of [get_video_info] *)
Definition probe_video_info (p : probes) (video_path : string)
    : result (option float * option (Z * Z)) :=
  duration_result ← ffprobe_duration p video_path;
  duration ←
    (if cp_returncode duration_result =? 0 then
       d ← float_of_string (PyStr.strip (cp_stdout duration_result)); Ok (Some d)
     else Ok None);
  dimensions_result ← ffprobe_dimensions p video_path;
  dimensions ←
    (if cp_returncode dimensions_result =? 0 then
       match PyStr.split "," (PyStr.strip (cp_stdout dimensions_result)) with
       | [width; height] =>
           w ← int_of_string width;
           h ← int_of_string height;
           Ok (Some (w, h))
       | _ => Raise ValueError
       end
     else Ok None);
  Ok (duration, dimensions).

(** [get_video_info]: any exception is shown and answered by no duration
    and no dimensions *)
Definition get_video_info (p : probes) (video_path : string)
    : list notice * (option float * option (Z * Z)) :=
  match probe_video_info p video_path with
  | Ok info => ([], info)
  | Raise e => ([st_error_video_info e], (None, None))
  end.

(** [seconds_to_time]; the argument is the stored duration, a float or
    [None] *)
Definition seconds_to_time (seconds : option float) : result string :=
  match seconds with
  | None => Raise TypeError
  | Some seconds =>
      sixty ← float_of_int 60;
      q ← PyArith.float_floordiv seconds sixty;
      minutes ← int_of_float q;
      secs ← PyArith.float_mod seconds sixty;
      Ok (PyFmt.str_of_int minutes +:+ ":" +:+ PyFmt.format_05_2f secs)
  end.

End VideoSplitterApp.

(** ** [main]: one run of the script *)

(** the entry [video_info] of the session state *)
Record video_info : Type := {
  vi_duration : option float;
  vi_dimensions : option (Z * Z)
}.

(** The entries [video_path] and [video_info] of the session state: both
    missing, both [None], or a path with its information; [main] writes
    them together. *)
Inductive video_state : Type :=
| NoVideoKey
| VideoCleared
| VideoLoaded (video_path : string) (info : video_info).

(** the session state: the app object, with its temporary directory, and
    the video *)
Record session_state : Type := {
  ss_app : option (string * app);
  ss_video : video_state
}.

(** what the user has entered and pressed in this run *)
Record inputs : Type := {
  in_url : string;
  in_num_segments : nat;
  in_download : bool;
  in_request : nat -> request;
  in_process : bool
}.

(** the surroundings of the script *)
Record world : Type := {
  mkdtemp : string;
  which : string -> bool;
  yt_dlp : string -> string -> download_run;
  ffprobe : probes;
  run_ffmpeg : command -> gset string -> tool_run
}.

(** what [main] puts on the page, layout and input widgets apart *)
Inductive page_item : Type :=
| st_error_missing_dependencies (missing : list string)
| st_error_enter_url                      (* "Please enter a YouTube URL" *)
| shown_notice (n : notice)
| st_metric_duration (text : string)
| st_metric_resolution (w h : Z)
| shown_widget (w : widget)
| st_metric_successful (n : nat)
| st_metric_failed (n : nat)
| st_download_all (members : gset string) (* "Download All Videos (ZIP)" *)
| st_download_file (filename : string)
| st_error_failed_segment (n : nat) (reason : detail)
| st_info_welcome                         (* "Enter a YouTube URL ..." *).

(** how a run ends when no exception is raised: at the end of the script
    or at [st.rerun()] *)
Inductive control : Type :=
| Done
| Rerun.

(** the tools of [process_segment], from the world *)
Definition tools_of (w : world) : tools :=
  {| get_video_info := fun path => snd (VideoSplitterApp.get_video_info (ffprobe w) path);
     ffmpeg := run_ffmpeg w |}.

(** the body of [if st.button("Download & Analyze Video")]: the notices,
    the video entries afterwards and whether [st.rerun()] is reached *)
Definition download_and_analyze (w : world) (temp_dir : string) (url : string)
    (v : video_state) : list page_item * video_state * bool :=
  if PyStr.truthy url then
    let '(notices, downloaded_file) :=
      VideoSplitterApp.download_video (yt_dlp w) temp_dir url in
    match downloaded_file with
    | Some file =>
        if PyStr.truthy file then
          let '(notices', (duration, dimensions)) :=
            VideoSplitterApp.get_video_info (ffprobe w) file in
          (map shown_notice (notices ++ notices'),
           VideoLoaded file {| vi_duration := duration; vi_dimensions := dimensions |},
           true)
        else (map shown_notice notices, VideoCleared, false)
    | None => (map shown_notice notices, VideoCleared, false)
    end
  else ([st_error_enter_url], v, false).

(** the results shown after "Process All Segments" *)
Definition show_results (p : processing) (zip_data : option (gset string))
    : list page_item :=
  map shown_widget (shown p)
  ++ [st_metric_successful (length (successful_segments p));
      st_metric_failed (length (failed_segments p))]
  ++ match zip_data with
     | Some members =>
         st_download_all members
         :: map (fun file_path => st_download_file (PyPath.basename file_path))
              (successful_segments p)
     | None => []
     end
  ++ map (fun f => st_error_failed_segment (fst f) (snd f)) (failed_segments p).

(** the main content area for a loaded video *)
Definition video_page (w : world) (i : inputs) (a : app) (video_path : string)
    (info : video_info) : list page_item * app * result control :=
  match VideoSplitterApp.seconds_to_time (vi_duration info), vi_duration info with
  | Ok text, Some duration =>
      let metrics :=
        st_metric_duration text
        :: match vi_dimensions info with
           | Some (w, h) => [st_metric_resolution w h]
           | None => []
           end in
      match configure_segments duration 0
              (map (in_request i) (seq 0 (in_num_segments i))) with
      | (ws, Raise e) => (metrics ++ map shown_widget ws, a, Raise e)
      | (ws, Ok segments) =>
          match segments with
          | _ :: _ =>
              if in_process i then
                let '(p, zip_data, a') :=
                  process_all (tools_of w) a video_path segments in
                (metrics ++ map shown_widget ws ++ show_results p zip_data,
                 a', Ok Done)
              else (metrics ++ map shown_widget ws, a, Ok Done)
          | [] => (metrics ++ map shown_widget ws, a, Ok Done)
          end
      end
  | Raise e, _ => ([], a, Raise e)
  | Ok _, None =>
      (* not reached: [seconds_to_time] raises on [None] *)
      ([], a, Raise TypeError)
  end.

(** [main]: the page of this run, the session state it leaves and how the
    run ends *)
Definition main (w : world) (i : inputs) (s : session_state)
    : list page_item * session_state * result control :=
  (* Initialize the app *)
  let '(temp_dir, a) :=
    match ss_app s with
    | Some app => app
    | None => (mkdtemp w, VideoSplitterApp.init (mkdtemp w))
    end in
  let session v a := {| ss_app := Some (temp_dir, a); ss_video := v |} in
  (* Check dependencies *)
  match VideoSplitterApp.check_dependencies (which w) with
  | (_ :: _) as missing_deps =>
      ([st_error_missing_dependencies missing_deps], session (ss_video s) a, Ok Done)
  | [] =>
      (* Sidebar for input *)
      let '(sidebar, v, rerun) :=
        if in_download i
        then download_and_analyze w temp_dir (in_url i) (ss_video s)
        else ([], ss_video s, false) in
      if rerun then (sidebar, session v a, Ok Rerun)
      else
        (* Main content area *)
        match v with
        | VideoLoaded video_path info =>
            if PyStr.truthy video_path then
              let '(content, a', r) := video_page w i a video_path info in
              (sidebar ++ content, session v a', r)
            else (sidebar ++ [st_info_welcome], session v a, Ok Done)
        | _ => (sidebar ++ [st_info_welcome], session v a, Ok Done)
        end
  end.

(** ** Reading the page *)

(** the segment number of a widget that settles a request: a validation
    error or the acceptance notice; warnings and processing notices are not
    outcomes of the configuration *)
Definition outcome_number (w : widget) : option nat :=
  match w with
  | st_error_start_not_before_end n => Some n
  | st_error_start_exceeds_duration n => Some n
  | st_error_invalid_time_format n _ => Some n
  | st_success_segment n _ => Some n
  | _ => None
  end.

(** the plan an acceptance notice shows *)
Definition plan_of (w : widget) : option segment :=
  match w with
  | st_success_segment _ s => Some s
  | _ => None
  end.

(** both time fields are filled in, the guard of the loop body *)
Definition answered (r : request) : bool :=
  PyStr.truthy (start_time r) && PyStr.truthy (end_time r).

(** the numbers [i+1] of the answered requests, counting from [i] *)
Fixpoint answered_numbers (i : nat) (rs : list request) : list nat :=
  match rs with
  | [] => []
  | r :: rs' =>
      (if answered r then [S i] else []) ++ answered_numbers (S i) rs'
  end.

(** the text is a time or is rejected with [ValueError] *)
Definition time_parses (t : string) : Prop :=
  match parse_time_input t with
  | Ok (Some _) | Raise ValueError => True
  | _ => False
  end.

(** [sep.join(parts)] for a one-character separator *)
Fixpoint join_with (c : ascii) (parts : list string) : string :=
  match parts with
  | [] => EmptyString
  | [p] => p
  | p :: ps => p +:+ String c (join_with c ps)
  end.

Definition accepts_int (s : string) : bool :=
  match int_of_string s with Ok _ => true | Raise _ => false end.

Definition accepts_float (s : string) : bool :=
  match float_of_string s with Ok _ => true | Raise _ => false end.


(** the segment number of a processing notice *)
Definition notice_number (w : widget) : option nat :=
  match w with
  | st_success_completed n => Some n
  | st_error_failed n _ => Some n
  | _ => None
  end.

(** the character of a decimal digit *)
Definition digit_char (d : nat) : ascii := ascii_of_nat (48 + d).

Definition is_nan (x : float) : bool :=
  match x with S754_nan => true | _ => false end.

(** a plan lies in a source of the given duration, as the loop tests it;
    the comparisons are those of floats, false on NaN *)
Definition plan_in_bounds (video_duration : float) (s : segment) : Prop :=
  fge (seg_start s) (seg_end s) = false
  /\ fge (seg_start s) video_duration = false
  /\ fgt (seg_end s) video_duration = false
  /\ (is_nan (seg_start s) = false -> is_nan (seg_end s) = false ->
      flt (seg_start s) (seg_end s) = true)
  /\ (is_nan (seg_end s) = false -> is_nan video_duration = false ->
      fle (seg_end s) video_duration = true)
  /\ seg_duration s = fsub (seg_end s) (seg_start s)
  /\ parse_aspect_ratio (seg_ratio_text s) = Ok (seg_aspect_ratio s).

(** every character of [s] passes the test [p] *)
Fixpoint all_chars (p : ascii -> bool) (s : string) : bool :=
  match s with
  | EmptyString => true
  | String c s' => p c && all_chars p s'
  end.


(** the line feed that ends a line of output *)
Definition newline : string := String "010" EmptyString.

(** the information separators FS, GS, RS and US: [str.strip] removes
    them, [int] and [float] do not pass over them *)
Definition is_separator (c : ascii) : bool :=
  let n := Z.of_nat (nat_of_ascii c) in (28 <=? n) && (n <=? 31).

Definition file_separator : string := String "028" EmptyString.
Definition group_separator : string := String "029" EmptyString.

(** the temporary directory of the session's app object, made on first
    use *)
Definition session_temp_dir (w : world) (s : session_state) : string :=
  match ss_app s with
  | Some (temp_dir, _) => temp_dir
  | None => mkdtemp w
  end.

(** the choices of the "Aspect ratio" selectbox *)
Definition aspect_ratio_options : list string :=
  ["original"; "16:9"; "1:1"; "3:4"; "9:16"].

(** ** Real values of floats *)

(** [2 ^ e] for an integer exponent *)
Definition bpow (e : Z) : R := powerRZ 2 e.

(** the magnitude of a mantissa and exponent *)
Definition mag (m : positive) (e : Z) : R := (IZR (Zpos m) * bpow e)%R.

(** where the real [u] lies from the integer [m]: on it, below, at or
    above the middle of [m] and [m + 1] *)
Definition inbetween (m : Z) (l : location) (u : R) : Prop :=
  match l with
  | loc_Exact => u = IZR m
  | loc_Inexact Lt => (IZR m < u < IZR m + 1 / 2)%R
  | loc_Inexact Eq => u = (IZR m + 1 / 2)%R
  | loc_Inexact Gt => (IZR m + 1 / 2 < u < IZR m + 1)%R
  end.

(** the smallest exponent of a float *)
Definition emin : Z := SpecFloat.emin prec emax.

(** a non-negative real that is a float's magnitude or an integer below
    [2 ^ prec] *)
Definition in_format (f : R) : Prop :=
  exists m e, f = (IZR m * bpow e)%R /\ 0 <= m < 2 ^ prec /\ emin <= e.

(** [r] is a float next to the non-negative real [X], with sign [sx]: the
    result of rounding [X] at the exponent [e], where [M] is the integer
    part of [X / 2 ^ e] and [m1] the rounded mantissa *)
Definition rounds_to (sx : bool) (X : R) (r : float) : Prop :=
  exists e M m1,
    emin <= e
    /\ (IZR M <= X / bpow e < IZR M + 1)%R
    /\ 0 <= M
    /\ (emin < e -> 2 ^ (prec - 1) <= M)
    /\ M <= m1 <= M + 1
    /\ ((X / bpow e)%R = IZR M -> m1 = M)
    /\ ((m1 = 0 /\ r = S754_zero sx)
        \/ (0 < m1
            /\ ((exists m2 e2, r = S754_finite sx m2 e2
                   /\ SpecFloat.bounded prec emax m2 e2 = true
                   /\ mag m2 e2 = (IZR m1 * bpow e)%R)
                \/ (r = S754_infinity sx /\ (bpow emax <= IZR m1 * bpow e)%R)))).

(** the order [SFcompare] puts on two positive finite floats: by exponent,
    then by mantissa *)
Definition lex_lt (e1 : Z) (m1 : positive) (e2 : Z) (m2 : positive) : Prop :=
  e1 < e2 \/ (e1 = e2 /\ (m1 < m2)%positive).

(** a crop rectangle of even, non-negative numbers inside the frame *)
Definition crop_within (W H : Z) (g : crop_info) : Prop :=
  Z.even (width g) = true /\ Z.even (height g) = true
  /\ Z.even (x g) = true /\ Z.even (y g) = true
  /\ 0 <= width g /\ 0 <= height g /\ 0 <= x g /\ 0 <= y g
  /\ x g + width g <= W /\ y g + height g <= H.

(** the float 60.0, which [seconds_to_time] divides by *)
Definition sixty : float := S754_finite false 8444249301319680 (-47).

(** the real value of a zero or finite float *)
Definition real_of (x : float) : R :=
  match x with
  | S754_finite s m e => if s then (- mag m e)%R else mag m e
  | _ => 0%R
  end.

(** ** Sample data for the examples *)

Definition one_hundred : float := S754_finite false 7036874417766400 (-46).
Definition fifty : float := S754_finite false 7036874417766400 (-47).
Definition ten : float := S754_finite false 5629499534213120 (-49).
Definition one : float := S754_finite false 4503599627370496 (-52).
Definition nine : float := S754_finite false 5066549580791808 (-49).
Definition sixteen : float := S754_finite false 4503599627370496 (-48).

(** a plan for the seconds 0 to 10 of the source, not cropped *)
Definition sample_segment : segment :=
  {| seg_start := S754_zero false; seg_end := ten; seg_duration := ten;
     seg_aspect_ratio := None; seg_ratio_text := "original" |}.

(** a fresh app object: an empty output directory *)
Definition sample_app : app :=
  {| output_dir := "/tmp/tmpab12cd/output_videos"; files := ∅ |}.

(** the app object after a run that wrote two segments *)
Definition earlier_app : app :=
  {| output_dir := "/tmp/tmpab12cd/output_videos";
     files := {[ "video_part_01.mp4"; "video_part_02.mp4" ]} |}.

(** tools that always succeed *)
Definition reliable_tools : tools :=
  {| get_video_info := fun _ => (Some one_hundred, Some (1920, 1080));
     ffmpeg := fun _ _ => {| creates_output := true; completion := Ok (0, "") |} |}.

(** tools whose ffmpeg times out on the first output and succeeds on the
    others *)
Definition slow_first_tools : tools :=
  {| get_video_info := fun _ => (Some one_hundred, Some (1920, 1080));
     ffmpeg := fun c _ =>
       if String.eqb (PyPath.basename (cmd_output c)) "video_part_01.mp4"
       then {| creates_output := false; completion := Raise TimeoutExpired |}
       else {| creates_output := true; completion := Ok (0, "") |} |}.

(** tools whose ffmpeg is stopped by the timeout on the first output, after
    it began to write the file, and succeeds on the others *)
Definition interrupted_first_tools : tools :=
  {| get_video_info := fun _ => (Some one_hundred, Some (1920, 1080));
     ffmpeg := fun c _ =>
       if String.eqb (PyPath.basename (cmd_output c)) "video_part_01.mp4"
       then {| creates_output := true; completion := Raise TimeoutExpired |}
       else {| creates_output := true; completion := Ok (0, "") |} |}.

(** a text of [n] zeros followed by [s] *)
Fixpoint zeros_then (n : nat) (s : string) : string :=
  match n with
  | O => s
  | S n' => String "0" (zeros_then n' s)
  end.

(** a request whose start text has a minutes part of 310 digits *)
Definition overflowing_request : request :=
  {| start_time := String "1" (zeros_then 309 ":0"); end_time := "10";
     aspect_ratio_text := "original" |}.

(** ffprobe on a video of 100 seconds and 1920x1080 pixels *)
Definition sample_probes : probes :=
  {| ffprobe_duration := fun _ =>
       Ok {| cp_returncode := 0; cp_stdout := "100.000000" +:+ newline;
             cp_stderr := "" |};
     ffprobe_dimensions := fun _ =>
       Ok {| cp_returncode := 0; cp_stdout := "1920,1080" +:+ newline;
             cp_stderr := "" |} |}.

(** ffprobe on a file with sound only: a duration and no video stream *)
Definition audio_only_probes : probes :=
  {| ffprobe_duration := fun _ =>
       Ok {| cp_returncode := 0; cp_stdout := "100.000000" +:+ newline;
             cp_stderr := "" |};
     ffprobe_dimensions := fun _ =>
       Ok {| cp_returncode := 0; cp_stdout := ""; cp_stderr := "" |} |}.

(** ffprobe output with a file separator before the height *)
Definition separated_probes : probes :=
  {| ffprobe_duration := fun _ =>
       Ok {| cp_returncode := 0; cp_stdout := "100.000000" +:+ newline;
             cp_stderr := "" |};
     ffprobe_dimensions := fun _ =>
       Ok {| cp_returncode := 0;
             cp_stdout := "1920," +:+ file_separator +:+ "1080" +:+ newline;
             cp_stderr := "" |} |}.

(** ffprobe on a file whose duration it does not know *)
Definition unmeasured_probes : probes :=
  {| ffprobe_duration := fun _ =>
       Ok {| cp_returncode := 0; cp_stdout := "N/A" +:+ newline; cp_stderr := "" |};
     ffprobe_dimensions := fun _ =>
       Ok {| cp_returncode := 0; cp_stdout := "1920,1080" +:+ newline;
             cp_stderr := "" |} |}.

(** a change time, in seconds *)
Definition ctime_of (seconds : Z) : float :=
  binary_normalize prec emax seconds 0 false.

(** the temporary directory after yt-dlp wrote an mp4 file *)
Definition mp4_directory : directory :=
  {| path_exists := fun p => String.eqb p "/tmp/tmpab12cd/downloaded_video.mp4";
     entries := ["output_videos"; "downloaded_video.mp4"];
     getctime := fun _ => ctime_of 1700000000 |}.

(** the temporary directory after yt-dlp wrote a webm file *)
Definition webm_directory : directory :=
  {| path_exists := fun p => String.eqb p "/tmp/tmpab12cd/downloaded_video.webm";
     entries := ["output_videos"; "downloaded_video.webm"];
     getctime := fun _ => ctime_of 1700000000 |}.

(** a temporary directory, with a dot in its path, that holds an older
    and a newer video file and a file that is no video *)
Definition two_videos_directory : directory :=
  {| path_exists := fun _ => false;
     entries := ["older.mkv"; "notes.txt"; "newer.mp4"];
     getctime := fun p =>
       if String.eqb p "/tmp/tmp.ab12/newer.mp4" then ctime_of 1700000600
       else ctime_of 1700000000 |}.

(** the tools are installed and work: yt-dlp writes an mp4 file, ffprobe
    measures it, ffmpeg writes its output *)
Definition sample_world : world :=
  {| mkdtemp := "/tmp/tmpab12cd";
     which := fun _ => true;
     yt_dlp := fun _ _ =>
       {| dl_completion := Ok {| cp_returncode := 0; cp_stdout := ""; cp_stderr := "" |};
          dl_directory := mp4_directory |};
     ffprobe := sample_probes;
     run_ffmpeg := fun _ _ => {| creates_output := true; completion := Ok (0, "") |} |}.

(** the same, but yt-dlp rejects the URL and writes nothing *)
Definition failing_world : world :=
  {| mkdtemp := mkdtemp sample_world;
     which := which sample_world;
     yt_dlp := fun _ _ =>
       {| dl_completion :=
            Ok {| cp_returncode := 1; cp_stdout := "";
                  cp_stderr := "ERROR: Unsupported URL" |};
          dl_directory :=
            {| path_exists := fun _ => false; entries := ["output_videos"];
               getctime := fun _ => ctime_of 1700000000 |} |};
     ffprobe := ffprobe sample_world;
     run_ffmpeg := run_ffmpeg sample_world |}.

(** the same as the first, but ffprobe prints no duration for the file *)
Definition unmeasured_world : world :=
  {| mkdtemp := mkdtemp sample_world;
     which := which sample_world;
     yt_dlp := yt_dlp sample_world;
     ffprobe := unmeasured_probes;
     run_ffmpeg := run_ffmpeg sample_world |}.

(** the same as the first, but ffmpeg is not installed *)
Definition no_ffmpeg_world : world :=
  {| mkdtemp := mkdtemp sample_world;
     which := fun name => negb (String.eqb name "ffmpeg");
     yt_dlp := yt_dlp sample_world;
     ffprobe := ffprobe sample_world;
     run_ffmpeg := run_ffmpeg sample_world |}.

(** a session before the first run *)
Definition fresh_session : session_state :=
  {| ss_app := None; ss_video := NoVideoKey |}.

(** a session with a video of 100 seconds loaded *)
Definition loaded_session : session_state :=
  {| ss_app := Some ("/tmp/tmpab12cd", sample_app);
     ss_video :=
       VideoLoaded "/tmp/tmpab12cd/downloaded_video.mp4"
         {| vi_duration := Some one_hundred; vi_dimensions := Some (1920, 1080) |} |}.

(** a press of the download button for a URL, the segment fields empty *)
Definition press_download : inputs :=
  {| in_url := "https://www.youtube.com/watch?v=abc"; in_num_segments := 1;
     in_download := true;
     in_request := fun _ =>
       {| start_time := ""; end_time := ""; aspect_ratio_text := "original" |};
     in_process := false |}.

(** one segment from 10 to 20 seconds in 9:16, and a press of "Process
    All Segments" *)
Definition one_segment : inputs :=
  {| in_url := ""; in_num_segments := 1; in_download := false;
     in_request := fun _ =>
       {| start_time := "10"; end_time := "20"; aspect_ratio_text := "9:16" |};
     in_process := true |}.

(** * Properties *)

(** ** Strings *)

Lemma split_nonempty c s : PyStr.split c s <> [].
Proof.
  destruct s as [|d s]; simpl; [discriminate|].
  destruct (Ascii.eqb c d); [discriminate|].
  destruct (PyStr.split c s); discriminate.
Qed.

Lemma contains_app c a b :
  PyStr.contains c (a +:+ b) = PyStr.contains c a || PyStr.contains c b.
Proof.
  induction a as [|d a IH]; simpl; [reflexivity|].
  destruct (Ascii.eqb c d); [reflexivity | exact IH].
Qed.

Lemma split_no_sep c s : PyStr.contains c s = false -> PyStr.split c s = [s].
Proof.
  induction s as [|d s IH]; simpl; [reflexivity|].
  destruct (Ascii.eqb c d); [discriminate|].
  intros H. rewrite (IH H). reflexivity.
Qed.

Lemma split_app c a b :
  PyStr.contains c a = false ->
  PyStr.split c (a +:+ String c b) = a :: PyStr.split c b.
Proof.
  induction a as [|d a IH]; simpl.
  - intros _. rewrite Ascii.eqb_refl. reflexivity.
  - destruct (Ascii.eqb c d); [discriminate|].
    intros H. rewrite (IH H). reflexivity.
Qed.

Lemma split_parts c s : Forall (fun p => PyStr.contains c p = false) (PyStr.split c s).
Proof.
  induction s as [|d s IH]; simpl.
  - repeat constructor.
  - destruct (Ascii.eqb c d) eqn:E.
    + constructor; [reflexivity | exact IH].
    + destruct (PyStr.split c s) as [|p ps]; [repeat constructor; simpl; now rewrite E|].
      inversion IH; subst. constructor; [simpl; now rewrite E | assumption].
Qed.

Lemma join_split c s : join_with c (PyStr.split c s) = s.
Proof.
  induction s as [|d s IH]; simpl; [reflexivity|].
  destruct (Ascii.eqb c d) eqn:E.
  - apply Ascii.eqb_eq in E. subst d.
    pose proof (split_nonempty c s) as Hne.
    destruct (PyStr.split c s) as [|p ps]; [congruence|].
    change (join_with c (EmptyString :: p :: ps))
      with (String c (join_with c (p :: ps))).
    now rewrite IH.
  - pose proof (split_nonempty c s) as Hne.
    destruct (PyStr.split c s) as [|p ps]; [congruence|].
    destruct ps as [|p' ps]; rewrite <- IH; reflexivity.
Qed.

(** a text splits in two parts exactly when it is [a:b] with no other
    separator *)
Lemma split_two c s a b :
  PyStr.split c s = [a; b] <->
  s = a +:+ String c b /\ PyStr.contains c a = false /\ PyStr.contains c b = false.
Proof.
  split.
  - intros H. pose proof (split_parts c s) as HF. pose proof (join_split c s) as HJ.
    rewrite H in HF, HJ. apply Forall_cons_1 in HF as [Ha HF].
    apply Forall_cons_1 in HF as [Hb _]. simpl in HJ. auto.
  - intros (-> & Ha & Hb). rewrite (split_app _ _ _ Ha), (split_no_sep _ _ Hb).
    reflexivity.
Qed.

Lemma split_contains c s :
  PyStr.contains c s = true -> (2 <= length (PyStr.split c s))%nat.
Proof.
  induction s as [|d s IH]; simpl; [discriminate|].
  destruct (Ascii.eqb c d).
  - intros _. pose proof (split_nonempty c s).
    destruct (PyStr.split c s); [congruence | simpl; lia].
  - intros H. specialize (IH H).
    destruct (PyStr.split c s) as [|p ps]; simpl in *; lia.
Qed.

Lemma lower_char_colon c :
  Ascii.eqb ":" (PyStr.lower_char c) = Ascii.eqb ":" c.
Proof. destruct c as [[] [] [] [] [] [] [] []]; reflexivity. Qed.

Lemma contains_lower s :
  PyStr.contains ":" (PyStr.lower s) = PyStr.contains ":" s.
Proof.
  induction s as [|d s IH]; [reflexivity|].
  cbn [PyStr.lower PyStr.contains]. rewrite lower_char_colon, IH. reflexivity.
Qed.

(** ** Results of the parsers *)

Lemma float_of_string_cases s :
  (exists v, float_of_string s = Ok v) \/ float_of_string s = Raise ValueError.
Proof.
  unfold float_of_string.
  destruct (scan_sign (rstrip_blanks (lstrip_blanks s))) as [neg s1].
  destruct (_ || _); [eauto|].
  destruct (String.eqb _ _); [eauto|].
  destruct (scan_floatnumber s1) as [[[m k] [|? ?]]|]; eauto.
Qed.

Lemma int_of_string_cases s :
  (exists v, int_of_string s = Ok v) \/ int_of_string s = Raise ValueError.
Proof.
  unfold int_of_string.
  destruct (scan_sign (lstrip_blanks s)) as [neg s1].
  destruct (scan_digits 0 0 false s1) as [[v [|n]] rest]; [eauto|].
  destruct (lstrip_blanks rest); eauto.
Qed.

Lemma accepts_float_false s :
  accepts_float s = false <-> float_of_string s = Raise ValueError.
Proof.
  unfold accepts_float.
  destruct (float_of_string_cases s) as [[v ->] | ->]; split; congruence.
Qed.

Lemma accepts_int_false s :
  accepts_int s = false <-> int_of_string s = Raise ValueError.
Proof.
  unfold accepts_int.
  destruct (int_of_string_cases s) as [[v ->] | ->]; split; congruence.
Qed.

Lemma float_of_int_cases n :
  (exists v, float_of_int n = Ok v) \/ float_of_int n = Raise OverflowError.
Proof.
  unfold float_of_int. destruct (binary_normalize prec emax n 0 false); eauto.
Qed.

Lemma parse_time_input_raises t e :
  parse_time_input t = Raise e -> e = ValueError \/ e = OverflowError.
Proof.
  unfold parse_time_input.
  destruct (PyStr.contains ":" (PyStr.strip t)).
  - destruct (PyStr.split ":" (PyStr.strip t)) as [|a [|b [|c [|d l]]]];
      try discriminate.
    + destruct (int_of_string_cases a) as [[m ->] | ->]; cbn; [|intros [= <-]; auto].
      destruct (float_of_string_cases b) as [[v ->] | ->]; cbn; [|intros [= <-]; auto].
      destruct (float_of_int_cases (m * 60)) as [[f ->] | ->]; cbn;
        [discriminate | intros [= <-]; auto].
    + destruct (int_of_string_cases a) as [[h ->] | ->]; cbn; [|intros [= <-]; auto].
      destruct (int_of_string_cases b) as [[m ->] | ->]; cbn; [|intros [= <-]; auto].
      destruct (float_of_string_cases c) as [[v ->] | ->]; cbn; [|intros [= <-]; auto].
      destruct (float_of_int_cases (h * 3600 + m * 60)) as [[f ->] | ->]; cbn;
        [discriminate | intros [= <-]; auto].
  - destruct (float_of_string_cases (PyStr.strip t)) as [[v ->] | ->]; cbn;
      [discriminate | intros [= <-]; auto].
Qed.

Lemma parse_aspect_ratio_cases s :
  (exists r, parse_aspect_ratio s = Ok r) \/ parse_aspect_ratio s = Raise ValueError.
Proof.
  unfold parse_aspect_ratio.
  destruct (String.eqb _ _); [eauto|].
  destruct (negb _); [eauto|].
  destruct (PyStr.split ":" s) as [|a [|b [|c l]]]; eauto.
  destruct (float_of_string_cases a) as [[w ->] | ->]; cbn; [|eauto].
  destruct (float_of_string_cases b) as [[h ->] | ->]; cbn; eauto.
Qed.

Lemma parse_time_input_empty : parse_time_input "" = Raise ValueError.
Proof. reflexivity. Qed.

Lemma parse_time_input_truthy t v :
  parse_time_input t = Ok v -> PyStr.truthy t = true.
Proof. destruct t; [discriminate | reflexivity]. Qed.

(** ** Blanks and separators in numerals *)

Lemma is_blank_not_separator c : is_blank c = true -> is_separator c = false.
Proof. destruct c as [[] [] [] [] [] [] [] []]; vm_compute; congruence. Qed.

Lemma is_digit_not_separator c : PyStr.is_digit c = true -> is_separator c = false.
Proof. destruct c as [[] [] [] [] [] [] [] []]; vm_compute; congruence. Qed.

Lemma lower_char_separator c : is_separator (PyStr.lower_char c) = is_separator c.
Proof. destruct c as [[] [] [] [] [] [] [] []]; reflexivity. Qed.

(** what [lstrip_blanks] drops passes every test that the blanks pass *)
Lemma lstrip_blanks_chars (p : ascii -> bool) s :
  (forall c, is_blank c = true -> p c = true) ->
  all_chars p (lstrip_blanks s) = true -> all_chars p s = true.
Proof.
  intros Hp. induction s as [|c s IH]; [auto|]. cbn [lstrip_blanks].
  destruct (is_blank c) eqn:E; [|auto].
  intros H. cbn [all_chars]. now rewrite (Hp c E), IH.
Qed.

Lemma rstrip_blanks_chars (p : ascii -> bool) s :
  (forall c, is_blank c = true -> p c = true) ->
  all_chars p (rstrip_blanks s) = true -> all_chars p s = true.
Proof.
  intros Hp. induction s as [|c s IH]; [auto|]. cbn [rstrip_blanks all_chars].
  destruct (rstrip_blanks s) as [|d r].
  - destruct (is_blank c) eqn:E.
    + intros _. now rewrite (Hp c E), IH.
    + cbn [all_chars]. rewrite andb_true_r. intros ->. now rewrite IH.
  - intros H. cbn [all_chars] in H. apply andb_true_iff in H as [-> H].
    now rewrite IH.
Qed.

(** what [scan_digits] reads is made of digits and underscores *)
Lemma scan_digits_chars (p : ascii -> bool) s :
  (forall c, PyStr.is_digit c = true -> p c = true) -> p "_"%char = true ->
  forall acc n after_digit v n' rest,
    scan_digits acc n after_digit s = (v, n', rest) ->
    all_chars p rest = true -> all_chars p s = true.
Proof.
  intros Hd Hu. induction s as [|c s IH]; intros acc n after_digit v n' rest.
  - cbn. now intros [= _ _ <-].
  - cbn [scan_digits]. destruct (PyStr.is_digit c) eqn:Ec.
    + intros H Hr. cbn [all_chars]. rewrite (Hd c Ec). exact (IH _ _ _ _ _ _ H Hr).
    + destruct (Ascii.eqb c "_" && after_digit) eqn:Eu;
        [|now intros [= _ _ <-]].
      apply andb_true_iff in Eu as [Eu _]. apply Ascii.eqb_eq in Eu. subst c.
      destruct s as [|d s']; [now intros [= _ _ <-]|].
      destruct (PyStr.is_digit d); [|now intros [= _ _ <-]].
      intros H Hr. cbn [all_chars]. rewrite Hu. exact (IH _ _ _ _ _ _ H Hr).
Qed.

Lemma scan_sign_chars (p : ascii -> bool) s neg s1 :
  p "-"%char = true -> p "+"%char = true ->
  scan_sign s = (neg, s1) -> all_chars p s1 = true -> all_chars p s = true.
Proof.
  intros Hm Hp. unfold scan_sign.
  destruct s as [|c s]; [now intros [= _ <-]|].
  destruct (Ascii.eqb_spec c "-") as [-> | Hc1].
  - intros [= _ <-] H. cbn [all_chars]. now rewrite Hm.
  - destruct (Ascii.eqb_spec c "+") as [-> | Hc2].
    + intros [= _ <-] H. cbn [all_chars]. now rewrite Hp.
    + destruct c as [[] [] [] [] [] [] [] []]; try congruence;
        now intros [= _ <-].
Qed.

(** a text that [int] reads holds no separator *)
Lemma int_of_string_no_separator s v :
  int_of_string s = Ok v -> all_chars (fun c => negb (is_separator c)) s = true.
Proof.
  set (p := fun c => negb (is_separator c)).
  assert (Hb : forall c, is_blank c = true -> p c = true)
    by (intros c H; unfold p; now rewrite is_blank_not_separator).
  assert (Hd : forall c, PyStr.is_digit c = true -> p c = true)
    by (intros c H; unfold p; now rewrite is_digit_not_separator).
  unfold int_of_string.
  destruct (scan_sign (lstrip_blanks s)) as [neg s1] eqn:Es.
  destruct (scan_digits 0 0 false s1) as [[w [|n]] rest] eqn:Ed; [discriminate|].
  destruct (lstrip_blanks rest) eqn:Er; [|discriminate]. intros _.
  apply (lstrip_blanks_chars p _ Hb).
  apply (scan_sign_chars p _ _ _ eq_refl eq_refl Es).
  apply (scan_digits_chars p _ Hd eq_refl _ _ _ _ _ _ Ed).
  apply (lstrip_blanks_chars p _ Hb). now rewrite Er.
Qed.

Lemma lower_chars_separator s :
  all_chars (fun c => negb (is_separator c)) (PyStr.lower s)
  = all_chars (fun c => negb (is_separator c)) s.
Proof.
  induction s as [|c s IH]; [reflexivity|].
  cbn [PyStr.lower all_chars]. now rewrite lower_char_separator, IH.
Qed.

Lemma scan_exponent_chars (p : ascii -> bool) s ex rest :
  (forall c, PyStr.is_digit c = true -> p c = true) -> p "_"%char = true ->
  p "-"%char = true -> p "+"%char = true -> p "e"%char = true -> p "E"%char = true ->
  scan_exponent s = Some (ex, rest) ->
  all_chars p rest = true -> all_chars p s = true.
Proof.
  intros Hd Hu Hm Hp He HE. unfold scan_exponent.
  destruct s as [|c s1]; [discriminate|].
  destruct (Ascii.eqb (PyStr.lower_char c) "e") eqn:Ec; [|discriminate].
  destruct (scan_sign s1) as [neg s2] eqn:Es.
  destruct (scan_digits 0 0 false s2) as [[v [|n]] r] eqn:Ed; [discriminate|].
  intros [= _ <-] Hr. cbn [all_chars].
  assert (Hc : p c = true).
  { apply Ascii.eqb_eq in Ec.
    destruct c as [[] [] [] [] [] [] [] []]; try discriminate Ec; assumption. }
  rewrite Hc. cbn [andb].
  apply (scan_sign_chars p _ _ _ Hm Hp Es).
  exact (scan_digits_chars p _ Hd Hu _ _ _ _ _ _ Ed Hr).
Qed.

Lemma scan_floatnumber_chars (p : ascii -> bool) s m k rest :
  (forall c, PyStr.is_digit c = true -> p c = true) -> p "_"%char = true ->
  p "-"%char = true -> p "+"%char = true -> p "e"%char = true -> p "E"%char = true ->
  p "."%char = true ->
  scan_floatnumber s = Some (m, k, rest) ->
  all_chars p rest = true -> all_chars p s = true.
Proof.
  intros Hd Hu Hm Hp He HE Hdot. unfold scan_floatnumber.
  destruct (scan_digits 0 0 false s) as [[ip ni] s1] eqn:E1.
  intros H Hr. apply (scan_digits_chars p _ Hd Hu _ _ _ _ _ _ E1).
  assert (Hexp : forall m0 s2 nd nf,
    match nd with
    | O => None
    | S _ =>
        match scan_exponent s2 with
        | Some (ex, rest) => Some (m0, ex - Z.of_nat nf, rest)
        | None => Some (m0, - Z.of_nat nf, s2)
        end
    end = Some (m, k, rest) -> all_chars p s2 = true).
  { intros m0 s2 [|nd] nf; [discriminate|].
    destruct (scan_exponent s2) as [[ex r]|] eqn:Ee.
    - intros [= _ _ <-]. exact (scan_exponent_chars p _ _ _ Hd Hu Hm Hp He HE Ee Hr).
    - now intros [= _ _ <-]. }
  destruct s1 as [|c s1'].
  - exact (Hexp ip EmptyString ni 0%nat H).
  - destruct (Ascii.eqb_spec c ".") as [-> | Hc].
    + destruct (scan_digits ip ni false s1') as [[m' n] r] eqn:E2.
      cbn [all_chars]. rewrite Hdot. cbn [andb].
      apply (scan_digits_chars p _ Hd Hu _ _ _ _ _ _ E2).
      exact (Hexp m' r n (n - ni)%nat H).
    + apply (Hexp ip (String c s1') ni 0%nat).
      destruct c as [[] [] [] [] [] [] [] []]; try congruence; exact H.
Qed.

(** a text that [float] reads holds no separator *)
Lemma float_of_string_no_separator s v :
  float_of_string s = Ok v -> all_chars (fun c => negb (is_separator c)) s = true.
Proof.
  set (p := fun c => negb (is_separator c)).
  assert (Hb : forall c, is_blank c = true -> p c = true)
    by (intros c H; unfold p; now rewrite is_blank_not_separator).
  assert (Hd : forall c, PyStr.is_digit c = true -> p c = true)
    by (intros c H; unfold p; now rewrite is_digit_not_separator).
  unfold float_of_string.
  destruct (scan_sign (rstrip_blanks (lstrip_blanks s))) as [neg s1] eqn:Es.
  intros H.
  apply (lstrip_blanks_chars p _ Hb), (rstrip_blanks_chars p _ Hb).
  apply (scan_sign_chars p _ _ _ eq_refl eq_refl Es).
  unfold p. rewrite <- lower_chars_separator.
  destruct (String.eqb (PyStr.lower s1) "inf") eqn:E1;
    [apply String.eqb_eq in E1; now rewrite E1|].
  destruct (String.eqb (PyStr.lower s1) "infinity") eqn:E2;
    [apply String.eqb_eq in E2; now rewrite E2|].
  destruct (String.eqb (PyStr.lower s1) "nan") eqn:E3;
    [apply String.eqb_eq in E3; now rewrite E3|].
  cbn [orb] in H. rewrite lower_chars_separator.
  destruct (scan_floatnumber s1) as [[[m k] [|? ?]]|] eqn:Ef; try discriminate.
  exact (scan_floatnumber_chars p _ _ _ _ Hd eq_refl eq_refl eq_refl eq_refl
           eq_refl eq_refl Ef eq_refl).
Qed.

(** a text whose parts between the colons pass a test that the colon
    passes *)
Lemma split_chars (p : ascii -> bool) c s :
  p c = true -> forallb (all_chars p) (PyStr.split c s) = true ->
  all_chars p s = true.
Proof.
  intros Hc. induction s as [|d s IH]; [reflexivity|].
  cbn [PyStr.split all_chars]. destruct (Ascii.eqb_spec c d) as [<- | Hd].
  - cbn [forallb all_chars]. intros H. now rewrite Hc, IH.
  - destruct (PyStr.split c s) as [|q qs].
    + cbn [forallb all_chars]. rewrite !andb_true_r. intros ->. now rewrite IH.
    + cbn [forallb all_chars] in *. intros H.
      apply andb_true_iff in H as [H Hqs]. apply andb_true_iff in H as [-> Hq].
      rewrite IH; [reflexivity|]. now rewrite Hq, Hqs.
Qed.

(** a time text that is given a value holds no separator once stripped *)
Lemma parse_time_input_no_separator s v :
  parse_time_input s = Ok (Some v) ->
  all_chars (fun c => negb (is_separator c)) (PyStr.strip s) = true.
Proof.
  unfold parse_time_input.
  destruct (PyStr.contains ":" (PyStr.strip s)) eqn:Hc.
  - intros H. apply (split_chars _ ":"); [reflexivity|].
    destruct (PyStr.split ":" (PyStr.strip s)) as [|a [|b [|c [|d l]]]];
      try discriminate.
    + destruct (int_of_string a) as [m|] eqn:Ea; [|discriminate].
      destruct (float_of_string b) as [x|] eqn:Eb; [|discriminate].
      cbn [forallb].
      now rewrite (int_of_string_no_separator _ _ Ea),
        (float_of_string_no_separator _ _ Eb).
    + destruct (int_of_string a) as [h|] eqn:Ea; [|discriminate].
      destruct (int_of_string b) as [m|] eqn:Eb; [|discriminate].
      destruct (float_of_string c) as [x|] eqn:Ec; [|discriminate].
      cbn [forallb].
      now rewrite (int_of_string_no_separator _ _ Ea),
        (int_of_string_no_separator _ _ Eb),
        (float_of_string_no_separator _ _ Ec).
  - destruct (float_of_string (PyStr.strip s)) as [x|] eqn:E; [|discriminate].
    intros _. exact (float_of_string_no_separator _ _ E).
Qed.

(** a ratio text that is given a pair holds no separator *)
Lemma parse_aspect_ratio_no_separator s r :
  parse_aspect_ratio s = Ok (Some r) ->
  all_chars (fun c => negb (is_separator c)) s = true.
Proof.
  unfold parse_aspect_ratio.
  destruct (String.eqb (PyStr.lower s) "original"); [discriminate|].
  destruct (negb (PyStr.contains ":" s)); [discriminate|].
  intros H. apply (split_chars _ ":"); [reflexivity|].
  destruct (PyStr.split ":" s) as [|a [|b [|c l]]]; try discriminate.
  destruct (float_of_string a) as [w|] eqn:Ea; [|discriminate].
  destruct (float_of_string b) as [h|] eqn:Eb; [|discriminate].
  cbn [forallb].
  now rewrite (float_of_string_no_separator _ _ Ea),
    (float_of_string_no_separator _ _ Eb).
Qed.

(** [str.strip] removes a group separator around a time text; [int] and
    [float] reject one inside it *)
Lemma parse_time_input_separator :
  parse_time_input (group_separator +:+ "1:2" +:+ group_separator)
  = parse_time_input "1:2"
  /\ parse_time_input ("1" +:+ group_separator +:+ ":2") = Raise ValueError
  /\ parse_time_input ("1:" +:+ group_separator +:+ "2") = Raise ValueError.
Proof. repeat split; reflexivity. Qed.

(** [parse_aspect_ratio] does not strip: a separator anywhere in the text
    is rejected by [float] *)
Lemma parse_aspect_ratio_separator :
  parse_aspect_ratio (file_separator +:+ "16:9") = Raise ValueError
  /\ parse_aspect_ratio ("16:9" +:+ file_separator) = Raise ValueError.
Proof. split; reflexivity. Qed.

(** ** C2: texts that [parse_time_input] rejects *)




(** ** C4: [parse_aspect_ratio] *)

(** C4, the claim as stated fails: "0:9" and "-16:9" are parsed to pairs
    whose first component is not strictly positive. *)
Lemma parse_aspect_ratio_accepts_nonpositive :
  parse_aspect_ratio "0:9"
    = Ok (Some (S754_zero false, S754_finite false 5066549580791808 (-49)))
  /\ parse_aspect_ratio "-16:9"
    = Ok (Some (S754_finite true 4503599627370496 (-48),
                S754_finite false 5066549580791808 (-49))).
Proof. split; reflexivity. Qed.

Lemma lower_original_no_colon s :
  String.eqb (PyStr.lower s) "original" = true -> PyStr.contains ":" s = false.
Proof.
  intros H. apply String.eqb_eq in H. rewrite <- contains_lower, H. reflexivity.
Qed.

(** C4 (amended): [parse_aspect_ratio] gives the original ratio exactly on
    the texts that are "original" up to case; it gives a pair [(w, h)]
    exactly on the texts [a:b] with one colon whose two parts [float]
    accepts, with their values and with no condition on sign or zero; on
    every other text it fails with [ValueError]. *)
Theorem parse_aspect_ratio_spec :
  (forall s, parse_aspect_ratio s = Ok None <-> PyStr.lower s = "original")
  /\ (forall s w h,
        parse_aspect_ratio s = Ok (Some (w, h)) <->
        exists a b, s = a +:+ ":" +:+ b
          /\ PyStr.contains ":" a = false /\ PyStr.contains ":" b = false
          /\ float_of_string a = Ok w /\ float_of_string b = Ok h)
  /\ (forall s, (exists r, parse_aspect_ratio s = Ok r)
                \/ parse_aspect_ratio s = Raise ValueError)
  /\ parse_aspect_ratio "OrIgInal" = Ok None
  /\ parse_aspect_ratio "16:9"
       = Ok (Some (S754_finite false 4503599627370496 (-48),
                   S754_finite false 5066549580791808 (-49)))
  /\ parse_aspect_ratio "16-9" = Raise ValueError.
Proof.
  split; [|split; [|split; [exact parse_aspect_ratio_cases | repeat split]]].
  - intros s. unfold parse_aspect_ratio.
    destruct (String.eqb (PyStr.lower s) "original") eqn:E.
    + apply String.eqb_eq in E. tauto.
    + apply String.eqb_neq in E.
      split; [|tauto]. intros H. exfalso.
      destruct (negb _); [discriminate|].
      destruct (PyStr.split ":" s) as [|a [|b [|c l]]]; try discriminate.
      destruct (float_of_string a); cbn in H; [|discriminate].
      destruct (float_of_string b); cbn in H; discriminate.
  - intros s w h. unfold parse_aspect_ratio.
    destruct (String.eqb (PyStr.lower s) "original") eqn:E.
    + apply lower_original_no_colon in E.
      split; [discriminate|]. intros (a & b & -> & _).
      rewrite contains_app in E. simpl in E.
      rewrite orb_true_r in E. discriminate.
    + destruct (PyStr.contains ":" s) eqn:Hc; cbn [negb].
      * split.
        -- destruct (PyStr.split ":" s) as [|a [|b [|c l]]] eqn:Hs; try discriminate.
           apply split_two in Hs as (-> & Ha & Hb).
           destruct (float_of_string a) as [w'|] eqn:Hw; cbn; [|discriminate].
           destruct (float_of_string b) as [h'|] eqn:Hh; cbn; [|discriminate].
           intros [= <- <-]. exists a, b. auto.
        -- intros (a & b & -> & Ha & Hb & Hw & Hh).
           rewrite (proj2 (split_two ":" (a +:+ ":" +:+ b) a b)) by auto.
           rewrite Hw, Hh. reflexivity.
      * split; [discriminate|]. intros (a & b & -> & _).
        rewrite contains_app in Hc. simpl in Hc.
        rewrite orb_true_r in Hc. discriminate.
Qed.

(** ** The configuration loop *)

Lemma one_hundred_parsed : float_of_string "100" = Ok one_hundred.
Proof. reflexivity. Qed.

(** what [validate_segment] shows and returns, case by case *)
Lemma validate_segment_cases D n r :
  match validate_segment D n r with
  | (ws, Ok None) =>
      ws = [st_error_start_not_before_end n]
      \/ ws = [st_error_start_exceeds_duration n]
  | (ws, Ok (Some s)) =>
      ws = [st_success_segment n s]
      \/ ws = [st_warning_end_adjusted n; st_success_segment n s]
  | (ws, Raise ValueError) => ws = [] \/ ws = [st_warning_end_adjusted n]
  | (ws, Raise TypeError) =>
      ws = [] /\ (parse_time_input (start_time r) = Ok None
                  \/ parse_time_input (end_time r) = Ok None)
  | (ws, Raise e) =>
      ws = [] /\ (parse_time_input (start_time r) = Raise e
                  \/ parse_time_input (end_time r) = Raise e)
  end.
Proof.
  unfold validate_segment.
  destruct (parse_time_input (start_time r)) as [[s|]|e] eqn:Hs; cbn.
  - destruct (parse_time_input (end_time r)) as [[e|]|e] eqn:He; cbn.
    + destruct (fge s e); cbn; [auto|].
      destruct (fge s D); cbn; [auto|].
      destruct (parse_aspect_ratio_cases (aspect_ratio_text r)) as [[pr ->] | ->];
        destruct (fgt e D); cbn; auto.
    + auto.
    + destruct (parse_time_input_raises _ _ He) as [-> | ->]; auto.
  - destruct (parse_time_input (end_time r)) as [[e|]|e] eqn:He; cbn; auto.
    destruct (parse_time_input_raises _ _ He) as [-> | ->]; auto.
  - destruct (parse_time_input_raises _ _ Hs) as [-> | ->]; auto.
Qed.

(** one answered request whose times parse or are rejected: one outcome,
    and a plan exactly when a segment is appended *)
Lemma configure_segment_outcome D i r :
  time_parses (start_time r) -> time_parses (end_time r) ->
  exists ws s, configure_segment D i r = (ws, Ok s)
    /\ omap outcome_number ws = (if answered r then [S i] else [])
    /\ omap plan_of ws = option_list s.
Proof.
  unfold time_parses, configure_segment, answered. intros Hs He.
  destruct (PyStr.truthy (start_time r) && PyStr.truthy (end_time r));
    [|exists [], None; auto].
  pose proof (validate_segment_cases D (S i) r) as H.
  destruct (validate_segment D (S i) r) as [ws [[s|]|e]].
  - exists ws, (Some s). destruct H as [-> | ->]; auto.
  - exists ws, None. destruct H as [-> | ->]; auto.
  - destruct e.
    + eexists _, None. split; [reflexivity|]. destruct H as [-> | ->]; auto.
    + destruct H as [_ [H | H]]; rewrite H in *; contradiction.
    + destruct H as [_ [H | H]]; rewrite H in *; contradiction.
    + destruct H as [_ [H | H]]; rewrite H in *; contradiction.
    + destruct H as [_ [H | H]]; rewrite H in *; contradiction.
    + destruct H as [_ [H | H]]; rewrite H in *; contradiction.
Qed.

Lemma omap_app_list {A B} (f : A -> option B) (l1 l2 : list A) :
  omap f (l1 ++ l2) = omap f l1 ++ omap f l2.
Proof.
  induction l1 as [|a l1 IH]; [reflexivity|].
  cbn. destruct (f a); cbn; now rewrite IH.
Qed.

Lemma configure_segments_outcomes D rs : forall i,
  Forall (fun r => time_parses (start_time r) /\ time_parses (end_time r)) rs ->
  exists ws segments, configure_segments D i rs = (ws, Ok segments)
    /\ omap outcome_number ws = answered_numbers i rs
    /\ omap plan_of ws = segments.
Proof.
  induction rs as [|r rs IH]; intros i HF.
  - exists [], []. auto.
  - apply Forall_cons_1 in HF as [[Hs He] HF].
    destruct (configure_segment_outcome D i r Hs He) as (ws1 & s & E1 & N1 & P1).
    destruct (IH (S i) HF) as (ws2 & segs & E2 & N2 & P2).
    exists (ws1 ++ ws2), (option_list s ++ segs).
    cbn [configure_segments answered_numbers]. rewrite E1. cbn. rewrite E2. cbn.
    rewrite app_nil_r, !omap_app_list, N1, N2, P1, P2. auto.
Qed.

Lemma answered_numbers_length i rs :
  length (answered_numbers i rs) = length (filter (fun r => answered r = true) rs).
Proof.
  revert i. induction rs as [|r rs IH]; intros i; [reflexivity|].
  cbn [answered_numbers]. rewrite length_app, IH.
  rewrite filter_cons. destruct (answered r); reflexivity.
Qed.

(** ** C1: one outcome per request *)

(** C1, the claim as stated fails: a request whose time fields are empty
    shows nothing and appends nothing; one request, no outcome. *)
Lemma configure_segments_skips_blank :
  configure_segments one_hundred 0
    [{| start_time := ""; end_time := ""; aspect_ratio_text := "original" |}]
  = ([], Ok []).
Proof. reflexivity. Qed.

(** C1 (amended): when every time text is a time or is rejected with
    [ValueError], the loop ends normally; the outcomes on the page (one
    validation error or one acceptance notice each) are, in input order,
    those of the requests with both time fields filled in, one per such
    request and none for the others; the accepted plans are the [segments]
    list, in that order. *)
Theorem configure_segments_one_outcome_each (video_duration : float)
    (rs : list request) :
  Forall (fun r => time_parses (start_time r) /\ time_parses (end_time r)) rs ->
  exists ws segments,
    configure_segments video_duration 0 rs = (ws, Ok segments)
    /\ omap outcome_number ws = answered_numbers 0 rs
    /\ length (omap outcome_number ws)
       = length (filter (fun r => answered r = true) rs)
    /\ omap plan_of ws = segments.
Proof.
  intros HF.
  destruct (configure_segments_outcomes video_duration rs 0%nat HF)
    as (ws & segs & E & N & P).
  exists ws, segs. rewrite N at 2. rewrite answered_numbers_length. auto.
Qed.

(** three requests: a rejected one, an accepted one and a blank one *)
Lemma configure_segments_one_outcome_each_witness :
  exists ws segments,
    configure_segments one_hundred 0
      [ {| start_time := "x"; end_time := "5"; aspect_ratio_text := "1:1" |};
        {| start_time := "10"; end_time := "20"; aspect_ratio_text := "original" |};
        {| start_time := ""; end_time := "7"; aspect_ratio_text := "9:16" |} ]
      = (ws, Ok segments)
    /\ omap outcome_number ws = [1; 2]%nat
    /\ length (omap outcome_number ws) = 2%nat
    /\ omap plan_of ws = segments.
Proof.
  apply (configure_segments_one_outcome_each one_hundred
    [ {| start_time := "x"; end_time := "5"; aspect_ratio_text := "1:1" |};
      {| start_time := "10"; end_time := "20"; aspect_ratio_text := "original" |};
      {| start_time := ""; end_time := "7"; aspect_ratio_text := "9:16" |} ]).
  repeat constructor; vm_compute; exact I.
Defined.

(** ** C5: an exception that escapes the loop *)

(** C5: a start text of four components makes [parse_time_input] return
    without a value; the comparison then raises [TypeError], which
    [except ValueError] does not catch: the loop is left by the exception
    and nothing is recorded for the segment. *)
Theorem configure_segments_type_error :
  configure_segments one_hundred 0
    [{| start_time := "1:2:3:4"; end_time := "10"; aspect_ratio_text := "original" |}]
  = ([], Raise TypeError).
Proof. reflexivity. Qed.

(** ** Order of floats *)

Lemma lex_compare_lt e1 m1 e2 m2 :
  match e1 ?= e2 with
  | Lt => Lt | Gt => Gt | Eq => Pos.compare_cont Eq m1 m2
  end = Lt <-> lex_lt e1 m1 e2 m2.
Proof.
  unfold lex_lt. change (Pos.compare_cont Eq m1 m2) with (m1 ?= m2)%positive.
  destruct (Z.compare_spec e1 e2); destruct (Pos.compare_spec m1 m2);
    split; intros; try discriminate; try reflexivity; lia.
Qed.

Lemma lex_compare_gt e1 m1 e2 m2 :
  match e1 ?= e2 with
  | Lt => Lt | Gt => Gt | Eq => Pos.compare_cont Eq m1 m2
  end = Gt <-> lex_lt e2 m2 e1 m1.
Proof.
  unfold lex_lt. change (Pos.compare_cont Eq m1 m2) with (m1 ?= m2)%positive.
  destruct (Z.compare_spec e1 e2); destruct (Pos.compare_spec m1 m2);
    split; intros; try discriminate; try reflexivity; lia.
Qed.

Lemma lex_compare_lt_neg e1 m1 e2 m2 :
  match e1 ?= e2 with
  | Lt => Gt | Gt => Lt | Eq => CompOpp (Pos.compare_cont Eq m1 m2)
  end = Lt <-> lex_lt e2 m2 e1 m1.
Proof.
  unfold lex_lt. change (Pos.compare_cont Eq m1 m2) with (m1 ?= m2)%positive.
  destruct (Z.compare_spec e1 e2); destruct (Pos.compare_spec m1 m2);
    split; cbn; intros; try discriminate; try reflexivity; lia.
Qed.

Lemma lex_compare_gt_neg e1 m1 e2 m2 :
  match e1 ?= e2 with
  | Lt => Gt | Gt => Lt | Eq => CompOpp (Pos.compare_cont Eq m1 m2)
  end = Gt <-> lex_lt e1 m1 e2 m2.
Proof.
  unfold lex_lt. change (Pos.compare_cont Eq m1 m2) with (m1 ?= m2)%positive.
  destruct (Z.compare_spec e1 e2); destruct (Pos.compare_spec m1 m2);
    split; cbn; intros; try discriminate; try reflexivity; lia.
Qed.

Lemma SFcompare_lt_gt x y :
  SFcompare x y = Some Lt -> SFcompare y x = Some Gt.
Proof.
  destruct x as [[]|[]| |[] mx ex], y as [[]|[]| |[] my ey]; cbn;
    try discriminate; try reflexivity; intros [= H]; f_equal.
  - apply lex_compare_gt_neg. now apply lex_compare_lt_neg in H.
  - apply lex_compare_gt. now apply lex_compare_lt in H.
Qed.

Lemma lex_lt_trans e1 m1 e2 m2 e3 m3 :
  lex_lt e1 m1 e2 m2 -> lex_lt e2 m2 e3 m3 -> lex_lt e1 m1 e3 m3.
Proof. unfold lex_lt. lia. Qed.

Lemma SFcompare_lt_trans x y z :
  SFcompare x y = Some Lt -> SFcompare y z = Some Lt -> SFcompare x z = Some Lt.
Proof.
  destruct x as [[]|[]| |[] mx ex], y as [[]|[]| |[] my ey],
    z as [[]|[]| |[] mz ez]; cbn;
    try discriminate; try reflexivity; intros [= H1] [= H2]; f_equal.
  - apply lex_compare_lt_neg. apply lex_compare_lt_neg in H1, H2.
    eapply lex_lt_trans; eassumption.
  - apply lex_compare_lt. apply lex_compare_lt in H1, H2.
    eapply lex_lt_trans; eassumption.
Qed.

(** [x < y] excludes [x >= y] *)
Lemma flt_not_fge x y : flt x y = true -> fge x y = false.
Proof.
  unfold flt, fge, SFltb, SFleb. intros H.
  destruct (SFcompare x y) as [[]|] eqn:E; try discriminate.
  now rewrite (SFcompare_lt_gt _ _ E).
Qed.

Lemma flt_trans x y z : flt x y = true -> flt y z = true -> flt x z = true.
Proof.
  unfold flt, SFltb. intros H1 H2.
  destruct (SFcompare x y) as [[]|] eqn:E1; try discriminate.
  destruct (SFcompare y z) as [[]|] eqn:E2; try discriminate.
  now rewrite (SFcompare_lt_trans _ _ _ E1 E2).
Qed.

(** ** C8: the validation rules *)

(** C8: for a request whose start and end texts parse to [s] and [e], on a
    source of duration [D]: [s >= e] is rejected with the start-after-end
    error; otherwise [s >= D] is rejected with the start-beyond-source
    error (so [s >= D] is rejected in every case); [s < D] with [e > D] is
    accepted with a warning, the end set to [D] and the duration [D - s].
    For [D = 100]: start 110 is rejected, start 50 / end 150 gives duration
    50, start 60 / end 30 is rejected. *)
Theorem configure_segment_rules :
  (forall D i r s e,
     parse_time_input (start_time r) = Ok (Some s) ->
     parse_time_input (end_time r) = Ok (Some e) ->
     (fge s e = true ->
        configure_segment D i r = ([st_error_start_not_before_end (S i)], Ok None))
     /\ (fge s e = false -> fge s D = true ->
        configure_segment D i r = ([st_error_start_exceeds_duration (S i)], Ok None))
     /\ (fge s D = true ->
        configure_segment D i r = ([st_error_start_not_before_end (S i)], Ok None)
        \/ configure_segment D i r
             = ([st_error_start_exceeds_duration (S i)], Ok None))
     /\ (flt s D = true -> fgt e D = true ->
         forall ratio, parse_aspect_ratio (aspect_ratio_text r) = Ok ratio ->
         let plan := {| seg_start := s; seg_end := D; seg_duration := fsub D s;
                        seg_aspect_ratio := ratio;
                        seg_ratio_text := aspect_ratio_text r |} in
         configure_segment D i r
         = ([st_warning_end_adjusted (S i); st_success_segment (S i) plan],
            Ok (Some plan))))
  /\ configure_segment one_hundred 0
       {| start_time := "110"; end_time := "120"; aspect_ratio_text := "original" |}
     = ([st_error_start_exceeds_duration 1], Ok None)
  /\ configure_segment one_hundred 0
       {| start_time := "50"; end_time := "150"; aspect_ratio_text := "original" |}
     = (let plan := {| seg_start := fifty; seg_end := one_hundred;
                       seg_duration := fifty; seg_aspect_ratio := None;
                       seg_ratio_text := "original" |} in
        ([st_warning_end_adjusted 1; st_success_segment 1 plan], Ok (Some plan)))
  /\ configure_segment one_hundred 0
       {| start_time := "60"; end_time := "30"; aspect_ratio_text := "original" |}
     = ([st_error_start_not_before_end 1], Ok None).
Proof.
  split; [|repeat split].
  intros D i r s e Hs He.
  assert (Hg : PyStr.truthy (start_time r) && PyStr.truthy (end_time r) = true).
  { now rewrite (parse_time_input_truthy _ _ Hs), (parse_time_input_truthy _ _ He). }
  unfold configure_segment, validate_segment. rewrite Hg, Hs, He. cbn.
  repeat split.
  - intros ->. reflexivity.
  - intros -> ->. reflexivity.
  - intros ->. destruct (fge s e); auto.
  - intros HsD HeD ratio Hr.
    pose proof (flt_not_fge _ _ HsD) as H1.
    pose proof (flt_not_fge _ _ (flt_trans _ _ _ HsD HeD)) as H2.
    rewrite H1, H2, HeD, Hr. reflexivity.
Qed.

(** the clamping rule at start 50, end 150, duration 100 *)
Lemma configure_segment_rules_witness :
  configure_segment one_hundred 0
    {| start_time := "50"; end_time := "150"; aspect_ratio_text := "9:16" |}
  = (let plan := {| seg_start := fifty; seg_end := one_hundred;
                    seg_duration := fsub one_hundred fifty;
                    seg_aspect_ratio :=
                      Some (S754_finite false 5066549580791808 (-49),
                            S754_finite false 4503599627370496 (-48));
                    seg_ratio_text := "9:16" |} in
     ([st_warning_end_adjusted 1; st_success_segment 1 plan], Ok (Some plan))).
Proof.
  refine (proj2 (proj2 (proj2 (proj1 configure_segment_rules one_hundred 0%nat
    {| start_time := "50"; end_time := "150"; aspect_ratio_text := "9:16" |}
    fifty (S754_finite false 5277655813324800 (-45)) _ _))) _ _ _ _);
    reflexivity.
Defined.

(** ** Output names and paths *)

Lemma append_cons c (s t : string) : String c s +:+ t = String c (s +:+ t).
Proof. reflexivity. Qed.

Lemma string_length_app (s t : string) :
  String.length (s +:+ t) = (String.length s + String.length t)%nat.
Proof.
  induction s as [|c s IH]; simpl; [reflexivity | now rewrite IH].
Qed.

Lemma substring_whole (t : string) : substring 0 (String.length t) t = t.
Proof. induction t as [|d t IHt]; simpl; [reflexivity | now rewrite IHt]. Qed.

Lemma substring_app_suffix (s t : string) :
  substring (String.length s) (String.length t) (s +:+ t) = t.
Proof.
  induction s as [|c s IH]; simpl; [apply substring_whole | exact IH].
Qed.

Lemma endswith_app (s suffix : string) : PyStr.endswith (s +:+ suffix) suffix = true.
Proof.
  unfold PyStr.endswith. rewrite string_length_app.
  replace (String.length s + String.length suffix - String.length suffix)%nat
    with (String.length s) by lia.
  rewrite substring_app_suffix, String.eqb_refl.
  apply andb_true_intro. split; [apply Nat.leb_le; lia | reflexivity].
Qed.

Lemma string_app_assoc (s t u : string) : (s +:+ t) +:+ u = s +:+ (t +:+ u).
Proof.
  induction s as [|c s IH]; [reflexivity|].
  rewrite !append_cons. f_equal. exact IH.
Qed.

Lemma output_name_mp4 index : PyStr.endswith (output_name index) ".mp4" = true.
Proof.
  unfold output_name. rewrite <- string_app_assoc. apply endswith_app.
Qed.

(** the two-digit names, checked for every index from 1 to 99 *)
Lemma output_name_two_digits index :
  (1 <= index <= 99)%nat ->
  output_name index
  = "video_part_"
      +:+ String (digit_char (index / 10)) (String (digit_char (index mod 10)) "")
      +:+ ".mp4".
Proof.
  intros H.
  assert (Hall : forallb (fun i => String.eqb (output_name i)
            ("video_part_"
               +:+ String (digit_char (i / 10)) (String (digit_char (i mod 10)) "")
               +:+ ".mp4")) (seq 1 99) = true) by (vm_compute; reflexivity).
  rewrite forallb_forall in Hall. apply String.eqb_eq, Hall, in_seq. lia.
Qed.

Lemma last_cons_cons {A} (x y : A) (l : list A) (d : A) :
  List.last (x :: y :: l) d = List.last (y :: l) d.
Proof. reflexivity. Qed.

Lemma last_split_after_sep c a b :
  PyStr.contains c b = false ->
  List.last (PyStr.split c (a +:+ String c b)) EmptyString = b.
Proof.
  intros Hb. induction a as [|d a IH].
  - simpl. rewrite Ascii.eqb_refl, (split_no_sep _ _ Hb). reflexivity.
  - rewrite append_cons. cbn [PyStr.split].
    assert (Hc : PyStr.contains c (a +:+ String c b) = true).
    { rewrite contains_app. cbn. rewrite Ascii.eqb_refl. apply orb_true_r. }
    apply split_contains in Hc.
    destruct (PyStr.split c (a +:+ String c b)) as [|p [|q ps]];
      cbn in Hc; try lia.
    destruct (Ascii.eqb c d); rewrite last_cons_cons; exact IH.
Qed.

Lemma endswith_cons d a suffix_char :
  PyStr.endswith (String d a) (String suffix_char "") = true ->
  (a = EmptyString /\ d = suffix_char)
  \/ PyStr.endswith a (String suffix_char "") = true.
Proof.
  unfold PyStr.endswith. cbn [String.length].
  destruct a as [|e a].
  - cbn. destruct (Ascii.eqb_spec d suffix_char); [auto | discriminate].
  - right. cbn [String.length Nat.leb andb] in *.
    replace (S (S (String.length a)) - 1)%nat with (S (String.length a)) in H by lia.
    replace (S (String.length a) - 1)%nat with (String.length a) by lia.
    exact H.
Qed.

Lemma last_split_dir c a b :
  a = EmptyString \/ PyStr.endswith a (String c "") = true ->
  PyStr.contains c b = false ->
  List.last (PyStr.split c (a +:+ b)) EmptyString = b.
Proof.
  intros Ha Hb. induction a as [|d a IH].
  - change (EmptyString +:+ b) with b. rewrite (split_no_sep _ _ Hb). reflexivity.
  - destruct Ha as [Ha | Ha]; [discriminate|].
    apply endswith_cons in Ha as [[-> ->] | Ha].
    + exact (last_split_after_sep c EmptyString b Hb).
    + specialize (IH (or_intror Ha)).
      rewrite append_cons. cbn [PyStr.split].
      destruct (PyStr.split c (a +:+ b)) as [|p [|q ps]] eqn:Hs.
      * now apply split_nonempty in Hs.
      * (* one part: [a +:+ b] has no separator, but [a] ends with one *)
        exfalso. pose proof (join_split c (a +:+ b)) as HJ.
        pose proof (split_parts c (a +:+ b)) as HF.
        rewrite Hs in HJ, HF. cbn in HJ. subst p.
        apply Forall_cons_1 in HF as [HF _]. rewrite contains_app in HF.
        apply orb_false_elim in HF as [HF _].
        clear - Ha HF. induction a as [|e a IHa]; [discriminate|].
        cbn in HF. destruct (Ascii.eqb_spec c e) as [->|Hce]; [discriminate|].
        apply endswith_cons in Ha as [[-> ->] | Ha]; [congruence | auto].
      * destruct (Ascii.eqb c d); rewrite last_cons_cons; exact IH.
Qed.

(** the base name of an output path is the output name *)
Lemma basename_join dir name :
  PyStr.contains "/" name = false ->
  PyPath.basename (PyPath.join dir name) = name.
Proof.
  intros Hn. unfold PyPath.basename, PyPath.join.
  assert (Hgen : PyPath.basename
            (if negb (PyStr.truthy dir) || PyStr.endswith dir "/"
             then dir +:+ name else dir +:+ "/" +:+ name) = name).
  { unfold PyPath.basename.
    destruct (negb (PyStr.truthy dir) || PyStr.endswith dir "/") eqn:E.
    - apply last_split_dir; [|exact Hn].
      apply orb_true_iff in E as [E | E]; [left | now right].
      destruct dir; [reflexivity | discriminate].
    - now apply last_split_after_sep. }
  destruct name as [|c name]; [exact Hgen|].
  destruct c as [[] [] [] [] [] [] [] []]; try exact Hgen.
  cbn in Hn. discriminate.
Qed.

Lemma format_02d_no_slash index : PyStr.contains "/" (format_02d index) = false.
Proof.
  unfold format_02d.
  assert (H : forall d, PyStr.contains "/" (NilZero.string_of_uint d) = false).
  { assert (H' : forall d, PyStr.contains "/" (NilEmpty.string_of_uint d) = false)
      by (induction d; cbn; auto).
    intros [| | | | | | | | | |]; cbn; auto. }
  destruct (_ <? _)%nat; [cbn|]; apply H.
Qed.

Lemma output_name_no_slash index : PyStr.contains "/" (output_name index) = false.
Proof.
  unfold output_name. rewrite !contains_app, format_02d_no_slash. reflexivity.
Qed.

(** ** Processing the segments *)

Lemma files_after_mono r name fs : fs ⊆ files_after r name fs.
Proof. unfold files_after. destruct (creates_output r); set_solver. Qed.

Lemma process_segment_files t a input seg index :
  files a ⊆ snd (process_segment t a input seg index).
Proof.
  unfold process_segment.
  destruct (segment_crop t input seg) as [[crop|]|e]; cbn; [|set_solver..].
  destruct (completion _) as [[rc err]|e]; cbn.
  - destruct (_ && _); cbn; apply files_after_mono.
  - apply files_after_mono.
Qed.

Lemma process_segment_success t a input seg index d fs :
  process_segment t a input seg index = ((true, d), fs) ->
  d = OutputPath (PyPath.join (output_dir a) (output_name index))
  /\ output_name index ∈ fs.
Proof.
  unfold process_segment.
  destruct (segment_crop t input seg) as [[crop|]|e]; try discriminate.
  destruct (completion _) as [[rc err]|e]; try discriminate.
  destruct (rc =? 0); cbn [andb]; [|discriminate].
  destruct (bool_decide _) eqn:E; [|discriminate].
  intros [= <- <-]. apply bool_decide_eq_true in E. auto.
Qed.

Lemma process_segments_report t vp segs : forall a i,
  let '(p, a') := process_segments t a vp i segs in
  output_dir a' = output_dir a
  /\ files a ⊆ files a'
  /\ omap notice_number (shown p) = seq (S i) (length segs)
  /\ (length (successful_segments p) + length (failed_segments p))%nat
     = length segs
  /\ Forall (fun path => exists k,
       path = PyPath.join (output_dir a) (output_name k)
       /\ output_name k ∈ files a') (successful_segments p).
Proof.
  induction segs as [|seg segs IH]; intros a i.
  - cbn. repeat split; [set_solver | constructor].
  - cbn [process_segments].
    pose proof (process_segment_files t a vp seg (S i)) as Hmono.
    pose proof (process_segment_success t a vp seg (S i)) as Hsucc.
    destruct (process_segment t a vp seg (S i)) as [[success result] fs'].
    specialize (IH {| output_dir := output_dir a; files := fs' |} (S i)).
    destruct (process_segments t _ vp (S i) segs) as [p a''].
    destruct IH as (Hd & Hf & Hn & Hl & Hp). cbn in Hd, Hf, Hmono.
    assert (Hsub : files a ⊆ files a'') by (clear - Hf Hmono; set_solver).
    destruct success.
    + destruct (Hsucc result fs' eq_refl) as [-> Hin].
      cbn [successful_segments failed_segments shown].
      repeat split; try assumption.
      * cbn. now rewrite Hn.
      * cbn. lia.
      * constructor; [|exact Hp].
        exists (S i). split; [reflexivity|]. clear - Hf Hin. set_solver.
    + cbn [successful_segments failed_segments shown].
      repeat split; try assumption.
      * cbn. now rewrite Hn.
      * cbn. lia.
Qed.

(** ** C9: the outcome of one segment *)

(** C9: the output is named from the index written with two digits (for
    the indices 1 to 99; [main] gives 1 to at most 10). Once the crop is
    settled and ffmpeg is run: a non-zero exit code or a missing output
    file gives a failure with ffmpeg's stderr, exit code 0 with the file
    present gives success with the output path, and an exception of the
    run (a timeout) gives a failure. The loop over the segments shows one
    notice per segment, in order, whatever fails. *)
Theorem process_segment_outcomes :
  (forall index, (1 <= index <= 99)%nat ->
     output_name index
     = "video_part_"
         +:+ String (digit_char (index / 10)) (String (digit_char (index mod 10)) "")
         +:+ ".mp4")
  /\ (forall t a input seg index crop,
        segment_crop t input seg = Ok (Some crop) ->
        let output_path := PyPath.join (output_dir a) (output_name index) in
        let r := ffmpeg t (ffmpeg_command input seg crop output_path) (files a) in
        let files' := files_after r (output_name index) (files a) in
        (forall returncode stderr,
           completion r = Ok (returncode, stderr) ->
           returncode <> 0 \/ output_name index ∉ files' ->
           process_segment t a input seg index
           = ((false, FFmpegError stderr), files'))
        /\ (forall stderr,
           completion r = Ok (0, stderr) ->
           output_name index ∈ files' ->
           process_segment t a input seg index
           = ((true, OutputPath output_path), files'))
        /\ (forall e,
           completion r = Raise e ->
           process_segment t a input seg index
           = ((false, ExceptionText e), files')))
  /\ (forall t a video_path segments,
        let '(p, _) := process_segments t a video_path 0 segments in
        omap notice_number (shown p) = seq 1 (length segments)
        /\ (length (successful_segments p) + length (failed_segments p))%nat
           = length segments).
Proof.
  split; [exact output_name_two_digits|]. split.
  - intros t a input seg index crop Hcrop output_path r files'.
    unfold process_segment. rewrite Hcrop. fold output_path. fold r. fold files'.
    repeat split.
    + intros rc err -> Hfail.
      destruct (Z.eqb_spec rc 0) as [->|Hrc]; cbn [andb]; [|reflexivity].
      destruct Hfail as [Hfail | Hfail]; [congruence|].
      now rewrite bool_decide_eq_false_2.
    + intros err -> Hin. cbn [Z.eqb andb]. now rewrite bool_decide_eq_true_2.
    + intros e ->. reflexivity.
  - intros t a vp segs.
    pose proof (process_segments_report t vp segs a 0%nat) as H.
    destruct (process_segments t a vp 0 segs) as [p a'].
    destruct H as (_ & _ & Hn & Hl & _). auto.
Qed.

(** a timeout on the first of two segments: it fails, the second succeeds *)
Lemma process_segment_outcomes_witness :
  process_segment slow_first_tools sample_app "video.mp4" sample_segment 1
    = ((false, ExceptionText TimeoutExpired), ∅)
  /\ fst (process_segments slow_first_tools sample_app "video.mp4" 0
            [sample_segment; sample_segment])
     = {| successful_segments := ["/tmp/tmpab12cd/output_videos/video_part_02.mp4"];
          failed_segments := [(1%nat, ExceptionText TimeoutExpired)];
          shown := [st_error_failed 1 (ExceptionText TimeoutExpired);
                    st_success_completed 2] |}.
Proof.
  split.
  - refine (proj2 (proj2 (proj1 (proj2 process_segment_outcomes)
      slow_first_tools sample_app "video.mp4" sample_segment 1%nat None _))
      TimeoutExpired _); reflexivity.
  - vm_compute. reflexivity.
Defined.

(** ** C3: the members of the archive *)

(** C3, the code does not keep to the successes: on a first run of two
    segments in which ffmpeg is stopped by the timeout on the first, after
    it began to write its file, the run reports one failure and one
    success, and the archive it offers holds the file of the failed
    segment beside the file of the success. *)
Theorem create_zip_file_ships_failed_segment :
  process_all interrupted_first_tools sample_app "video.mp4"
    [sample_segment; sample_segment]
  = ({| successful_segments := ["/tmp/tmpab12cd/output_videos/video_part_02.mp4"];
        failed_segments := [(1%nat, ExceptionText TimeoutExpired)];
        shown := [st_error_failed 1 (ExceptionText TimeoutExpired);
                  st_success_completed 2] |},
     Some {[ "video_part_01.mp4"; "video_part_02.mp4" ]},
     {| output_dir := "/tmp/tmpab12cd/output_videos";
        files := {[ "video_part_01.mp4"; "video_part_02.mp4" ]} |}).
Proof. vm_compute. reflexivity. Qed.

(** the same in a later run of a session: a first run produces two
    segments and a second run one; the archive of the second run holds the
    two files of the output directory, not only the one success. *)
Lemma create_zip_file_keeps_earlier_files :
  let a1 := snd (process_all reliable_tools sample_app "video.mp4"
                   [sample_segment; sample_segment]) in
  process_all reliable_tools a1 "video.mp4" [sample_segment]
  = ({| successful_segments := ["/tmp/tmpab12cd/output_videos/video_part_01.mp4"];
        failed_segments := [];
        shown := [st_success_completed 1] |},
     Some {[ "video_part_01.mp4"; "video_part_02.mp4" ]},
     a1).
Proof. vm_compute. reflexivity. Qed.

(** where the members come from: [create_zip_file] is given no list of
    successes and packs the files of the output directory whose names end
    in ".mp4", as they are at the end of the run; the base name of every
    success of the run is among them, and so is every such file that was in
    the directory before the run. *)
Lemma create_zip_file_members t a video_path segments p z a' :
  process_all t a video_path segments = (p, Some z, a') ->
  z = filter (fun filename => PyStr.endswith filename ".mp4" = true) (files a')
  /\ (forall path, path ∈ successful_segments p -> PyPath.basename path ∈ z)
  /\ (forall filename, filename ∈ files a ->
        PyStr.endswith filename ".mp4" = true -> filename ∈ z).
Proof.
  unfold process_all.
  pose proof (process_segments_report t video_path segments a 0%nat) as H.
  destruct (process_segments t a video_path 0 segments) as [p0 a0].
  destruct H as (_ & Hsub & _ & _ & Hp).
  destruct (successful_segments p0) eqn:E; [discriminate|].
  intros [= <- <- <-]. rewrite <- E in *. unfold create_zip_file.
  split; [reflexivity|]. split.
  - intros path Hin. rewrite Forall_forall in Hp.
    destruct (Hp path Hin) as (k & -> & Hk).
    rewrite (basename_join _ _ (output_name_no_slash k)).
    apply elem_of_filter. split; [apply output_name_mp4 | exact Hk].
  - intros f Hf Hmp4. apply elem_of_filter. split; [exact Hmp4 | set_solver].
Qed.

(** ** Powers of two and digits *)

Lemma bpow_pos e : (0 < bpow e)%R.
Proof. apply powerRZ_lt. lra. Qed.

Lemma bpow_plus a b : bpow (a + b) = (bpow a * bpow b)%R.
Proof. apply powerRZ_add. lra. Qed.

Lemma bpow_0 : bpow 0 = 1%R.
Proof. reflexivity. Qed.

Lemma bpow_1 : bpow 1 = 2%R.
Proof. exact (powerRZ_1 2). Qed.

Lemma bpow_opp e : bpow (- e) = (/ bpow e)%R.
Proof. apply powerRZ_neg'. Qed.

Lemma bpow_minus a b : bpow (a - b) = (bpow a / bpow b)%R.
Proof.
  unfold Z.sub, Rdiv. now rewrite bpow_plus, bpow_opp.
Qed.

Lemma bpow_IZR e : 0 <= e -> bpow e = IZR (2 ^ e).
Proof.
  intros He. unfold bpow. destruct e as [|p|p]; [reflexivity| |lia].
  change (2 ^ Z.pos p) with (Z.pow_pos 2 p). now rewrite Zpower_pos_powerRZ.
Qed.

Lemma bpow_le a b : a <= b -> (bpow a <= bpow b)%R.
Proof.
  intros H. replace b with (a + (b - a)) by ring. rewrite bpow_plus.
  rewrite (bpow_IZR (b - a)) by lia.
  assert (1 <= 2 ^ (b - a)) by (pose proof (Z.pow_pos_nonneg 2 (b - a)); lia).
  apply IZR_le in H0. pose proof (bpow_pos a). nra.
Qed.

Lemma bpow_lt a b : a < b -> (bpow a < bpow b)%R.
Proof.
  intros H. replace b with (a + (b - a)) by ring. rewrite bpow_plus.
  rewrite (bpow_IZR (b - a)) by lia.
  assert (2 <= 2 ^ (b - a)).
  { change 2 with (2 ^ 1) at 1. apply Z.pow_le_mono_r; lia. }
  apply IZR_le in H0. pose proof (bpow_pos a). nra.
Qed.

(** moving a positive divisor across an inequality *)
Lemma Rdiv_le_l a b c : (0 < b)%R -> (a / b <= c)%R <-> (a <= c * b)%R.
Proof.
  intros Hb. split; intros H.
  - replace a with (a / b * b)%R by (field; lra). nra.
  - apply Rmult_le_reg_r with b; [exact Hb|].
    now replace (a / b * b)%R with a by (field; lra).
Qed.

Lemma Rdiv_lt_l a b c : (0 < b)%R -> (a / b < c)%R <-> (a < c * b)%R.
Proof.
  intros Hb. split; intros H.
  - replace a with (a / b * b)%R by (field; lra). nra.
  - apply Rmult_lt_reg_r with b; [exact Hb|].
    now replace (a / b * b)%R with a by (field; lra).
Qed.

Lemma Rdiv_le_r a b c : (0 < b)%R -> (c <= a / b)%R <-> (c * b <= a)%R.
Proof.
  intros Hb. split; intros H.
  - replace a with (a / b * b)%R by (field; lra). nra.
  - apply Rmult_le_reg_r with b; [exact Hb|].
    now replace (a / b * b)%R with a by (field; lra).
Qed.

Lemma Rdiv_lt_r a b c : (0 < b)%R -> (c < a / b)%R <-> (c * b < a)%R.
Proof.
  intros Hb. split; intros H.
  - replace a with (a / b * b)%R by (field; lra). nra.
  - apply Rmult_lt_reg_r with b; [exact Hb|].
    now replace (a / b * b)%R with a by (field; lra).
Qed.

Lemma Rdiv_nonneg a b : (0 <= a)%R -> (0 < b)%R -> (0 <= a / b)%R.
Proof. intros Ha Hb. apply Rdiv_le_r; [exact Hb | lra]. Qed.

Lemma digits2_size p : digits2_pos p = Pos.size p.
Proof. induction p; cbn; congruence. Qed.

Lemma digits_bounds p :
  2 ^ (Zpos (digits2_pos p) - 1) <= Zpos p < 2 ^ Zpos (digits2_pos p).
Proof.
  rewrite digits2_size. split.
  - pose proof (Pos.size_le p) as H.
    assert (H' : (2 ^ Z.pos (Pos.size p) <= Z.pos p~0)).
    { rewrite <- Pos2Z.inj_pow. apply Pos2Z.pos_le_pos. exact H. }
    replace (Z.pos (Pos.size p)) with (Z.pos (Pos.size p) - 1 + 1) in H' by ring.
    rewrite Z.pow_add_r in H' by lia. lia.
  - pose proof (Pos.size_gt p) as H. rewrite <- Pos2Z.inj_pow.
    apply Pos2Z.pos_lt_pos. exact H.
Qed.

Lemma Zdigits2_upper m : 0 <= m -> m + 1 <= 2 ^ Zdigits2 m.
Proof.
  destruct m as [|p|p]; cbn [Zdigits2]; [cbn; lia| |lia].
  pose proof (digits_bounds p). lia.
Qed.

Lemma Zdigits2_lower m : 0 < m -> 2 ^ (Zdigits2 m - 1) <= m.
Proof.
  destruct m as [|p|p]; cbn [Zdigits2]; [lia| |lia].
  pose proof (digits_bounds p). lia.
Qed.

Lemma Zdigits2_nonneg m : 0 <= Zdigits2 m.
Proof. destruct m; cbn; lia. Qed.

Lemma Zdigits2_le_from m k : 0 <= m -> 0 <= k -> m < 2 ^ k -> Zdigits2 m <= k.
Proof.
  intros Hm Hk H. destruct (Z.eq_dec m 0) as [->|Hne]; [cbn; lia|].
  pose proof (Zdigits2_lower m ltac:(lia)) as Hl.
  destruct (Z_le_gt_dec (Zdigits2 m) k) as [|Hgt]; [assumption|exfalso].
  assert (2 ^ k <= 2 ^ (Zdigits2 m - 1)) by (apply Z.pow_le_mono_r; lia). lia.
Qed.

Lemma Zdigits2_ge_from m k : 0 <= k -> 2 ^ k <= m -> k + 1 <= Zdigits2 m.
Proof.
  intros Hk H.
  assert (Hm : 0 <= m) by (pose proof (Z.pow_pos_nonneg 2 k); lia).
  pose proof (Zdigits2_upper m Hm) as Hu. pose proof (Zdigits2_nonneg m).
  destruct (Z_le_gt_dec (k + 1) (Zdigits2 m)) as [|Hgt]; [assumption|exfalso].
  assert (2 ^ Zdigits2 m <= 2 ^ k) by (apply Z.pow_le_mono_r; lia). lia.
Qed.

(** ** Shifting a mantissa right *)

Lemma loc_of_record m l :
  shr_m (shr_record_of_loc m l) = m
  /\ loc_of_shr_record (shr_record_of_loc m l) = l.
Proof. destruct l as [|[]]; split; reflexivity. Qed.

Lemma inbetween_bounds m l u : inbetween m l u -> (IZR m <= u < IZR m + 1)%R.
Proof. destruct l as [|[]]; cbn; lra. Qed.

Lemma inbetween_exact m l u : inbetween m l u -> u = IZR m -> l = loc_Exact.
Proof. destruct l as [|[]]; cbn; intros; try reflexivity; lra. Qed.

Lemma IZR_xO p : IZR (Zpos p~0) = (2 * IZR (Zpos p))%R.
Proof. now rewrite Pos2Z.inj_xO, mult_IZR. Qed.

Lemma IZR_xI p : IZR (Zpos p~1) = (2 * IZR (Zpos p) + 1)%R.
Proof. now rewrite Pos2Z.inj_xI, plus_IZR, mult_IZR. Qed.

Lemma shr_1_inbetween mrs u :
  0 <= shr_m mrs ->
  inbetween (shr_m mrs) (loc_of_shr_record mrs) u ->
  0 <= shr_m (shr_1 mrs)
  /\ inbetween (shr_m (shr_1 mrs)) (loc_of_shr_record (shr_1 mrs)) (u / 2).
Proof.
  destruct mrs as [m r s].
  destruct m as [|[p|p|]|p]; destruct r, s;
    cbn [shr_m shr_1 loc_of_shr_record inbetween orb]; intros Hm H;
    try lia; (split; [lia|]);
    try rewrite IZR_xI in H; try rewrite IZR_xO in H; lra.
Qed.

Lemma bpow_xO p : bpow (Zpos p~0) = (bpow (Zpos p) * bpow (Zpos p))%R.
Proof. rewrite <- bpow_plus. f_equal. lia. Qed.

Lemma bpow_xI p : bpow (Zpos p~1) = (2 * (bpow (Zpos p) * bpow (Zpos p)))%R.
Proof.
  rewrite <- bpow_plus, <- bpow_1, <- bpow_plus. f_equal. lia.
Qed.

Lemma iter_shr_1_inbetween p : forall mrs u,
  0 <= shr_m mrs ->
  inbetween (shr_m mrs) (loc_of_shr_record mrs) u ->
  0 <= shr_m (SpecFloat.iter_pos shr_1 p mrs)
  /\ inbetween (shr_m (SpecFloat.iter_pos shr_1 p mrs))
       (loc_of_shr_record (SpecFloat.iter_pos shr_1 p mrs)) (u / bpow (Zpos p)).
Proof.
  induction p as [p IH|p IH|]; intros mrs u Hm H; cbn [SpecFloat.iter_pos].
  - destruct (shr_1_inbetween mrs u Hm H) as [Hm1 H1].
    destruct (IH _ _ Hm1 H1) as [Hm2 H2].
    destruct (IH _ _ Hm2 H2) as [Hm3 H3].
    split; [exact Hm3|]. rewrite bpow_xI.
    replace (u / (2 * (bpow (Z.pos p) * bpow (Z.pos p))))%R
      with (u / 2 / bpow (Z.pos p) / bpow (Z.pos p))%R; [exact H3|].
    pose proof (bpow_pos (Z.pos p)). field. lra.
  - destruct (IH _ _ Hm H) as [Hm2 H2].
    destruct (IH _ _ Hm2 H2) as [Hm3 H3].
    split; [exact Hm3|]. rewrite bpow_xO.
    replace (u / (bpow (Z.pos p) * bpow (Z.pos p)))%R
      with (u / bpow (Z.pos p) / bpow (Z.pos p))%R; [exact H3|].
    pose proof (bpow_pos (Z.pos p)). field. lra.
  - rewrite bpow_1. apply shr_1_inbetween; assumption.
Qed.

(** the first step of rounding: the mantissa is brought to the exponent
    [fexp (Zdigits2 m + e)] *)
Lemma shr_fexp_inbetween m e l u :
  0 <= m -> e <= fexp prec emax (Zdigits2 m + e) ->
  inbetween m l u ->
  let e' := fexp prec emax (Zdigits2 m + e) in
  exists mrs, shr_fexp prec emax m e l = (mrs, e')
    /\ 0 <= shr_m mrs
    /\ inbetween (shr_m mrs) (loc_of_shr_record mrs) (u / bpow (e' - e)).
Proof.
  intros Hm He H e'. unfold shr_fexp, shr. fold e'.
  destruct (loc_of_record m l) as [Hrm Hrl].
  destruct (e' - e) as [|p|p] eqn:En.
  - eexists. split; [f_equal; lia|]. rewrite Hrm, Hrl, bpow_0.
    split; [exact Hm|]. now replace (u / 1)%R with u by field.
  - eexists. split; [f_equal; lia|].
    apply iter_shr_1_inbetween; now rewrite ?Hrm, ?Hrl.
  - exfalso. subst e'. lia.
Qed.

Lemma round_nearest_even_bounds m l u :
  inbetween m l u ->
  m <= round_nearest_even m l <= m + 1
  /\ (u = IZR m -> round_nearest_even m l = m).
Proof.
  destruct l as [|[]]; cbn [inbetween round_nearest_even]; intros H.
  - split; [lia | auto].
  - split; [destruct (Z.even m); lia | intros; lra].
  - split; [lia | auto].
  - split; [lia | intros; lra].
Qed.

(** ** Rounding to nearest even *)

Lemma fexp_eq e : fexp prec emax e = Z.max (e - 53) (-1074).
Proof. reflexivity. Qed.

Lemma emin_eq : emin = -1074.
Proof. reflexivity. Qed.

Lemma scaled_shift X a b : (X / bpow a / bpow (b - a))%R = (X / bpow b)%R.
Proof.
  rewrite bpow_minus. pose proof (bpow_pos a). pose proof (bpow_pos b).
  field. lra.
Qed.

Lemma IZR_lt_bpow M k : 0 <= k -> (IZR M < bpow k)%R -> M < 2 ^ k.
Proof. intros Hk H. rewrite (bpow_IZR k Hk) in H. now apply lt_IZR. Qed.

Lemma bpow_lt_IZR_succ M k : 0 <= k -> (bpow k < IZR M + 1)%R -> 2 ^ k <= M.
Proof.
  intros Hk H. rewrite (bpow_IZR k Hk) in H.
  change 1%R with (IZR 1) in H. rewrite <- plus_IZR in H.
  apply lt_IZR in H. lia.
Qed.

Lemma div_bpow_lt u a b c :
  (u < bpow a)%R -> a - b <= c -> (u / bpow b < bpow c)%R.
Proof.
  intros Hu Hc. pose proof (bpow_pos b) as Hb.
  apply Rlt_le_trans with (bpow (a - b)); [|now apply bpow_le].
  rewrite bpow_minus. unfold Rdiv.
  apply Rmult_lt_compat_r; [now apply Rinv_0_lt_compat | exact Hu].
Qed.

Lemma div_bpow_ge u a b :
  (bpow a <= u)%R -> (bpow (a - b) <= u / bpow b)%R.
Proof.
  intros Hu. pose proof (bpow_pos b) as Hb.
  rewrite bpow_minus. unfold Rdiv.
  apply Rmult_le_compat_r; [left; now apply Rinv_0_lt_compat | exact Hu].
Qed.

(** the second step of rounding: a mantissa below [2 ^ prec] stays, and
    [2 ^ prec] is halved *)
Lemma shr_fexp_small m e :
  0 <= m < 2 ^ prec -> emin <= e ->
  shr_fexp prec emax m e loc_Exact = (shr_record_of_loc m loc_Exact, e).
Proof.
  intros Hm He. unfold shr_fexp, shr.
  assert (Hd : Zdigits2 m <= prec) by (apply Zdigits2_le_from; unfold prec in *; lia).
  rewrite fexp_eq. rewrite emin_eq in He. unfold prec in Hd.
  destruct (Z.max (Zdigits2 m + e - 53) (-1074) - e) eqn:E; try reflexivity; lia.
Qed.

Lemma shr_fexp_carry e :
  emin <= e ->
  shr_fexp prec emax (2 ^ prec) e loc_Exact
  = (shr_record_of_loc (2 ^ (prec - 1)) loc_Exact, e + 1).
Proof.
  intros He. unfold shr_fexp, shr. rewrite emin_eq in He.
  change (Zdigits2 (2 ^ prec)) with 54. rewrite fexp_eq.
  replace (Z.max (54 + e - 53) (-1074) - e) with 1 by lia.
  reflexivity.
Qed.

Lemma canonical_normal m e :
  2 ^ (prec - 1) <= Zpos m < 2 ^ prec -> emin <= e ->
  canonical_mantissa prec emax m e = true.
Proof.
  intros Hm He. unfold canonical_mantissa. apply Z.eqb_eq.
  rewrite fexp_eq. rewrite emin_eq in He.
  assert (Zdigits2 (Zpos m) = 53).
  { apply Z.le_antisymm.
    - apply Zdigits2_le_from; unfold prec in *; lia.
    - apply (Zdigits2_ge_from (Zpos m) 52); [lia|]. exact (proj1 Hm). }
  cbn [Zdigits2] in H. lia.
Qed.

Lemma canonical_subnormal m :
  Zpos m < 2 ^ prec -> canonical_mantissa prec emax m emin = true.
Proof.
  intros Hm. unfold canonical_mantissa. apply Z.eqb_eq.
  rewrite fexp_eq, emin_eq.
  assert (Zdigits2 (Zpos m) <= 53) by (apply Zdigits2_le_from; unfold prec in *; lia).
  cbn [Zdigits2] in H. lia.
Qed.

Lemma mag_ge_normal m e : 2 ^ (prec - 1) <= Zpos m -> (bpow (prec - 1 + e) <= mag m e)%R.
Proof.
  intros H. unfold mag. rewrite bpow_plus, (bpow_IZR (prec - 1)) by (unfold prec; lia).
  apply IZR_le in H. pose proof (bpow_pos e). nra.
Qed.

Lemma binary_round_aux_rounds sx mx ex lx X :
  0 <= mx -> ex <= fexp prec emax (Zdigits2 mx + ex) ->
  inbetween mx lx (X / bpow ex) ->
  rounds_to sx X (binary_round_aux prec emax sx mx ex lx).
Proof.
  intros Hm He H.
  destruct (shr_fexp_inbetween mx ex lx _ Hm He H) as (mrs & E1 & HM & H').
  unfold binary_round_aux. rewrite E1. clear E1.
  set (e := fexp prec emax (Zdigits2 mx + ex)) in *.
  set (M := shr_m mrs) in *. set (l := loc_of_shr_record mrs) in *.
  rewrite scaled_shift in H'.
  pose proof (inbetween_bounds _ _ _ H') as Hb.
  pose proof (inbetween_bounds _ _ _ H) as Hbx.
  assert (Hemin : emin <= e) by (subst e; rewrite fexp_eq, emin_eq; lia).
  assert (Hup : M < 2 ^ prec).
  { apply IZR_lt_bpow; [unfold prec; lia|].
    apply Rle_lt_trans with (1 := proj1 Hb).
    rewrite <- (scaled_shift X ex e).
    apply div_bpow_lt with (a := Zdigits2 mx).
    - apply Rlt_le_trans with (1 := proj2 Hbx).
      rewrite (bpow_IZR _ (Zdigits2_nonneg mx)).
      change 1%R with (IZR 1). rewrite <- plus_IZR.
      apply IZR_le, Zdigits2_upper, Hm.
    - subst e. rewrite fexp_eq. unfold prec. lia. }
  assert (Hnormal : emin < e -> 2 ^ (prec - 1) <= M).
  { intros Hlt. apply bpow_lt_IZR_succ; [unfold prec; lia|].
    apply Rle_lt_trans with (2 := proj2 Hb).
    rewrite <- (scaled_shift X ex e).
    assert (Hpos : 0 < mx).
    { destruct (Z.eq_dec mx 0) as [->|]; [|lia]. exfalso.
      subst e. rewrite fexp_eq, emin_eq in *. cbn [Zdigits2] in *. lia. }
    assert (Ee : e - ex = Zdigits2 mx - prec).
    { subst e. rewrite fexp_eq, emin_eq in *. unfold prec. lia. }
    replace (prec - 1) with (Zdigits2 mx - 1 - (e - ex)) by lia.
    apply div_bpow_ge.
    apply Rle_trans with (2 := proj1 Hbx).
    assert (0 <= Zdigits2 mx - 1).
    { pose proof (Zdigits2_ge_from mx 0 ltac:(lia) ltac:(cbn; lia)). lia. }
    rewrite bpow_IZR by assumption. apply IZR_le, Zdigits2_lower, Hpos. }
  destruct (round_nearest_even_bounds _ _ _ H') as [Hm1 Hex].
  set (m1 := round_nearest_even M l) in *.
  exists e, M, m1.
  split; [exact Hemin|]. split; [exact Hb|]. split; [exact HM|].
  split; [exact Hnormal|]. split; [exact Hm1|]. split; [exact Hex|].
  destruct (Z.eq_dec m1 (2 ^ prec)) as [Ecarry | Hne].
  - (* the mantissa overflows to [2 ^ prec] *)
    right. rewrite Ecarry, (shr_fexp_carry e Hemin).
    split; [unfold prec; lia|].
    cbn [shr_m shr_record_of_loc].
    change (2 ^ (prec - 1)) with (Zpos 4503599627370496).
    destruct (Z.leb_spec (e + 1) (emax - prec)) as [Hle | Hgt].
    + left. exists 4503599627370496%positive, (e + 1).
      split; [reflexivity|]. split.
      * unfold SpecFloat.bounded. apply andb_true_intro. split; [|now apply Z.leb_le].
        apply canonical_normal; [unfold prec; lia | lia].
      * unfold mag. rewrite bpow_plus, bpow_1.
        change (2 ^ prec) with 9007199254740992. lra.
    + right. split; [reflexivity|].
      apply Rle_trans with (bpow (prec + e)).
      * apply bpow_le. lia.
      * rewrite bpow_plus, (bpow_IZR prec) by (unfold prec; lia). lra.
  - assert (Hm1' : 0 <= m1 < 2 ^ prec) by lia.
    rewrite (shr_fexp_small m1 e Hm1' Hemin).
    cbn [shr_m shr_record_of_loc].
    destruct m1 as [|p|p] eqn:Em1; [left; auto | right | lia].
    split; [lia|].
    destruct (Z.leb_spec e (emax - prec)) as [Hle | Hgt].
    + left. exists p, e. split; [reflexivity|]. split; [|reflexivity].
      unfold SpecFloat.bounded. apply andb_true_intro. split; [|now apply Z.leb_le].
      destruct (Z.eq_dec e emin) as [-> | Hne'].
      * apply canonical_subnormal. lia.
      * apply canonical_normal; [|lia].
        specialize (Hnormal ltac:(lia)). lia.
    + right. split; [reflexivity|].
      assert (Hn : 2 ^ (prec - 1) <= Z.pos p).
      { rewrite emin_eq in *. unfold emax, prec in Hgt.
        specialize (Hnormal ltac:(lia)). lia. }
      apply Rle_trans with (2 := mag_ge_normal p e Hn).
      apply bpow_le. unfold emax, prec in *. lia.
Qed.

(** ** What rounding preserves *)

Lemma in_format_scaled mf ef e :
  e <= ef -> (IZR mf * bpow ef)%R = (IZR (mf * 2 ^ (ef - e)) * bpow e)%R.
Proof.
  intros H. rewrite mult_IZR, <- (bpow_IZR (ef - e)) by lia.
  rewrite Rmult_assoc, <- bpow_plus. do 2 f_equal. lia.
Qed.

Lemma in_format_small mf ef e :
  mf < 2 ^ prec -> ef < e -> (IZR mf * bpow ef < bpow (prec - 1 + e))%R.
Proof.
  intros Hm He.
  apply Rlt_le_trans with (bpow (prec + ef)); [|apply bpow_le; lia].
  rewrite bpow_plus, (bpow_IZR prec) by (unfold prec; lia).
  apply IZR_lt in Hm. pose proof (bpow_pos ef). nra.
Qed.

Lemma scaled_le u e v : (u / bpow e <= v)%R <-> (u <= v * bpow e)%R.
Proof. apply Rdiv_le_l, bpow_pos. Qed.

Lemma scaled_lt u e v : (u / bpow e < v)%R <-> (u < v * bpow e)%R.
Proof. apply Rdiv_lt_l, bpow_pos. Qed.

Lemma scaled_ge u e v : (v <= u / bpow e)%R <-> (v * bpow e <= u)%R.
Proof. apply Rdiv_le_r, bpow_pos. Qed.

(** rounding does not step over a number of the format: from below *)
Lemma rounds_le sx X r f :
  rounds_to sx X r -> in_format f -> (0 <= X <= f)%R -> (f < bpow emax)%R ->
  r = S754_zero sx
  \/ exists m e, r = S754_finite sx m e
       /\ SpecFloat.bounded prec emax m e = true /\ (mag m e <= f)%R.
Proof.
  intros (e & M & m1 & Hemin & Hb & HM & Hnormal & Hm1 & Hex & Hr)
         (mf & ef & -> & Hmf & Hef) HX Hf.
  pose proof (bpow_pos e) as Hbe.
  assert (Hle : (IZR m1 * bpow e <= IZR mf * bpow ef)%R).
  { destruct (Z.eq_dec m1 M) as [-> | Hne].
    - apply Rle_trans with X; [|lra]. apply scaled_ge. lra.
    - assert (Em1 : m1 = M + 1) by lia.
      assert (Hlt : (IZR M < X / bpow e)%R).
      { destruct (Req_dec (X / bpow e) (IZR M)) as [E | E]; [|lra].
        specialize (Hex E). lia. }
      destruct (Z_le_gt_dec e ef) as [Hee | Hee].
      + rewrite (in_format_scaled mf ef e Hee) in *.
        assert (M < mf * 2 ^ (ef - e)).
        { apply lt_IZR. apply Rlt_le_trans with (1 := Hlt). apply scaled_le. lra. }
        assert (Hi : m1 <= mf * 2 ^ (ef - e)) by lia.
        apply IZR_le in Hi. nra.
      + exfalso. specialize (Hnormal ltac:(lia)).
        pose proof (in_format_small mf ef e (proj2 Hmf) ltac:(lia)) as Hs.
        assert ((bpow (prec - 1 + e) <= X)%R).
        { apply Rle_trans with (IZR M * bpow e)%R; [|apply scaled_ge; lra].
          rewrite bpow_plus, (bpow_IZR (prec - 1)) by (unfold prec; lia).
          apply IZR_le in Hnormal. nra. }
        lra. }
  destruct Hr as [[_ ->] | [Hpos [(m2 & e2 & -> & Hbd & Hmag) | [_ Hinf]]]].
  - now left.
  - right. exists m2, e2. rewrite Hmag. auto.
  - exfalso. lra.
Qed.

(** rounding does not step over a number of the format: from above *)
Lemma rounds_ge sx X r f :
  rounds_to sx X r -> in_format f -> (0 < f <= X)%R ->
  r = S754_infinity sx
  \/ exists m e, r = S754_finite sx m e
       /\ SpecFloat.bounded prec emax m e = true /\ (f <= mag m e)%R.
Proof.
  intros (e & M & m1 & Hemin & Hb & HM & Hnormal & Hm1 & Hex & Hr)
         (mf & ef & -> & Hmf & Hef) HX.
  pose proof (bpow_pos e) as Hbe.
  assert (Hle : (IZR mf * bpow ef <= IZR M * bpow e)%R).
  { destruct (Z_le_gt_dec e ef) as [Hee | Hee].
    - rewrite (in_format_scaled mf ef e Hee) in *.
      assert (mf * 2 ^ (ef - e) < M + 1).
      { apply lt_IZR. rewrite plus_IZR.
        apply Rle_lt_trans with (2 := proj2 Hb). apply scaled_ge. lra. }
      assert (Hi : mf * 2 ^ (ef - e) <= M) by lia.
      apply IZR_le in Hi. nra.
    - specialize (Hnormal ltac:(lia)).
      pose proof (in_format_small mf ef e (proj2 Hmf) ltac:(lia)) as Hs.
      apply Rle_trans with (bpow (prec - 1 + e)); [lra|].
      rewrite bpow_plus, (bpow_IZR (prec - 1)) by (unfold prec; lia).
      apply IZR_le in Hnormal. nra. }
  assert (Hm1' : (IZR M <= IZR m1)%R) by (apply IZR_le; lia).
  assert (Hpos1 : (0 < IZR m1 * bpow e)%R) by nra.
  destruct Hr as [[-> _] | [Hpos [(m2 & e2 & -> & Hbd & Hmag) | [-> _]]]].
  - exfalso. lra.
  - right. exists m2, e2. rewrite Hmag. repeat split; auto. nra.
  - now left.
Qed.

(** ** Canonical floats *)

Lemma canonical_bounds m e :
  canonical_mantissa prec emax m e = true ->
  emin <= e /\ Zpos m < 2 ^ prec /\ (emin < e -> 2 ^ (prec - 1) <= Zpos m).
Proof.
  unfold canonical_mantissa. intros H. apply Z.eqb_eq in H.
  rewrite fexp_eq in H. rewrite emin_eq.
  pose proof (digits_bounds m) as [Hl Hu].
  assert (Hd : 0 < Zpos (digits2_pos m)) by lia.
  split; [lia|]. split.
  - apply Z.lt_le_trans with (1 := Hu). apply Z.pow_le_mono_r; unfold prec; lia.
  - intros He. apply Z.le_trans with (2 := Hl).
    apply Z.pow_le_mono_r; unfold prec; lia.
Qed.

Lemma bounded_canonical m e :
  SpecFloat.bounded prec emax m e = true -> canonical_mantissa prec emax m e = true.
Proof. unfold SpecFloat.bounded. intros H. now apply andb_prop in H. Qed.

Lemma in_format_mag m e : SpecFloat.bounded prec emax m e = true -> in_format (mag m e).
Proof.
  intros H. apply bounded_canonical, canonical_bounds in H as (He & Hm & _).
  exists (Zpos m), e. split; [reflexivity|]. split; [lia | exact He].
Qed.

Lemma in_format_int n : 0 <= n < 2 ^ prec -> in_format (IZR n).
Proof.
  intros H. exists n, 0. rewrite bpow_0, emin_eq.
  split; [lra|]. split; [exact H | lia].
Qed.

Lemma mag_pos m e : (0 < mag m e)%R.
Proof.
  unfold mag. pose proof (bpow_pos e).
  assert (0 < IZR (Zpos m))%R by (apply IZR_lt; lia). nra.
Qed.

Lemma mag_lt_emax m e : SpecFloat.bounded prec emax m e = true -> (mag m e < bpow emax)%R.
Proof.
  intros H. unfold SpecFloat.bounded in H. apply andb_prop in H as [Hc He].
  apply Z.leb_le in He. apply canonical_bounds in Hc as (_ & Hm & _).
  apply Rlt_le_trans with (bpow (prec + e)); [|apply bpow_le; lia].
  unfold mag. rewrite bpow_plus, (bpow_IZR prec) by (unfold prec; lia).
  apply IZR_lt in Hm. pose proof (bpow_pos e). nra.
Qed.

(** the order of canonical floats is the order of their magnitudes *)
Lemma lex_lt_mag m1 e1 m2 e2 :
  canonical_mantissa prec emax m1 e1 = true ->
  canonical_mantissa prec emax m2 e2 = true ->
  lex_lt e1 m1 e2 m2 -> (mag m1 e1 < mag m2 e2)%R.
Proof.
  intros H1 H2 [Hlt | [-> Hlt]].
  - apply canonical_bounds in H1 as (He1 & Hm1 & _).
    apply canonical_bounds in H2 as (He2 & _ & Hn2).
    apply Rlt_le_trans with (bpow (prec - 1 + e2)).
    + now apply in_format_small.
    + apply mag_ge_normal, Hn2. lia.
  - unfold mag. pose proof (bpow_pos e2).
    assert (IZR (Zpos m1) < IZR (Zpos m2))%R by (apply IZR_lt; lia). nra.
Qed.

(** ** Truncation to an integer *)

Lemma shiftl_bounds m e N :
  (mag m e <= IZR N)%R -> 0 <= Z.shiftl (Zpos m) e <= N.
Proof.
  intros H. unfold mag in H. destruct (Z_le_gt_dec 0 e) as [He | He].
  - rewrite Z.shiftl_mul_pow2 by exact He.
    rewrite (bpow_IZR e He), <- mult_IZR in H. apply le_IZR in H.
    pose proof (Z.pow_pos_nonneg 2 e). nia.
  - rewrite Z.shiftl_div_pow2 by lia.
    assert (Hp : 0 < 2 ^ (- e)) by (apply Z.pow_pos_nonneg; lia).
    split; [apply Z.div_pos; lia|].
    apply Z.div_le_upper_bound; [exact Hp|].
    apply le_IZR. rewrite mult_IZR, <- (bpow_IZR (- e)) by lia.
    rewrite bpow_opp, Rmult_comm. apply Rdiv_le_r; [apply bpow_pos | exact H].
Qed.

(** ** Division *)

Lemma new_location_inbetween nb q k :
  0 < nb -> 0 <= k < nb ->
  inbetween q (new_location nb k) (IZR q + IZR k / IZR nb).
Proof.
  intros Hnb Hk.
  assert (Hnb' : (0 < IZR nb)%R) by (apply IZR_lt; lia).
  assert (Hk0 : (0 <= IZR k)%R) by (apply IZR_le; lia).
  assert (Hhalf : forall c, (2 * k ?= nb) = c ->
            match c with
            | Lt => (IZR k / IZR nb < 1 / 2)%R
            | Eq => (IZR k / IZR nb = 1 / 2)%R
            | Gt => (1 / 2 < IZR k / IZR nb)%R
            end).
  { intros c Hc. destruct (Z.compare_spec (2 * k) nb) as [E | E | E]; subst c.
    - apply (f_equal IZR) in E. rewrite mult_IZR in E. field_simplify_eq; lra.
    - apply IZR_lt in E. rewrite mult_IZR in E. apply Rdiv_lt_l; lra.
    - apply IZR_lt in E. rewrite mult_IZR in E. apply Rdiv_lt_r; lra. }
  assert (Hlt1 : (IZR k / IZR nb < 1)%R).
  { assert (IZR k < IZR nb)%R by (apply IZR_lt; lia). apply Rdiv_lt_l; lra. }
  assert (Hzero : inbetween q loc_Exact (IZR q + IZR 0 / IZR nb)).
  { cbn [inbetween]. unfold Rdiv. rewrite Rmult_0_l. lra. }
  unfold new_location. destruct (Z.even nb) eqn:Ev.
  - unfold new_location_even.
    destruct (Z.eqb_spec k 0) as [-> | Hk']; [exact Hzero|].
    assert (Hkpos : (0 < IZR k / IZR nb)%R).
    { assert (0 < IZR k)%R by (apply IZR_lt; lia). apply Rdiv_lt_r; lra. }
    specialize (Hhalf _ eq_refl).
    destruct (2 * k ?= nb); cbn [inbetween]; lra.
  - unfold new_location_odd.
    destruct (Z.eqb_spec k 0) as [-> | Hk']; [exact Hzero|].
    assert (Hkpos : (0 < IZR k / IZR nb)%R).
    { assert (0 < IZR k)%R by (apply IZR_lt; lia). apply Rdiv_lt_r; lra. }
    assert (Hodd : 2 * k <> nb).
    { intros E. rewrite <- E, Z.even_mul in Ev. discriminate. }
    destruct (Z.compare_spec (2 * k + 1) nb) as [E | E | E]; cbn [inbetween].
    + assert (Hc : (2 * k ?= nb) = Lt) by (apply Z.compare_lt_iff; lia).
      specialize (Hhalf _ Hc). cbn in Hhalf. lra.
    + assert (Hc : (2 * k ?= nb) = Lt) by (apply Z.compare_lt_iff; lia).
      specialize (Hhalf _ Hc). cbn in Hhalf. lra.
    + assert (Hc : (2 * k ?= nb) = Gt) by (apply Z.compare_gt_iff; lia).
      specialize (Hhalf _ Hc). cbn in Hhalf. lra.
Qed.

Lemma SFdiv_core_inbetween m1 e1 m2 e2 :
  let '(q, e, l) := SFdiv_core_binary prec emax (Zpos m1) e1 (Zpos m2) e2 in
  0 <= q
  /\ e <= fexp prec emax (Zdigits2 q + e)
  /\ inbetween q l (mag m1 e1 / mag m2 e2 / bpow e).
Proof.
  unfold SFdiv_core_binary.
  set (d1 := Zdigits2 (Zpos m1)). set (d2 := Zdigits2 (Zpos m2)).
  set (e := Z.min (fexp prec emax (d1 + e1 - (d2 + e2))) (e1 - e2)).
  set (s := e1 - e2 - e).
  assert (Hs : 0 <= s) by (subst s e; lia).
  set (m' := match s with
             | Zpos _ => Z.shiftl (Zpos m1) s | Z0 => Zpos m1 | Zneg _ => 0
             end).
  assert (Em' : m' = Zpos m1 * 2 ^ s).
  { subst m'. destruct s as [|p|p] eqn:Es; [cbn; lia| |lia].
    now rewrite Z.shiftl_mul_pow2 by lia. }
  pose proof (Z_div_mod m' (Zpos m2) ltac:(lia)) as Hdiv.
  destruct (Z.div_eucl m' (Zpos m2)) as [q r] eqn:Eqr.
  destruct Hdiv as [Hdiv Hr].
  assert (Hm'pos : 0 < m') by (rewrite Em'; pose proof (Z.pow_pos_nonneg 2 s); nia).
  assert (Hq : 0 <= q) by nia.
  split; [exact Hq|]. split.
  - rewrite fexp_eq.
    destruct (Z_le_gt_dec e (-1074)) as [Hsmall | Hbig]; [lia|].
    assert (Hfe : e <= d1 + e1 - (d2 + e2) - 53).
    { subst e. rewrite fexp_eq in *. lia. }
    assert (Hq52 : 2 ^ 52 <= q).
    { assert (Hqdiv : q = m' / Zpos m2).
      { unfold Z.div. now rewrite Eqr. }
      rewrite Hqdiv. apply Z.div_le_lower_bound; [lia|].
      pose proof (digits_bounds m1) as [Hl1 _]. pose proof (digits_bounds m2) as [_ Hu2].
      fold d1 in Hl1. cbn [Zdigits2] in d1, d2. fold d2 in Hu2.
      assert (Hd1 : 0 < d1) by (subst d1; lia).
      assert (Hd2 : 0 < d2) by (subst d2; lia).
      apply Z.le_trans with (2 ^ d2 * 2 ^ 52).
      { apply Z.mul_le_mono_nonneg_r; lia. }
      rewrite <- Z.pow_add_r by lia. rewrite Em'.
      apply Z.le_trans with (2 ^ (d1 - 1) * 2 ^ s).
      - rewrite <- Z.pow_add_r by lia. apply Z.pow_le_mono_r; subst s; lia.
      - apply Z.mul_le_mono_nonneg_r; [apply Z.pow_nonneg; lia | exact Hl1]. }
    pose proof (Zdigits2_ge_from q 52 ltac:(lia) Hq52). lia.
  - assert (Hval : (mag m1 e1 / mag m2 e2 / bpow e = IZR q + IZR r / IZR (Zpos m2))%R).
    { unfold mag.
      assert (Hm2 : (0 < IZR (Zpos m2))%R) by (apply IZR_lt; lia).
      pose proof (bpow_pos e1). pose proof (bpow_pos e2). pose proof (bpow_pos e).
      replace e1 with (s + e2 + e) at 1 by (subst s; lia).
      rewrite !bpow_plus, (bpow_IZR s Hs).
      apply (f_equal IZR) in Hdiv. rewrite Em', plus_IZR, !mult_IZR in Hdiv.
      field_simplify_eq; [|lra]. nra. }
    rewrite Hval. apply new_location_inbetween; lia.
Qed.

(** the quotient of two finite floats *)
Lemma SFdiv_rounds sx mx ex sy my ey :
  rounds_to (xorb sx sy) (mag mx ex / mag my ey)
    (SFdiv prec emax (S754_finite sx mx ex) (S754_finite sy my ey)).
Proof.
  cbn [SFdiv].
  pose proof (SFdiv_core_inbetween mx ex my ey) as H.
  destruct (SFdiv_core_binary prec emax (Zpos mx) ex (Zpos my) ey) as [[q e] l].
  destruct H as (Hq & He & Hin).
  now apply binary_round_aux_rounds.
Qed.

(** ** Products and integers *)

(** the product of a normal float and a finite float *)
Lemma SFmul_rounds sx mx ex sy my ey :
  2 ^ (prec - 1) <= Zpos mx ->
  rounds_to (xorb sx sy) (mag mx ex * mag my ey)
    (SFmul prec emax (S754_finite sx mx ex) (S754_finite sy my ey)).
Proof.
  intros Hn. cbn [SFmul]. apply binary_round_aux_rounds; [lia| |].
  - rewrite fexp_eq.
    assert (2 ^ 52 <= Zpos (mx * my)) by (unfold prec in Hn; nia).
    pose proof (Zdigits2_ge_from _ 52 ltac:(lia) H). lia.
  - cbn [inbetween]. unfold mag. rewrite Pos2Z.inj_mul, mult_IZR, bpow_plus.
    pose proof (bpow_pos ex). pose proof (bpow_pos ey). field. lra.
Qed.

Lemma shl_align_spec mx ex ex' :
  let '(mz, ez) := shl_align mx ex ex' in
  mag mz ez = mag mx ex
  /\ Zdigits2 (Zpos mz) + ez = Zdigits2 (Zpos mx) + ex
  /\ ez <= ex /\ (ex' <= ex -> ez = ex').
Proof.
  unfold shl_align. destruct (ex' - ex) as [|d|d] eqn:Ed.
  - repeat split; lia.
  - repeat split; lia.
  - change (Pos.iter xO mx d) with (shift_pos d mx).
    assert (Hz : Zpos (shift_pos d mx) = Zpos mx * 2 ^ Zpos d).
    { rewrite shift_pos_correct. change (Z.pow_pos 2 d) with (2 ^ Zpos d). ring. }
    split; [|split; [|split; lia]].
    + unfold mag. rewrite Hz, mult_IZR, <- (bpow_IZR (Zpos d)) by lia.
      rewrite Rmult_assoc, <- bpow_plus. do 2 f_equal. lia.
    + pose proof (digits_bounds mx) as [Hl Hu]. cbn [Zdigits2].
      set (dm := Zpos (digits2_pos mx)) in *.
      assert (Hdm : 0 < dm) by (subst dm; lia).
      assert (Zdigits2 (Zpos (shift_pos d mx)) = dm + Zpos d).
      { apply Z.le_antisymm.
        - apply Zdigits2_le_from; [lia | lia |].
          rewrite Hz, Z.pow_add_r by lia.
          apply Z.mul_lt_mono_pos_r; [apply Z.pow_pos_nonneg; lia | exact Hu].
        - replace (dm + Zpos d) with (dm - 1 + Zpos d + 1) by lia.
          apply Zdigits2_ge_from; [lia|].
          rewrite Hz, Z.pow_add_r by lia.
          apply Z.mul_le_mono_nonneg_r; [apply Z.pow_nonneg; lia | exact Hl]. }
      cbn [Zdigits2] in H. lia.
Qed.

Lemma binary_round_rounds sx mx ex :
  rounds_to sx (mag mx ex) (binary_round prec emax sx mx ex).
Proof.
  unfold binary_round.
  pose proof (shl_align_spec mx ex (fexp prec emax (Zpos (digits2_pos mx) + ex))) as H.
  destruct (shl_align mx ex _) as [mz ez]. destruct H as (Hmag & Hd & Hle & Hez).
  rewrite <- Hmag. apply binary_round_aux_rounds; [lia| |].
  - rewrite Hd. cbn [Zdigits2].
    destruct (Z_le_gt_dec (fexp prec emax (Zpos (digits2_pos mx) + ex)) ex); lia.
  - cbn [inbetween]. unfold mag. pose proof (bpow_pos ez). field. lra.
Qed.

(** an integer below [2 ^ prec] is a float *)
Lemma float_of_int_exact n :
  0 < n < 2 ^ prec ->
  exists m e, float_of_int n = Ok (S754_finite false m e)
    /\ SpecFloat.bounded prec emax m e = true /\ mag m e = IZR n.
Proof.
  intros Hn. unfold float_of_int. destruct n as [|p|p]; try lia.
  cbn [binary_normalize].
  pose proof (binary_round_rounds false p 0) as Hr.
  assert (Hmag : mag p 0 = IZR (Zpos p)) by (unfold mag; rewrite bpow_0; ring).
  rewrite Hmag in Hr.
  assert (Hfmt : in_format (IZR (Zpos p))) by (apply in_format_int; lia).
  assert (Hpos : (0 < IZR (Zpos p))%R) by (apply IZR_lt; lia).
  assert (Hmax : (IZR (Zpos p) < bpow emax)%R).
  { rewrite (bpow_IZR emax) by (unfold emax; lia). apply IZR_lt.
    apply Z.lt_le_trans with (1 := proj2 Hn).
    apply Z.pow_le_mono_r; unfold prec, emax; lia. }
  destruct (rounds_le _ _ _ _ Hr Hfmt ltac:(lra) Hmax) as [E | (m & e & E & Hb & Hle)];
    destruct (rounds_ge _ _ _ _ Hr Hfmt ltac:(lra)) as [E' | (m' & e' & E' & Hb' & Hge)];
    rewrite E in E'; try discriminate.
  injection E' as <- <-. rewrite E. exists m, e. repeat split; auto. lra.
Qed.

(** ** The crop rectangle *)

Lemma even_floor n : Z.even (n - n `mod` 2) = true.
Proof.
  replace (n - n `mod` 2) with (2 * (n `div` 2)).
  - now rewrite Z.even_mul.
  - pose proof (Z.div_mod n 2 ltac:(lia)). lia.
Qed.

Lemma crop_keep_width W H nh :
  0 < W -> 0 <= nh <= H ->
  crop_within W H
    {| width := W - W `mod` 2; height := nh - nh `mod` 2;
       x := 0 - 0 `mod` 2;
       y := (H - nh) `div` 2 - ((H - nh) `div` 2) `mod` 2 |}.
Proof.
  intros HW Hnh. unfold crop_within. cbn [width height x y].
  rewrite !even_floor.
  pose proof (Z.mod_pos_bound W 2 ltac:(lia)).
  pose proof (Z.mod_pos_bound nh 2 ltac:(lia)).
  pose proof (Z.mod_pos_bound ((H - nh) `div` 2) 2 ltac:(lia)).
  pose proof (Z.div_mod nh 2 ltac:(lia)).
  pose proof (Z.div_mod ((H - nh) `div` 2) 2 ltac:(lia)).
  pose proof (Z.div_mod (H - nh) 2 ltac:(lia)).
  pose proof (Z.mod_pos_bound (H - nh) 2 ltac:(lia)).
  assert (0 <= nh `div` 2) by (apply Z.div_pos; lia).
  assert (0 <= (H - nh) `div` 2) by (apply Z.div_pos; lia).
  assert (0 <= ((H - nh) `div` 2) `div` 2) by (apply Z.div_pos; lia).
  change (0 `mod` 2) with 0.
  repeat split; lia.
Qed.

Lemma crop_keep_height W H nw :
  0 < H -> 0 <= nw <= W ->
  crop_within W H
    {| width := nw - nw `mod` 2; height := H - H `mod` 2;
       x := (W - nw) `div` 2 - ((W - nw) `div` 2) `mod` 2;
       y := 0 - 0 `mod` 2 |}.
Proof.
  intros HH Hnw. unfold crop_within. cbn [width height x y].
  rewrite !even_floor.
  pose proof (Z.mod_pos_bound H 2 ltac:(lia)).
  pose proof (Z.mod_pos_bound nw 2 ltac:(lia)).
  pose proof (Z.mod_pos_bound ((W - nw) `div` 2) 2 ltac:(lia)).
  pose proof (Z.div_mod nw 2 ltac:(lia)).
  pose proof (Z.div_mod ((W - nw) `div` 2) 2 ltac:(lia)).
  pose proof (Z.div_mod (W - nw) 2 ltac:(lia)).
  pose proof (Z.mod_pos_bound (W - nw) 2 ltac:(lia)).
  assert (0 <= nw `div` 2) by (apply Z.div_pos; lia).
  assert (0 <= (W - nw) `div` 2) by (apply Z.div_pos; lia).
  assert (0 <= ((W - nw) `div` 2) `div` 2) by (apply Z.div_pos; lia).
  change (0 `mod` 2) with 0.
  repeat split; lia.
Qed.

(** the float of an integer is normal *)
Lemma float_of_int_normal n :
  0 < n < 2 ^ prec ->
  exists m e, float_of_int n = Ok (S754_finite false m e)
    /\ 2 ^ (prec - 1) <= Zpos m /\ mag m e = IZR n.
Proof.
  intros Hn. destruct (float_of_int_exact n Hn) as (m & e & E & Hb & Hmag).
  exists m, e. split; [exact E|]. split; [|exact Hmag].
  apply bounded_canonical, canonical_bounds in Hb as (He & Hm & Hnormal).
  destruct (Z.eq_dec e emin) as [-> | Hne]; [exfalso | apply Hnormal; lia].
  assert (mag m emin < 1)%R.
  { apply Rlt_le_trans with (bpow (prec + emin)).
    - unfold mag. rewrite bpow_plus, (bpow_IZR prec) by (unfold prec; lia).
      apply IZR_lt in Hm. pose proof (bpow_pos emin). nra.
    - rewrite <- bpow_0. apply bpow_le. rewrite emin_eq. unfold prec. lia. }
  assert (1 <= IZR n)%R by (apply IZR_le; lia). lra.
Qed.

(** the aspect of the source: a positive finite float next to [W / H] *)
Lemma int_truediv_rounds W H :
  0 < W < 2 ^ prec -> 0 < H < 2 ^ prec ->
  exists m e, int_truediv W H = Ok (S754_finite false m e)
    /\ SpecFloat.bounded prec emax m e = true
    /\ rounds_to false (IZR W / IZR H) (S754_finite false m e).
Proof.
  intros HW HH. unfold int_truediv.
  destruct H as [|q|q]; try lia. destruct W as [|p|p]; try lia.
  change (Zpos p <? 0) with false. change (Zpos q <? 0) with false.
  pose proof (SFdiv_rounds false p 0 false q 0) as Hr.
  replace (mag p 0) with (IZR (Zpos p)) in Hr by (unfold mag; rewrite bpow_0; ring).
  replace (mag q 0) with (IZR (Zpos q)) in Hr by (unfold mag; rewrite bpow_0; ring).
  cbn [xorb] in Hr.
  set (r := SFdiv prec emax (S754_finite false p 0) (S754_finite false q 0)) in *.
  assert (Hp : (1 <= IZR (Zpos p) < IZR (2 ^ prec))%R)
    by (split; [apply IZR_le | apply IZR_lt]; lia).
  assert (Hq : (1 <= IZR (Zpos q) < IZR (2 ^ prec))%R)
    by (split; [apply IZR_le | apply IZR_lt]; lia).
  rewrite <- (bpow_IZR prec) in Hp, Hq by (unfold prec; lia).
  assert (Hquot : (bpow (- prec) <= IZR (Zpos p) / IZR (Zpos q) <= bpow prec)%R).
  { pose proof (bpow_pos prec) as Hpp. split.
    - apply Rdiv_le_r; [lra|]. rewrite bpow_opp.
      apply Rle_trans with 1%R; [|lra].
      replace (/ bpow prec * IZR (Zpos q))%R with (IZR (Zpos q) / bpow prec)%R
        by (field; lra).
      apply Rdiv_le_l; lra.
    - apply Rdiv_le_l; [lra | nra]. }
  assert (Hf1 : in_format (bpow prec)).
  { exists 1, prec. rewrite emin_eq. unfold prec. split; [lra | lia]. }
  assert (Hf2 : in_format (bpow (- prec))).
  { exists 1, (- prec). rewrite emin_eq. unfold prec. split; [lra | lia]. }
  pose proof (bpow_pos (- prec)) as Hpos.
  assert (Hmax : (bpow prec < bpow emax)%R) by (apply bpow_lt; unfold prec, emax; lia).
  destruct (rounds_le _ _ _ _ Hr Hf1 ltac:(lra) Hmax)
    as [E | (m & e & E & Hb & Hle)];
    destruct (rounds_ge _ _ _ _ Hr Hf2 ltac:(lra))
      as [E' | (m' & e' & E' & Hb' & Hge)];
    rewrite E in E'; try discriminate.
  rewrite E in *. exists m, e. auto.
Qed.

Lemma lex_compare_eq e1 m1 e2 m2 :
  match e1 ?= e2 with
  | Lt => Lt | Gt => Gt | Eq => Pos.compare_cont Eq m1 m2
  end = Eq -> e1 = e2 /\ m1 = m2.
Proof.
  change (Pos.compare_cont Eq m1 m2) with (m1 ?= m2)%positive.
  destruct (Z.compare_spec e1 e2); destruct (Pos.compare_spec m1 m2);
    intros; try discriminate; auto.
Qed.

(** equal aspects are within the tolerance *)
Lemma tolerance_same m e :
  flt (fabs (fsub (S754_finite false m e) (S754_finite false m e))) tolerance = true.
Proof.
  unfold fsub. cbn [SFsub cond_Zopp]. rewrite Z.sub_diag. reflexivity.
Qed.

Lemma rounds_to_cases sx X r :
  rounds_to sx X r ->
  r = S754_zero sx
  \/ (exists m e, r = S754_finite sx m e /\ SpecFloat.bounded prec emax m e = true)
  \/ r = S754_infinity sx.
Proof.
  intros (e & M & m1 & _ & _ & _ & _ & _ & _ & Hr).
  destruct Hr as [[_ ->] | [_ [(m2 & e2 & -> & Hb & _) | [-> _]]]];
    [now left | right; left; eauto | now right; right].
Qed.

(** on a frame below [2 ^ prec] in both directions and a ratio of two
    positive finite floats, [calculate_crop_dimensions] returns, and a crop
    it returns is even, non-negative and inside the frame *)
Lemma calculate_crop_in_range W H mw ew mh eh :
  0 < W < 2 ^ prec -> 0 < H < 2 ^ prec ->
  exists r,
    calculate_crop_dimensions W H
      (Some (S754_finite false mw ew, S754_finite false mh eh)) = Ok r
    /\ forall g, r = Some g -> crop_within W H g.
Proof.
  intros HW HH. unfold calculate_crop_dimensions.
  change (float_truediv (S754_finite false mw ew) (S754_finite false mh eh))
    with (Ok (SFdiv prec emax (S754_finite false mw ew) (S754_finite false mh eh))).
  pose proof (SFdiv_rounds false mw ew false mh eh) as Hrt. cbn [xorb] in Hrt.
  set (ta := SFdiv prec emax (S754_finite false mw ew) (S754_finite false mh eh)) in *.
  destruct (int_truediv_rounds W H HW HH) as (mo & eo & Eo & Hbo & Hro).
  rewrite Eo. cbn [mbind result_bind].
  destruct (flt (fabs (fsub ta (S754_finite false mo eo))) tolerance) eqn:Etol.
  { exists None. split; [reflexivity | discriminate]. }
  assert (HWR : (1 <= IZR W < bpow prec)%R).
  { rewrite (bpow_IZR prec) by (unfold prec; lia).
    split; [apply IZR_le | apply IZR_lt]; lia. }
  assert (HHR : (1 <= IZR H < bpow prec)%R).
  { rewrite (bpow_IZR prec) by (unfold prec; lia).
    split; [apply IZR_le | apply IZR_lt]; lia. }
  assert (Hmax : (bpow prec < bpow emax)%R) by (apply bpow_lt; unfold prec, emax; lia).
  destruct (float_of_int_normal W HW) as (mfw & efw & Efw & Hnw & Hmw).
  destruct (float_of_int_normal H HH) as (mfh & efh & Efh & Hnh & Hmh).
  destruct (rounds_to_cases _ _ _ Hrt) as [Ez | [(mt & et & Et & Hbt) | Ei]].
  - (* the target aspect underflows to zero *)
    rewrite Ez in *. cbn [fgt SFltb SFcompare]. rewrite Efh.
    cbn [mbind result_bind fmul SFmul int_of_float xorb].
    eexists. split; [reflexivity|]. intros g [= <-].
    apply crop_keep_height; lia.
  - rewrite Et in *. clear Et.
    pose proof (mag_pos mt et) as Hpt.
    destruct (fgt (S754_finite false mt et) (S754_finite false mo eo)) eqn:Egt.
    + (* target wider than the source *)
      unfold fgt, SFltb in Egt. cbn [SFcompare] in Egt.
      assert (Hlt : (mag mo eo < mag mt et)%R).
      { apply lex_lt_mag; try now apply bounded_canonical.
        apply lex_compare_lt.
        destruct (match eo ?= et with
                  | Eq => Pos.compare_cont Eq mo mt | Lt => Lt | Gt => Gt
                  end); try discriminate; reflexivity. }
      assert (Hta : (IZR W / IZR H <= mag mt et)%R).
      { destruct (Rle_lt_dec (IZR W / IZR H) (mag mt et)) as [|Hc]; [assumption|].
        exfalso.
        destruct (rounds_ge _ _ _ _ Hro (in_format_mag _ _ Hbt) ltac:(lra))
          as [E | (m & e & [= <- <-] & _ & Hge)]; [discriminate | lra]. }
      rewrite Efw. cbn [mbind result_bind].
      change (float_truediv (S754_finite false mfw efw) (S754_finite false mt et))
        with (Ok (SFdiv prec emax (S754_finite false mfw efw) (S754_finite false mt et))).
      cbn [mbind result_bind].
      pose proof (SFdiv_rounds false mfw efw false mt et) as Hrq.
      cbn [xorb] in Hrq. rewrite Hmw in Hrq.
      assert (Hq : (0 <= IZR W / mag mt et <= IZR H)%R).
      { split; [apply Rdiv_nonneg; lra|].
        apply Rdiv_le_l; [exact Hpt|]. rewrite Rmult_comm.
        apply Rdiv_le_l; [lra | exact Hta]. }
      destruct (rounds_le _ _ _ _ Hrq (in_format_int H ltac:(lia)) Hq ltac:(lra))
        as [E | (m & e & E & _ & Hle)]; rewrite E; cbn [int_of_float cond_Zopp];
        cbn [mbind result_bind].
      * eexists. split; [reflexivity|]. intros g [= <-].
        apply crop_keep_width; lia.
      * eexists. split; [reflexivity|]. intros g [= <-].
        apply crop_keep_width; [lia|]. now apply shiftl_bounds.
    + (* target narrower than the source *)
      unfold fgt, SFltb in Egt. cbn [SFcompare] in Egt.
      assert (Hlt : (mag mt et < mag mo eo)%R).
      { apply lex_lt_mag; try now apply bounded_canonical.
        apply lex_compare_gt.
        destruct (match eo ?= et with
                  | Eq => Pos.compare_cont Eq mo mt | Lt => Lt | Gt => Gt
                  end) eqn:Ec; try discriminate; [exfalso | reflexivity].
        apply lex_compare_eq in Ec as [-> ->].
        rewrite tolerance_same in Etol. discriminate. }
      assert (Hta : (mag mt et <= IZR W / IZR H)%R).
      { destruct (Rle_lt_dec (mag mt et) (IZR W / IZR H)) as [|Hc]; [assumption|].
        exfalso.
        assert (0 <= IZR W / IZR H)%R by (apply Rdiv_nonneg; lra).
        destruct (rounds_le _ _ _ _ Hro (in_format_mag _ _ Hbt) ltac:(lra)
                    (mag_lt_emax _ _ Hbt))
          as [E | (m & e & [= <- <-] & _ & Hle)]; [discriminate | lra]. }
      rewrite Efh. cbn [mbind result_bind].
      pose proof (SFmul_rounds false mfh efh false mt et Hnh) as Hrp.
      cbn [xorb] in Hrp. rewrite Hmh in Hrp.
      assert (Hp : (0 <= IZR H * mag mt et <= IZR W)%R).
      { split; [nra|]. rewrite Rmult_comm. apply Rdiv_le_r; [lra | exact Hta]. }
      unfold fmul.
      destruct (rounds_le _ _ _ _ Hrp (in_format_int W ltac:(lia)) Hp ltac:(lra))
        as [E | (m & e & E & _ & Hle)]; rewrite E; cbn [int_of_float cond_Zopp];
        cbn [mbind result_bind].
      * eexists. split; [reflexivity|]. intros g [= <-].
        apply crop_keep_height; lia.
      * eexists. split; [reflexivity|]. intros g [= <-].
        apply crop_keep_height; [lia|]. now apply shiftl_bounds.
  - (* the target aspect overflows to infinity *)
    rewrite Ei in *. cbn [fgt SFltb SFcompare]. rewrite Efw.
    cbn [mbind result_bind float_truediv is_zero SFdiv int_of_float xorb].
    eexists. split; [reflexivity|]. intros g [= <-].
    apply crop_keep_width; lia.
Qed.

(** ** C7: when no crop is computed *)

Lemma calculate_crop_none W H ratio :
  calculate_crop_dimensions W H ratio = Ok None <->
  ratio = None
  \/ exists w h target_aspect original_aspect,
       ratio = Some (w, h)
       /\ float_truediv w h = Ok target_aspect
       /\ int_truediv W H = Ok original_aspect
       /\ flt (fabs (fsub target_aspect original_aspect)) tolerance = true.
Proof.
  unfold calculate_crop_dimensions. destruct ratio as [[w h]|].
  - destruct (float_truediv w h) as [ta|e] eqn:Eta; cbn [mbind result_bind].
    + destruct (int_truediv W H) as [oa|e] eqn:Eoa; cbn [mbind result_bind].
      * destruct (flt (fabs (fsub ta oa)) tolerance) eqn:Etol.
        -- split; [|reflexivity]. intros _. right. exists w, h, ta, oa. auto.
        -- split.
           ++ intros Hc. exfalso. revert Hc.
              destruct (fgt ta oa).
              ** destruct (float_of_int W) as [fw|]; cbn; [|discriminate].
                 destruct (float_truediv fw ta) as [q|]; cbn; [|discriminate].
                 destruct (int_of_float q); cbn; discriminate.
              ** destruct (float_of_int H) as [fh|]; cbn; [|discriminate].
                 destruct (int_of_float (fmul fh ta)); cbn; discriminate.
           ++ intros [Hn | (w' & h' & ta' & oa' & [= <- <-] & Hta & [= <-] & Ht)];
                [discriminate|].
              rewrite Eta in Hta. injection Hta as <-. congruence.
      * split; [discriminate|].
        intros [Hn | (w' & h' & ta' & oa' & _ & _ & Hoa & _)]; discriminate.
    + split; [discriminate|].
      intros [Hn | (w' & h' & ta' & oa' & [= <- <-] & Hta & _)]; [discriminate|].
      rewrite Eta in Hta. discriminate.
  - split; [auto | reflexivity].
Qed.

(** C7: [calculate_crop_dimensions] returns [None] exactly when the ratio is
    the original one, or when both aspects are defined and the absolute
    value of their difference is below the tolerance, the float written
    0.01; for the source 1920x1080 and the ratio 16:9 it returns [None]. *)
Theorem calculate_crop_dimensions_none :
  (forall W H ratio,
     calculate_crop_dimensions W H ratio = Ok None <->
     ratio = None
     \/ exists w h target_aspect original_aspect,
          ratio = Some (w, h)
          /\ float_truediv w h = Ok target_aspect
          /\ int_truediv W H = Ok original_aspect
          /\ flt (fabs (fsub target_aspect original_aspect)) tolerance = true)
  /\ float_of_string "0.01" = Ok tolerance
  /\ calculate_crop_dimensions 1920 1080 (Some (sixteen, nine)) = Ok None.
Proof.
  split; [exact calculate_crop_none | split; reflexivity].
Qed.

(** ** C6: the crop rectangle lies in the frame *)

(** C6, the claim as stated fails: a positive width beyond the range of
    floats makes the division of the dimensions overflow, and no geometry
    is returned. *)
Lemma calculate_crop_dimensions_overflow :
  calculate_crop_dimensions (2 ^ 1024) 1 (Some (one, one)) = Raise OverflowError.
Proof. vm_compute. reflexivity. Qed.

(** C6 (amended): for source dimensions from 1 to below [2 ^ 53] and a
    ratio of two positive finite floats whose aspect is not within the
    tolerance of the source aspect, [calculate_crop_dimensions] returns a
    geometry whose width, height, x and y are even and non-negative, with
    [x + width <= original_width] and [y + height <= original_height]. *)
Theorem calculate_crop_dimensions_within W H mw ew mh eh
    target_aspect original_aspect :
  0 < W < 2 ^ prec -> 0 < H < 2 ^ prec ->
  float_truediv (S754_finite false mw ew) (S754_finite false mh eh)
    = Ok target_aspect ->
  int_truediv W H = Ok original_aspect ->
  flt (fabs (fsub target_aspect original_aspect)) tolerance = false ->
  exists g,
    calculate_crop_dimensions W H
      (Some (S754_finite false mw ew, S754_finite false mh eh)) = Ok (Some g)
    /\ crop_within W H g.
Proof.
  intros HW HH Hta Hoa Htol.
  destruct (calculate_crop_in_range W H mw ew mh eh HW HH) as (r & Er & Hg).
  destruct r as [g|]; [exists g; auto|]. exfalso.
  apply calculate_crop_none in Er
    as [Hn | (w & h & ta & oa & [= <- <-] & Hta' & Hoa' & Ht)]; [discriminate|].
  congruence.
Qed.

(** the source 1920x1080 and the ratio 9:16 *)
Lemma calculate_crop_dimensions_within_witness :
  exists g,
    calculate_crop_dimensions 1920 1080 (Some (nine, sixteen)) = Ok (Some g)
    /\ crop_within 1920 1080 g.
Proof.
  apply (calculate_crop_dimensions_within 1920 1080
           5066549580791808 (-49) 4503599627370496 (-48)
           (S754_finite false 5066549580791808 (-53))
           (S754_finite false 8006399337547548 (-52)));
    try (unfold prec; lia); vm_compute; reflexivity.
Defined.

(** ** C10: where [calculate_crop_dimensions] is defined *)

(** C10, the claim as stated fails: with a non-zero source height and a
    non-zero ratio height the function can still raise; the ratio read
    from "inf:inf" has the aspect NaN, which [int] rejects. *)
Lemma calculate_crop_dimensions_nan :
  parse_aspect_ratio "inf:inf"
    = Ok (Some (S754_infinity false, S754_infinity false))
  /\ calculate_crop_dimensions 1920 1080
       (Some (S754_infinity false, S754_infinity false)) = Raise ValueError.
Proof. split; vm_compute; reflexivity. Qed.

(** C10 (amended): for a ratio that is not the original one,
    [calculate_crop_dimensions] raises [ZeroDivisionError] when the ratio's
    height is zero and when the source height is zero, as no guard comes
    before the two divisions; it returns normally for source dimensions
    from 1 to below [2 ^ 53] and a ratio of two positive finite floats. *)
Theorem calculate_crop_dimensions_defined :
  (forall W H w s,
     calculate_crop_dimensions W H (Some (w, S754_zero s))
     = Raise ZeroDivisionError)
  /\ (forall W w h,
        is_zero h = false ->
        calculate_crop_dimensions W 0 (Some (w, h)) = Raise ZeroDivisionError)
  /\ (forall W H mw ew mh eh,
        0 < W < 2 ^ prec -> 0 < H < 2 ^ prec ->
        returns (calculate_crop_dimensions W H
                   (Some (S754_finite false mw ew, S754_finite false mh eh)))).
Proof.
  split; [|split].
  - reflexivity.
  - intros W w h Hh. unfold calculate_crop_dimensions, float_truediv.
    rewrite Hh. reflexivity.
  - intros W H mw ew mh eh HW HH.
    destruct (calculate_crop_in_range W H mw ew mh eh HW HH) as (r & Er & _).
    exists r. exact Er.
Qed.

(** the source 1920x1080 and the ratio 3:4 *)
Lemma calculate_crop_dimensions_defined_witness :
  returns (calculate_crop_dimensions 1920 1080
             (Some (S754_finite false 6755399441055744 (-51),
                    S754_finite false 4503599627370496 (-50)))).
Proof.
  apply (proj2 (proj2 calculate_crop_dimensions_defined)); unfold prec; lia.
Defined.

(** * Further properties *)

(** ** Time texts without a value *)

(** X1: [parse_time_input] returns without a value exactly on the texts of
    four or more colon-separated components; every other text gives a float
    or raises. *)
Theorem parse_time_input_none s :
  parse_time_input s = Ok None
  <-> (4 <= length (PyStr.split ":" (PyStr.strip s)))%nat.
Proof.
  unfold parse_time_input.
  destruct (PyStr.contains ":" (PyStr.strip s)) eqn:Hc.
  - apply split_contains in Hc.
    destruct (PyStr.split ":" (PyStr.strip s)) as [|a [|b [|c [|d l]]]];
      simpl in Hc; try lia.
    + split; [|simpl; lia].
      destruct (int_of_string a); cbn; [|discriminate].
      destruct (float_of_string b); cbn; [|discriminate].
      destruct (float_of_int _); cbn; discriminate.
    + split; [|simpl; lia].
      destruct (int_of_string a); cbn; [|discriminate].
      destruct (int_of_string b); cbn; [|discriminate].
      destruct (float_of_string c); cbn; [|discriminate].
      destruct (float_of_int _); cbn; discriminate.
    + split; [simpl; lia | reflexivity].
  - rewrite (split_no_sep _ _ Hc). split; [|simpl; lia].
    destruct (float_of_string _); cbn; discriminate.
Qed.

(** ** Exceptions that leave the configuration loop *)

Lemma configure_segment_raises D i r ws e :
  configure_segment D i r = (ws, Raise e) ->
  (e = TypeError
   /\ (parse_time_input (start_time r) = Ok None
       \/ parse_time_input (end_time r) = Ok None))
  \/ (e = OverflowError
      /\ (parse_time_input (start_time r) = Raise OverflowError
          \/ parse_time_input (end_time r) = Raise OverflowError)).
Proof.
  unfold configure_segment.
  destruct (PyStr.truthy (start_time r) && PyStr.truthy (end_time r));
    [|discriminate].
  pose proof (validate_segment_cases D (S i) r) as H.
  destruct (validate_segment D (S i) r) as [ws' [[s|]|e']]; try discriminate.
  destruct e'; try discriminate; intros [= <- <-];
    destruct H as [_ H]; auto;
    destruct H as [H | H]; apply parse_time_input_raises in H as [H | H];
    discriminate.
Qed.

(** X2: The loop's handler catches [ValueError] only. An exception leaves
    [configure_segments] in two cases: [TypeError], when a time text of some
    request has no value (four or more components), and [OverflowError],
    when a time text of some request holds an integer too large for a float.
    *)
Theorem configure_segments_uncaught video_duration i rs ws e :
  configure_segments video_duration i rs = (ws, Raise e) ->
  exists r, r ∈ rs
    /\ ((e = TypeError
         /\ (parse_time_input (start_time r) = Ok None
             \/ parse_time_input (end_time r) = Ok None))
        \/ (e = OverflowError
            /\ (parse_time_input (start_time r) = Raise OverflowError
                \/ parse_time_input (end_time r) = Raise OverflowError))).
Proof.
  revert i ws. induction rs as [|r rs IH]; intros i ws; [discriminate|].
  cbn [configure_segments].
  destruct (configure_segment video_duration i r) as [ws1 [s|e1]] eqn:E1; cbn.
  - destruct (configure_segments video_duration (S i) rs) as [ws2 [segs|e2]] eqn:E2;
      cbn; [discriminate|].
    intros [= <- <-].
    destruct (IH _ _ E2) as (r' & Hin & H).
    exists r'. split; [now apply list_elem_of_further | exact H].
  - intros [= <- <-]. exists r. split; [apply list_elem_of_here|].
    exact (configure_segment_raises _ _ _ _ _ E1).
Qed.

(** a minutes text with 310 digits: the integer is read, its product with
    60 is beyond the floats, and the exception leaves the loop *)
Lemma configure_segments_uncaught_witness :
  exists r, r ∈ [overflowing_request]
    /\ ((OverflowError = TypeError
         /\ (parse_time_input (start_time r) = Ok None
             \/ parse_time_input (end_time r) = Ok None))
        \/ (OverflowError = OverflowError
            /\ (parse_time_input (start_time r) = Raise OverflowError
                \/ parse_time_input (end_time r) = Raise OverflowError))).
Proof.
  apply (configure_segments_uncaught one_hundred 0 [overflowing_request] []
           OverflowError).
  vm_compute. reflexivity.
Defined.

(** ** The accepted plans *)

Lemma SFcompare_antisym x y :
  SFcompare y x = option_map CompOpp (SFcompare x y).
Proof.
  destruct x as [[]|[]| |[] mx ex], y as [[]|[]| |[] my ey]; try reflexivity;
    cbn; f_equal; rewrite (Z.compare_antisym ex ey);
    change (Pos.compare_cont Eq my mx) with (my ?= mx)%positive;
    change (Pos.compare_cont Eq mx my) with (mx ?= my)%positive;
    rewrite (Pos.compare_antisym mx my);
    destruct (ex ?= ey), (mx ?= my)%positive; reflexivity.
Qed.

Lemma SFcompare_none x y :
  SFcompare x y = None -> is_nan x = true \/ is_nan y = true.
Proof.
  destruct x as [[]|[]| |[] mx ex], y as [[]|[]| |[] my ey]; cbn;
    try discriminate; auto.
Qed.

Lemma SFcompare_refl x : SFcompare x x = Some Eq \/ SFcompare x x = None.
Proof.
  destruct x as [[]|[]| |[] mx ex]; cbn; auto; left;
    rewrite Z.compare_refl, Pos.compare_cont_refl; reflexivity.
Qed.

Lemma fgt_irrefl x : fgt x x = false.
Proof.
  unfold fgt, SFltb. destruct (SFcompare_refl x) as [-> | ->]; reflexivity.
Qed.

(** without NaN, [x >= y] fails only when [x < y] *)
Lemma fge_false_flt x y :
  fge x y = false -> is_nan x = false -> is_nan y = false -> flt x y = true.
Proof.
  unfold fge, flt, SFleb, SFltb. rewrite (SFcompare_antisym x y).
  intros H Hx Hy.
  destruct (SFcompare x y) as [[]|] eqn:E; cbn in H; try discriminate;
    [reflexivity|].
  apply SFcompare_none in E as [E | E]; congruence.
Qed.

(** without NaN, [x > y] fails only when [x <= y] *)
Lemma fgt_false_fle x y :
  fgt x y = false -> is_nan x = false -> is_nan y = false -> fle x y = true.
Proof.
  unfold fgt, fle, SFleb, SFltb. rewrite (SFcompare_antisym x y).
  intros H Hx Hy.
  destruct (SFcompare x y) as [[]|] eqn:E; cbn in H; try discriminate;
    try reflexivity.
  apply SFcompare_none in E as [E | E]; congruence.
Qed.

Lemma validate_segment_plan D n r ws s :
  validate_segment D n r = (ws, Ok (Some s)) -> plan_in_bounds D s.
Proof.
  unfold validate_segment, plan_in_bounds.
  destruct (parse_time_input (start_time r)) as [[st|]|?]; cbn; try discriminate;
    destruct (parse_time_input (end_time r)) as [[en|]|?]; cbn; try discriminate.
  destruct (fge st en) eqn:E1; cbn; [discriminate|].
  destruct (fge st D) eqn:E2; cbn; [discriminate|].
  destruct (fgt en D) eqn:E3; cbn;
    (destruct (parse_aspect_ratio (aspect_ratio_text r)) as [ratio|?] eqn:Er; cbn;
     [|discriminate]);
    intros [= <- <-]; cbn [seg_start seg_end seg_duration seg_aspect_ratio seg_ratio_text].
  - pose proof (fgt_irrefl D) as E4.
    repeat split; auto using fge_false_flt, fgt_false_fle.
  - repeat split; auto using fge_false_flt, fgt_false_fle.
Qed.

Lemma configure_segment_plan D i r ws s :
  configure_segment D i r = (ws, Ok (Some s)) -> plan_in_bounds D s.
Proof.
  unfold configure_segment.
  destruct (PyStr.truthy (start_time r) && PyStr.truthy (end_time r));
    [|discriminate].
  destruct (validate_segment D (S i) r) as [ws' [[s'|]|e]] eqn:E; try discriminate.
  - intros [= <- <-]. exact (validate_segment_plan _ _ _ _ _ E).
  - destruct e; discriminate.
Qed.

(** X3: Every plan the loop accepts lies in the source, in the sense of the
    loop's own tests: not [start >= end], not [start >= duration], not [end
    > duration], so that [start < end <= duration] when no NaN is involved;
    its duration is [end - start], and its ratio is the parsed ratio text.
    *)
Theorem configure_segments_plans video_duration i rs ws segments :
  configure_segments video_duration i rs = (ws, Ok segments) ->
  Forall (plan_in_bounds video_duration) segments.
Proof.
  revert i ws segments. induction rs as [|r rs IH]; intros i ws segments.
  - intros [= <- <-]. constructor.
  - cbn [configure_segments].
    destruct (configure_segment video_duration i r) as [ws1 [s|e1]] eqn:E1; cbn;
      [|discriminate].
    destruct (configure_segments video_duration (S i) rs) as [ws2 [segs|e2]] eqn:E2;
      cbn; [|discriminate].
    intros [= <- <-]. specialize (IH _ _ _ E2).
    destruct s as [s|]; cbn; [|exact IH].
    constructor; [|exact IH]. exact (configure_segment_plan _ _ _ _ _ E1).
Qed.

(** the seconds 10 to 20 of a source of 100 seconds *)
Lemma configure_segments_plans_witness :
  Forall (plan_in_bounds one_hundred)
    [ {| seg_start := ten; seg_end := S754_finite false 5629499534213120 (-48);
         seg_duration := ten; seg_aspect_ratio := None;
         seg_ratio_text := "original" |} ].
Proof.
  apply (configure_segments_plans one_hundred 0
    [ {| start_time := "10"; end_time := "0:20"; aspect_ratio_text := "original" |} ]
    [ st_success_segment 1
        {| seg_start := ten; seg_end := S754_finite false 5629499534213120 (-48);
           seg_duration := ten; seg_aspect_ratio := None;
           seg_ratio_text := "original" |} ]).
  vm_compute. reflexivity.
Defined.

(** ** The crop is centred *)

(** X4: A crop keeps one direction of the frame whole, up to an odd last
    pixel, and starts at 0 there; in both directions the margin after the
    crop is the margin before it plus 0 to 4 pixels. *)
Theorem calculate_crop_dimensions_centred W H ratio g :
  calculate_crop_dimensions W H ratio = Ok (Some g) ->
  ((x g = 0 /\ width g = W - W `mod` 2) \/ (y g = 0 /\ height g = H - H `mod` 2))
  /\ 0 <= (W - (x g + width g)) - x g <= 4
  /\ 0 <= (H - (y g + height g)) - y g <= 4.
Proof.
  unfold calculate_crop_dimensions. destruct ratio as [[tw th]|]; [|discriminate].
  destruct (float_truediv tw th) as [ta|]; cbn [mbind result_bind]; [|discriminate].
  destruct (int_truediv W H) as [oa|]; cbn [mbind result_bind]; [|discriminate].
  destruct (flt _ tolerance); [discriminate|].
  destruct (fgt ta oa).
  - destruct (float_of_int W) as [fw|]; cbn [mbind result_bind]; [|discriminate].
    destruct (float_truediv fw ta) as [q|]; cbn [mbind result_bind]; [|discriminate].
    destruct (int_of_float q) as [nh|]; cbn [mbind result_bind]; [|discriminate].
    intros [= <-]. cbn [x y width height]. change (0 `mod` 2) with 0.
    split; [left; split; [lia | reflexivity]|].
    Z.div_mod_to_equations. lia.
  - destruct (float_of_int H) as [fh|]; cbn [mbind result_bind]; [|discriminate].
    destruct (int_of_float _) as [nw|]; cbn [mbind result_bind]; [|discriminate].
    intros [= <-]. cbn [x y width height]. change (0 `mod` 2) with 0.
    split; [right; split; [lia | reflexivity]|].
    Z.div_mod_to_equations. lia.
Qed.

(** the frame 1920x1080 cut to 9:16 *)
Lemma calculate_crop_dimensions_centred_witness :
  ((656 = 0 /\ 606 = 1920 - 1920 `mod` 2) \/ (0 = 0 /\ 1080 = 1080 - 1080 `mod` 2))
  /\ 0 <= (1920 - (656 + 606)) - 656 <= 4
  /\ 0 <= (1080 - (0 + 1080)) - 0 <= 4.
Proof.
  apply (calculate_crop_dimensions_centred 1920 1080 (Some (nine, sixteen))
           {| width := 606; height := 1080; x := 656; y := 0 |}).
  vm_compute. reflexivity.
Defined.

(** ** Output files of one run *)

Lemma string_app_inv_head (a b c : string) : a +:+ b = a +:+ c -> b = c.
Proof.
  induction a as [|d a IH]; [auto|].
  rewrite !append_cons. intros [= H]. auto.
Qed.

Lemma string_app_inv_tail (a b c : string) : a +:+ c = b +:+ c -> a = b.
Proof.
  revert b. induction a as [|d a IH]; intros [|e b] H.
  - reflexivity.
  - apply (f_equal String.length) in H.
    rewrite !string_length_app in H. cbn in H. lia.
  - apply (f_equal String.length) in H.
    rewrite !string_length_app in H. cbn in H. lia.
  - rewrite !append_cons in H. injection H as -> H. f_equal. auto.
Qed.

Lemma to_uint_nonnil index : Nat.to_uint index <> Decimal.Nil.
Proof.
  rewrite <- (DecimalNat.Unsigned.of_to index) at 1.
  rewrite DecimalNat.Unsigned.to_of. unfold Decimal.unorm.
  destruct (Decimal.nzhead (Nat.to_uint index)); discriminate.
Qed.

(** the index is read back from its two-digit text *)
Lemma format_02d_decode index :
  option_map Nat.of_uint (NilEmpty.uint_of_string (format_02d index)) = Some index.
Proof.
  unfold format_02d.
  pose proof (to_uint_nonnil index) as Hn.
  assert (E : NilZero.string_of_uint (Nat.to_uint index)
              = NilEmpty.string_of_uint (Nat.to_uint index))
    by (destruct (Nat.to_uint index); [congruence | reflexivity..]).
  rewrite E.
  destruct (_ <? _)%nat.
  - change ("0" +:+ ?s) with (String "0" s). cbn [NilEmpty.uint_of_string].
    rewrite NilEmpty.usu. cbn [uint_of_char option_map].
    change (Nat.of_uint (Decimal.D0 ?d)) with (Nat.of_uint d).
    now rewrite DecimalNat.Unsigned.of_to.
  - rewrite NilEmpty.usu. cbn. now rewrite DecimalNat.Unsigned.of_to.
Qed.

Lemma output_name_inj i j : output_name i = output_name j -> i = j.
Proof.
  unfold output_name. intros H.
  apply string_app_inv_head, string_app_inv_tail in H.
  pose proof (format_02d_decode i) as Hi. rewrite H, format_02d_decode in Hi.
  congruence.
Qed.

Lemma join_output_name dir index :
  PyPath.join dir (output_name index)
  = (if negb (PyStr.truthy dir) || PyStr.endswith dir "/" then dir
     else dir +:+ "/") +:+ output_name index.
Proof.
  unfold PyPath.join.
  change (output_name index) with (String "v" ("ideo_part_" +:+ format_02d index +:+ ".mp4")).
  destruct (_ || _); [reflexivity|]. now rewrite string_app_assoc.
Qed.

(** X5: The outputs named by [process_segment] differ from segment to
    segment: the successes of a run are paths [video_part_k.mp4] of the
    output directory for positions [k] of the run, and no two of them are
    the same path, so no success is overwritten by a later segment of the
    run. *)
Theorem process_segments_distinct_outputs t a video_path i segments :
  let p := fst (process_segments t a video_path i segments) in
  Forall (fun path => exists k, (i < k <= i + length segments)%nat
            /\ path = PyPath.join (output_dir a) (output_name k))
    (successful_segments p)
  /\ NoDup (successful_segments p).
Proof.
  revert a i. induction segments as [|seg segs IH]; intros a i.
  - cbn. split; constructor.
  - cbn [process_segments].
    pose proof (process_segment_success t a video_path seg (S i)) as Hsucc.
    destruct (process_segment t a video_path seg (S i)) as [[success result] fs'].
    specialize (IH {| output_dir := output_dir a; files := fs' |} (S i)).
    destruct (process_segments t _ video_path (S i) segs) as [p a''].
    cbn [fst length] in *. destruct IH as [HF HN]. cbn [output_dir] in HF.
    assert (HF' : Forall (fun path => exists k, (i < k <= i + S (length segs))%nat
              /\ path = PyPath.join (output_dir a) (output_name k))
              (successful_segments p)).
    { eapply Forall_impl; [exact HF|]. cbn. intros path (k & Hk & ->).
      exists k. split; [lia | reflexivity]. }
    destruct success.
    + destruct (Hsucc result fs' eq_refl) as [-> _].
      cbn [successful_segments]. split.
      * constructor; [|exact HF']. exists (S i). split; [lia | reflexivity].
      * constructor; [|exact HN].
        intros Hin. rewrite Forall_forall in HF.
        destruct (HF _ Hin) as (k & Hk & E).
        rewrite !join_output_name in E.
        apply string_app_inv_head, output_name_inj in E. lia.
    + cbn [successful_segments]. auto.
Qed.

(** ** The ratios offered on the page *)

(** X6: Each choice of the selectbox is read by [parse_aspect_ratio], and
    for a frame of 1 to below [2 ^ 53] pixels in each direction
    [calculate_crop_dimensions] returns for it; a crop it returns is even,
    non-negative and inside the frame. *)
Theorem offered_ratios_crop choice W H :
  In choice aspect_ratio_options ->
  0 < W < 2 ^ prec -> 0 < H < 2 ^ prec ->
  exists ratio r,
    parse_aspect_ratio choice = Ok ratio
    /\ calculate_crop_dimensions W H ratio = Ok r
    /\ forall g, r = Some g -> crop_within W H g.
Proof.
  intros Hin HW HH.
  assert (Hpos : choice = "original"
            \/ exists mw ew mh eh,
                 parse_aspect_ratio choice
                 = Ok (Some (S754_finite false mw ew, S754_finite false mh eh))).
  { destruct Hin as [<- | Hin]; [now left | right].
    repeat (destruct Hin as [<- | Hin];
            [eexists _, _, _, _; vm_compute; reflexivity|]).
    destruct Hin. }
  destruct Hpos as [-> | (mw & ew & mh & eh & E)].
  - exists None, None. split; [reflexivity | split; [reflexivity | discriminate]].
  - destruct (calculate_crop_in_range W H mw ew mh eh HW HH) as (r & Er & Hg).
    eauto.
Qed.

(** the choice 9:16 on the frame 1920x1080 *)
Lemma offered_ratios_crop_witness :
  exists ratio r,
    parse_aspect_ratio "9:16" = Ok ratio
    /\ calculate_crop_dimensions 1920 1080 ratio = Ok r
    /\ forall g, r = Some g -> crop_within 1920 1080 g.
Proof.
  apply (offered_ratios_crop "9:16" 1920 1080);
    [do 4 right; left; reflexivity | unfold prec; lia | unfold prec; lia].
Defined.

(** ** The archive of a first run *)

Lemma process_segment_new_files t a input seg index name :
  name ∈ snd (process_segment t a input seg index) ->
  name ∈ files a \/ name = output_name index.
Proof.
  unfold process_segment.
  destruct (segment_crop t input seg) as [[crop|]|e]; cbn [snd]; auto.
  assert (H : forall r, name ∈ files_after r (output_name index) (files a) ->
                        name ∈ files a \/ name = output_name index).
  { intros r. unfold files_after. destruct (creates_output r); [|auto].
    rewrite elem_of_union, elem_of_singleton. tauto. }
  destruct (completion _) as [[rc err]|e]; [destruct (_ && _)|]; cbn [snd]; apply H.
Qed.

Lemma process_segments_new_files t vp segs : forall a i name,
  name ∈ files (snd (process_segments t a vp i segs)) ->
  name ∈ files a
  \/ exists k, (i < k <= i + length segs)%nat /\ name = output_name k.
Proof.
  induction segs as [|seg segs IH]; intros a i name; [cbn; auto|].
  cbn [process_segments].
  pose proof (process_segment_new_files t a vp seg (S i) name) as Hone.
  destruct (process_segment t a vp seg (S i)) as [[success result] fs'].
  specialize (IH {| output_dir := output_dir a; files := fs' |} (S i) name).
  destruct (process_segments t _ vp (S i) segs) as [p a''].
  cbn [snd files length] in *. intros Hin.
  destruct (IH Hin) as [Hfs | (k & Hk & ->)].
  - destruct (Hone Hfs) as [Ha | ->]; [now left | right].
    exists (S i). split; [lia | reflexivity].
  - right. exists k. split; [lia | reflexivity].
Qed.

(** X7: In a run that starts with an empty output directory, the first of a
    session, every member of the archive is the output name of a segment of
    the run: [video_part_k.mp4] for a position [k] from 1 to the number of
    segments. *)
Theorem create_zip_file_first_run t a video_path segments p z a' :
  files a = ∅ ->
  process_all t a video_path segments = (p, Some z, a') ->
  Forall (fun name => exists k, (1 <= k <= length segments)%nat
                                /\ name = output_name k)
    (elements z).
Proof.
  intros Hempty. unfold process_all.
  pose proof (process_segments_new_files t video_path segments a 0%nat) as Hnew.
  destruct (process_segments t a video_path 0 segments) as [p0 a0].
  destruct (successful_segments p0); [discriminate|].
  intros [= <- <- <-]. apply Forall_forall. intros name Hin.
  apply elem_of_elements in Hin. unfold create_zip_file in Hin.
  apply elem_of_filter in Hin as [_ Hin].
  destruct (Hnew name Hin) as [Ha | (k & Hk & ->)].
  - rewrite Hempty in Ha. set_solver.
  - exists k. split; [lia | reflexivity].
Qed.

(** the first run of a session, with two segments *)
Lemma create_zip_file_first_run_witness :
  Forall (fun name => exists k, (1 <= k <= 2)%nat /\ name = output_name k)
    (elements (create_zip_file earlier_app)).
Proof.
  apply (create_zip_file_first_run reliable_tools sample_app "video.mp4"
           [sample_segment; sample_segment]
           {| successful_segments :=
                ["/tmp/tmpab12cd/output_videos/video_part_01.mp4";
                 "/tmp/tmpab12cd/output_videos/video_part_02.mp4"];
              failed_segments := [];
              shown := [st_success_completed 1; st_success_completed 2] |}
           (create_zip_file earlier_app) earlier_app);
    [reflexivity | vm_compute; reflexivity].
Defined.

(** ** Integers and their decimal texts *)










(** ** Reading the output of ffprobe *)











(** X9: When the second run of ffprobe succeeds and its output, stripped, is
    not two integers separated by one comma, [get_video_info] shows one
    error and returns neither dimensions nor duration, whatever the first
    run gave. *)
Theorem get_video_info_all_or_nothing p video_path out_s :
  ffprobe_dimensions p video_path = Ok out_s ->
  cp_returncode out_s = 0 ->
  (forall width height,
     PyStr.split "," (PyStr.strip (cp_stdout out_s)) = [width; height] ->
     accepts_int width && accepts_int height = false) ->
  exists e, VideoSplitterApp.get_video_info p video_path
            = ([st_error_video_info e], (None, None)).
Proof.
  intros Es Hs Hbad.
  unfold VideoSplitterApp.get_video_info, VideoSplitterApp.probe_video_info.
  destruct (ffprobe_duration p video_path) as [out_d|e]; cbn [mbind result_bind];
    [|eauto].
  assert (Hdims :
    (if cp_returncode out_s =? 0
     then match PyStr.split "," (PyStr.strip (cp_stdout out_s)) with
          | [width; height] =>
              w ← int_of_string width; h ← int_of_string height; Ok (Some (w, h))
          | _ => Raise ValueError
          end
     else Ok None) = Raise ValueError).
  { rewrite Hs. cbn [Z.eqb].
    destruct (PyStr.split "," (PyStr.strip (cp_stdout out_s)))
      as [|width [|height [|? ?]]] eqn:E; try reflexivity.
    specialize (Hbad _ _ eq_refl). unfold accepts_int in Hbad.
    destruct (int_of_string_cases width) as [[w Hw] | Hw]; rewrite Hw in *;
      cbn [mbind result_bind]; [|reflexivity].
    destruct (int_of_string_cases height) as [[h Hh] | Hh]; rewrite Hh in *;
      cbn [mbind result_bind]; [discriminate | reflexivity]. }
  destruct (if cp_returncode out_d =? 0 then _ else _) as [duration|e];
    cbn [mbind result_bind]; [|eauto].
  rewrite Es. cbn [mbind result_bind]. rewrite Hdims. cbn [mbind result_bind]. eauto.
Qed.

(** ffprobe prints nothing for a file without a video stream *)
Lemma get_video_info_all_or_nothing_witness :
  exists e, VideoSplitterApp.get_video_info audio_only_probes "audio.mp4"
            = ([st_error_video_info e], (None, None)).
Proof.
  apply (get_video_info_all_or_nothing audio_only_probes "audio.mp4"
           {| cp_returncode := 0; cp_stdout := ""; cp_stderr := "" |});
    [reflexivity | reflexivity |].
  intros width height H. vm_compute in H. discriminate H.
Defined.

(** a file separator before the height: [str.strip] leaves it where it is,
    [int] rejects it, and neither dimensions nor duration are returned *)
Lemma get_video_info_separator :
  VideoSplitterApp.get_video_info separated_probes "video.mp4"
  = ([st_error_video_info ValueError], (None, None)).
Proof. vm_compute. reflexivity. Qed.

(** ** Finding the downloaded file *)

Lemma endswith_cases d a suffix :
  PyStr.endswith (String d a) suffix = true ->
  String d a = suffix \/ PyStr.endswith a suffix = true.
Proof.
  unfold PyStr.endswith. cbn [String.length].
  intros H. apply andb_true_iff in H as [Hle Heq].
  apply Nat.leb_le in Hle. apply String.eqb_eq in Heq.
  destruct (Nat.eq_dec (String.length suffix) (S (String.length a))) as [E | E].
  - left. rewrite E, Nat.sub_diag in Heq.
    rewrite <- Heq. symmetry. exact (substring_whole (String d a)).
  - right. apply andb_true_iff. split; [apply Nat.leb_le; lia|].
    apply String.eqb_eq.
    replace (S (String.length a) - String.length suffix)%nat
      with (S (String.length a - String.length suffix)) in Heq by lia.
    exact Heq.
Qed.

Lemma endswith_app_r a b suffix :
  PyStr.endswith b suffix = true -> PyStr.endswith (a +:+ b) suffix = true.
Proof.
  intros H.
  assert (Hs : exists p, b = p +:+ suffix).
  { induction b as [|d b IH].
    - exists EmptyString. unfold PyStr.endswith in H. destruct suffix; [reflexivity|].
      discriminate.
    - apply endswith_cases in H as [<- | H]; [now exists EmptyString|].
      destruct (IH H) as [p ->]. now exists (String d p). }
  destruct Hs as [p ->]. rewrite <- string_app_assoc. apply endswith_app.
Qed.

Lemma endswith_join dir name suffix :
  PyStr.endswith name suffix = true ->
  PyStr.endswith (PyPath.join dir name) suffix = true.
Proof.
  intros H. unfold PyPath.join.
  assert (Hgen : PyStr.endswith
            (if negb (PyStr.truthy dir) || PyStr.endswith dir "/"
             then dir +:+ name else dir +:+ "/" +:+ name) suffix = true).
  { destruct (_ || _); [now apply endswith_app_r|].
    rewrite <- string_app_assoc. now apply endswith_app_r. }
  destruct name as [|c name]; [exact Hgen|].
  destruct (Ascii.eqb_spec c "/") as [-> | Hc]; [exact H|].
  destruct c as [[] [] [] [] [] [] [] []]; try exact Hgen. congruence.
Qed.

Lemma fgt_trans x y z : fgt x y = true -> fgt y z = true -> fgt x z = true.
Proof. unfold fgt. intros H1 H2. exact (flt_trans z y x H2 H1). Qed.

(** the file [max] picks: one of the candidates, the first one or one
    with a greater time, and no candidate has a greater time than it *)
Lemma max_by_ctime_spec d : forall video_files best,
  let f := VideoSplitterApp.max_by_ctime d best video_files in
  In f (best :: video_files)
  /\ (f = best \/ fgt (getctime d f) (getctime d best) = true)
  /\ forall g, In g (best :: video_files) ->
       fgt (getctime d g) (getctime d f) = false.
Proof.
  induction video_files as [|v rest IH]; intros best; cbn zeta.
  - cbn [VideoSplitterApp.max_by_ctime]. repeat split; [now left | now left|].
    intros g [<- | []]. apply fgt_irrefl.
  - cbn [VideoSplitterApp.max_by_ctime].
    destruct (fgt (getctime d v) (getctime d best)) eqn:E.
    + destruct (IH v) as (Hin & Hbest & Hmax).
      set (f := VideoSplitterApp.max_by_ctime d v rest) in *.
      assert (Hf : fgt (getctime d f) (getctime d best) = true).
      { destruct Hbest as [-> | Hgt]; [exact E | exact (fgt_trans _ _ _ Hgt E)]. }
      repeat split.
      * right. exact Hin.
      * now right.
      * intros g [<- | Hg]; [|now apply Hmax].
        destruct (fgt (getctime d best) (getctime d f)) eqn:Hc; [|reflexivity].
        pose proof (fgt_trans _ _ _ Hc Hf) as Hloop.
        now rewrite fgt_irrefl in Hloop.
    + destruct (IH best) as (Hin & Hbest & Hmax).
      set (f := VideoSplitterApp.max_by_ctime d best rest) in *.
      repeat split.
      * destruct Hin as [<- | Hin]; [now left | now right; right].
      * exact Hbest.
      * intros g [<- | [<- | Hg]]; [apply Hmax; now left | | apply Hmax; now right].
        destruct (fgt (getctime d v) (getctime d f)) eqn:Hc; [|reflexivity].
        destruct Hbest as [Hb | Hgt]; [rewrite Hb in Hc; congruence|].
        rewrite (fgt_trans _ _ _ Hc Hgt) in E. discriminate.
Qed.

(** the directory part [os.path.join] puts before a relative name *)
Lemma join_relative dir c name :
  c <> "/"%char ->
  PyPath.join dir (String c name)
  = (if negb (PyStr.truthy dir) || PyStr.endswith dir "/" then dir
     else dir +:+ "/") +:+ String c name.
Proof.
  intros Hc. unfold PyPath.join.
  assert (Hgen : (if negb (PyStr.truthy dir) || PyStr.endswith dir "/"
                  then dir +:+ String c name else dir +:+ "/" +:+ String c name)
                 = (if negb (PyStr.truthy dir) || PyStr.endswith dir "/" then dir
                    else dir +:+ "/") +:+ String c name).
  { destruct (_ || _); [reflexivity | now rewrite string_app_assoc]. }
  destruct c as [[] [] [] [] [] [] [] []]; try exact Hgen. congruence.
Qed.

(** in a directory whose path has no dot, the pattern is cut at the dot of
    "downloaded_video.%(ext)s" *)
Lemma base_name_of_pattern temp_dir ext :
  PyStr.contains "." temp_dir = false ->
  List.hd EmptyString
    (PyStr.split "." (PyPath.join temp_dir "downloaded_video.%(ext)s")) +:+ ext
  = PyPath.join temp_dir ("downloaded_video" +:+ ext).
Proof.
  intros Hdot.
  change "downloaded_video.%(ext)s" with (String "d" "ownloaded_video.%(ext)s").
  change ("downloaded_video" +:+ ext) with (String "d" ("ownloaded_video" +:+ ext)).
  rewrite !join_relative by discriminate.
  set (P := if negb (PyStr.truthy temp_dir) || PyStr.endswith temp_dir "/"
            then temp_dir else temp_dir +:+ "/").
  assert (HP : PyStr.contains "." P = false).
  { unfold P. destruct (_ || _); [exact Hdot|].
    rewrite contains_app, Hdot. reflexivity. }
  replace (P +:+ String "d" "ownloaded_video.%(ext)s")
    with ((P +:+ "downloaded_video") +:+ String "." "%(ext)s")
    by (now rewrite string_app_assoc).
  rewrite split_app by (rewrite contains_app, HP; reflexivity).
  cbn [List.hd]. now rewrite string_app_assoc.
Qed.

(** X10: In a temporary directory whose path has no dot, when yt-dlp has
    left "downloaded_video" with one of the five extensions,
    [find_downloaded_file] returns such a file that exists, and the mp4 file
    when that one exists. *)
Theorem find_downloaded_file_expected temp_dir d ext :
  PyStr.contains "." temp_dir = false ->
  In ext VideoSplitterApp.extensions ->
  path_exists d (PyPath.join temp_dir ("downloaded_video" +:+ ext)) = true ->
  exists ext',
    VideoSplitterApp.find_downloaded_file temp_dir d
      (PyPath.join temp_dir "downloaded_video.%(ext)s")
    = Some (PyPath.join temp_dir ("downloaded_video" +:+ ext'))
    /\ In ext' VideoSplitterApp.extensions
    /\ path_exists d (PyPath.join temp_dir ("downloaded_video" +:+ ext')) = true
    /\ (path_exists d (PyPath.join temp_dir "downloaded_video.mp4") = true ->
        ext' = ".mp4").
Proof.
  intros Hdot Hin Hex. unfold VideoSplitterApp.find_downloaded_file.
  set (base_name := List.hd EmptyString
         (PyStr.split "." (PyPath.join temp_dir "downloaded_video.%(ext)s"))).
  assert (Hb : forall e, base_name +:+ e
                         = PyPath.join temp_dir ("downloaded_video" +:+ e))
    by (intros e; now apply base_name_of_pattern).
  destruct (List.find (fun e => path_exists d (base_name +:+ e))
              VideoSplitterApp.extensions) as [ext'|] eqn:Ef.
  - exists ext'. pose proof Ef as Ef'.
    apply List.find_some in Ef' as [Hin' Hex']. rewrite Hb in Hex'.
    rewrite Hb. repeat split; try assumption.
    intros Hmp4. unfold VideoSplitterApp.extensions in Ef.
    cbn [List.find] in Ef. rewrite Hb in Ef.
    change ("downloaded_video" +:+ ".mp4") with "downloaded_video.mp4" in Ef.
    rewrite Hmp4 in Ef. congruence.
  - exfalso. pose proof (List.find_none _ _ Ef ext Hin) as Hn. cbn in Hn.
    rewrite Hb, Hex in Hn. discriminate.
Qed.

(** the directory after a download that gave a webm file *)
Lemma find_downloaded_file_expected_witness :
  exists ext',
    VideoSplitterApp.find_downloaded_file "/tmp/tmpab12cd" webm_directory
      (PyPath.join "/tmp/tmpab12cd" "downloaded_video.%(ext)s")
    = Some (PyPath.join "/tmp/tmpab12cd" ("downloaded_video" +:+ ext'))
    /\ In ext' VideoSplitterApp.extensions
    /\ path_exists webm_directory
         (PyPath.join "/tmp/tmpab12cd" ("downloaded_video" +:+ ext')) = true
    /\ (path_exists webm_directory
          (PyPath.join "/tmp/tmpab12cd" "downloaded_video.mp4") = true ->
        ext' = ".mp4").
Proof.
  apply (find_downloaded_file_expected "/tmp/tmpab12cd" webm_directory ".webm");
    [reflexivity | right; left; reflexivity | reflexivity].
Defined.

(** X11: When no file of the expected name exists, [find_downloaded_file]
    looks through the temporary directory: it returns a file of the
    directory whose name ends in one of the five extensions, chosen so that
    no such file has a greater change time; it returns nothing only when the
    directory holds no such file. *)
Theorem find_downloaded_file_newest temp_dir d pattern :
  (forall ext, In ext VideoSplitterApp.extensions ->
     path_exists d (List.hd EmptyString (PyStr.split "." pattern) +:+ ext) = false) ->
  match VideoSplitterApp.find_downloaded_file temp_dir d pattern with
  | Some f =>
      (exists name ext, In name (entries d) /\ In ext VideoSplitterApp.extensions
         /\ PyStr.endswith name ext = true /\ f = PyPath.join temp_dir name)
      /\ forall name ext, In name (entries d) -> In ext VideoSplitterApp.extensions ->
           PyStr.endswith name ext = true ->
           fgt (getctime d (PyPath.join temp_dir name)) (getctime d f) = false
  | None =>
      forall name ext, In name (entries d) -> In ext VideoSplitterApp.extensions ->
        PyStr.endswith name ext = false
  end.
Proof.
  intros Hno. unfold VideoSplitterApp.find_downloaded_file.
  destruct (List.find _ VideoSplitterApp.extensions) as [ext|] eqn:Ef.
  { apply List.find_some in Ef as [Hin Hex]. rewrite (Hno ext Hin) in Hex.
    discriminate. }
  assert (Hglob : forall g,
    In g (flat_map (VideoSplitterApp.glob_ext temp_dir d) VideoSplitterApp.extensions)
    <-> exists name ext, In name (entries d) /\ In ext VideoSplitterApp.extensions
          /\ PyStr.endswith name ext = true /\ g = PyPath.join temp_dir name).
  { intros g. rewrite in_flat_map. unfold VideoSplitterApp.glob_ext. split.
    - intros (ext & Hext & Hg). apply in_map_iff in Hg as (name & <- & Hname).
      apply filter_In in Hname as [Hname Hends]. eauto 10.
    - intros (name & ext & Hname & Hext & Hends & ->). exists ext.
      split; [exact Hext|]. apply in_map_iff. exists name.
      split; [reflexivity|]. apply filter_In. auto. }
  destruct (flat_map _ VideoSplitterApp.extensions) as [|f0 video_files] eqn:Ev.
  - intros name ext Hname Hext.
    destruct (PyStr.endswith name ext) eqn:E; [|reflexivity].
    destruct (proj2 (Hglob (PyPath.join temp_dir name))); eauto 10.
  - destruct (max_by_ctime_spec d video_files f0) as (Hin & _ & Hmax). split.
    + now apply Hglob.
    + intros name ext Hname Hext Hends. apply Hmax, Hglob. eauto 10.
Qed.

(** a directory with two video files: the newer one is found *)
Lemma find_downloaded_file_newest_witness :
  match VideoSplitterApp.find_downloaded_file "/tmp/tmp.ab12" two_videos_directory
          (PyPath.join "/tmp/tmp.ab12" "downloaded_video.%(ext)s") with
  | Some f =>
      (exists name ext, In name (entries two_videos_directory)
         /\ In ext VideoSplitterApp.extensions
         /\ PyStr.endswith name ext = true /\ f = PyPath.join "/tmp/tmp.ab12" name)
      /\ forall name ext, In name (entries two_videos_directory) ->
           In ext VideoSplitterApp.extensions ->
           PyStr.endswith name ext = true ->
           fgt (getctime two_videos_directory (PyPath.join "/tmp/tmp.ab12" name))
               (getctime two_videos_directory f) = false
  | None =>
      forall name ext, In name (entries two_videos_directory) ->
        In ext VideoSplitterApp.extensions ->
        PyStr.endswith name ext = false
  end.
Proof.
  apply (find_downloaded_file_newest "/tmp/tmp.ab12" two_videos_directory
           (PyPath.join "/tmp/tmp.ab12" "downloaded_video.%(ext)s")).
  intros ext Hext. reflexivity.
Defined.

(** ** Downloading *)

Lemma find_downloaded_file_extension temp_dir d pattern f :
  VideoSplitterApp.find_downloaded_file temp_dir d pattern = Some f ->
  exists ext, In ext VideoSplitterApp.extensions /\ PyStr.endswith f ext = true.
Proof.
  unfold VideoSplitterApp.find_downloaded_file.
  destruct (List.find _ VideoSplitterApp.extensions) as [ext|] eqn:Ef.
  - intros [= <-]. apply List.find_some in Ef as [Hin _].
    exists ext. split; [exact Hin | apply endswith_app].
  - destruct (flat_map _ VideoSplitterApp.extensions) as [|f0 video_files] eqn:Ev;
      [discriminate|].
    intros [= <-].
    destruct (max_by_ctime_spec d video_files f0) as (Hin & _ & _).
    rewrite <- Ev in Hin. apply in_flat_map in Hin as (ext & Hext & Hin).
    unfold VideoSplitterApp.glob_ext in Hin.
    apply in_map_iff in Hin as (name & <- & Hname).
    apply filter_In in Hname as [_ Hends].
    exists ext. split; [exact Hext | now apply endswith_join].
Qed.

Lemma download_video_truthy yt_dlp temp_dir url notices file :
  VideoSplitterApp.download_video yt_dlp temp_dir url = (notices, Some file) ->
  PyStr.truthy file = true.
Proof.
  unfold VideoSplitterApp.download_video.
  destruct (dl_completion _) as [out|e]; [|discriminate].
  destruct (cp_returncode out =? 0); [|discriminate].
  destruct (VideoSplitterApp.find_downloaded_file _ _ _) as [f|]; [|discriminate].
  destruct (PyStr.truthy f) eqn:Et; [|discriminate].
  now intros [= _ <-].
Qed.

(** X12: [download_video] returns a path only when yt-dlp ended with exit
    code 0; the path then ends in one of the five video extensions, and the
    notices are the progress note and the success note. In every other case
    the last notice is an error. *)
Theorem download_video_result yt_dlp temp_dir url :
  match VideoSplitterApp.download_video yt_dlp temp_dir url with
  | (notices, Some file) =>
      (exists out,
         dl_completion (yt_dlp url (PyPath.join temp_dir "downloaded_video.%(ext)s"))
         = Ok out /\ cp_returncode out = 0)
      /\ (exists ext, In ext VideoSplitterApp.extensions
                      /\ PyStr.endswith file ext = true)
      /\ PyStr.truthy file = true
      /\ notices = [st_info_downloading; st_success_downloaded]
  | (notices, None) =>
      exists n, notices = [st_info_downloading; n]
        /\ ((exists stderr, n = st_error_download_failed stderr)
            \/ (exists e, n = st_error_download_exception e))
  end.
Proof.
  unfold VideoSplitterApp.download_video.
  destruct (dl_completion _) as [out|e] eqn:Ec; [|eauto 10].
  destruct (Z.eqb_spec (cp_returncode out) 0) as [Hrc|Hrc]; [|eauto 10].
  destruct (VideoSplitterApp.find_downloaded_file _ _ _) as [file|] eqn:Ef;
    [|eauto 10].
  destruct (PyStr.truthy file) eqn:Et; [|eauto 10].
  apply find_downloaded_file_extension in Ef. eauto 10.
Qed.

(** ** Exact operations on floats *)

(** a real that is a float is its own rounding *)
Lemma rounds_exact sx X r :
  rounds_to sx X r -> in_format X -> (0 < X < bpow emax)%R ->
  exists m e, r = S754_finite sx m e
    /\ SpecFloat.bounded prec emax m e = true /\ mag m e = X.
Proof.
  intros Hr Hf HX.
  destruct (rounds_le _ _ _ _ Hr Hf ltac:(lra) ltac:(lra))
    as [E | (m & e & E & Hb & Hle)];
    destruct (rounds_ge _ _ _ _ Hr Hf ltac:(lra)) as [E' | (m' & e' & E' & Hb' & Hge)];
    rewrite E in E'; try discriminate.
  injection E' as <- <-. exists m, e. repeat split; auto. lra.
Qed.

(** two floats of the same magnitude are the same *)
Lemma mag_inj m1 e1 m2 e2 :
  SpecFloat.bounded prec emax m1 e1 = true ->
  SpecFloat.bounded prec emax m2 e2 = true ->
  mag m1 e1 = mag m2 e2 -> m1 = m2 /\ e1 = e2.
Proof.
  intros H1 H2 E. apply bounded_canonical in H1, H2.
  destruct (Z.lt_total e1 e2) as [Hlt | [-> | Hlt]].
  - pose proof (lex_lt_mag _ _ _ _ H1 H2 (or_introl Hlt)). lra.
  - destruct (Pos.lt_total m1 m2) as [Hm | [-> | Hm]]; [| auto |].
    + pose proof (lex_lt_mag _ _ _ _ H1 H2 (or_intror (conj eq_refl Hm))). lra.
    + pose proof (lex_lt_mag _ _ _ _ H2 H1 (or_intror (conj eq_refl Hm))). lra.
  - pose proof (lex_lt_mag _ _ _ _ H2 H1 (or_introl Hlt)). lra.
Qed.

(** an integer and an exponent whose product is a float *)
Lemma binary_normalize_exact n e s :
  0 < n -> in_format (IZR n * bpow e) -> (IZR n * bpow e < bpow emax)%R ->
  exists m' e', binary_normalize prec emax n e s = S754_finite false m' e'
    /\ SpecFloat.bounded prec emax m' e' = true
    /\ mag m' e' = (IZR n * bpow e)%R.
Proof.
  intros Hn Hf Hmax. destruct n as [|p|p]; try lia. cbn [binary_normalize].
  apply rounds_exact; [apply binary_round_rounds | exact Hf|].
  split; [|exact Hmax]. apply mag_pos.
Qed.

(** the integer of a float whose value is an integer *)
Lemma shiftl_exact m e K : mag m e = IZR K -> Z.shiftl (Zpos m) e = K.
Proof.
  intros H. unfold mag in H. destruct (Z_le_gt_dec 0 e) as [He | He].
  - rewrite Z.shiftl_mul_pow2 by exact He.
    rewrite (bpow_IZR e He), <- mult_IZR in H. now apply eq_IZR in H.
  - rewrite Z.shiftl_div_pow2 by lia.
    assert (Hp : 0 < 2 ^ (- e)) by (apply Z.pow_pos_nonneg; lia).
    assert (E : Zpos m = K * 2 ^ (- e)).
    { apply eq_IZR. rewrite mult_IZR, <- (bpow_IZR (- e)) by lia.
      rewrite <- H, bpow_opp. pose proof (bpow_pos e). field. lra. }
    rewrite E. apply Z.div_mul. lia.
Qed.

Lemma fsub_diag m e :
  fsub (S754_finite false m e) (S754_finite false m e) = S754_zero false.
Proof. unfold fsub. cbn [SFsub cond_Zopp]. rewrite Z.sub_diag. reflexivity. Qed.

(** the difference of two positive floats, when it is a float *)
Lemma fsub_exact m1 e1 m2 e2 :
  SpecFloat.bounded prec emax m1 e1 = true ->
  (mag m2 e2 <= mag m1 e1)%R ->
  in_format (mag m1 e1 - mag m2 e2) ->
  (mag m1 e1 = mag m2 e2
   /\ fsub (S754_finite false m1 e1) (S754_finite false m2 e2) = S754_zero false)
  \/ exists m e,
       fsub (S754_finite false m1 e1) (S754_finite false m2 e2)
       = S754_finite false m e
       /\ SpecFloat.bounded prec emax m e = true
       /\ mag m e = (mag m1 e1 - mag m2 e2)%R.
Proof.
  intros Hb Hle Hf. unfold fsub. cbn [SFsub cond_Zopp].
  pose proof (shl_align_spec m1 e1 (Z.min e1 e2)) as H1.
  pose proof (shl_align_spec m2 e2 (Z.min e1 e2)) as H2.
  destruct (shl_align m1 e1 (Z.min e1 e2)) as [n1 z1].
  destruct (shl_align m2 e2 (Z.min e1 e2)) as [n2 z2].
  destruct H1 as (M1 & _ & _ & Z1). destruct H2 as (M2 & _ & _ & Z2).
  rewrite Z1 in M1 by lia. rewrite Z2 in M2 by lia. cbn [fst].
  set (ez := Z.min e1 e2) in *.
  assert (Hd : (IZR (Zpos n1 - Zpos n2) * bpow ez = mag m1 e1 - mag m2 e2)%R).
  { rewrite <- M1, <- M2. unfold mag. rewrite minus_IZR. ring. }
  pose proof (bpow_pos ez) as Hp.
  destruct (Z.lt_total (Zpos n1 - Zpos n2) 0) as [Hneg | [Hz | Hpos]].
  - exfalso. apply IZR_lt in Hneg. nra.
  - left. rewrite Hz in *. split; [lra | reflexivity].
  - right. rewrite <- Hd.
    apply binary_normalize_exact; [exact Hpos | now rewrite Hd |].
    rewrite Hd. pose proof (mag_lt_emax _ _ Hb). pose proof (mag_pos m2 e2). lra.
Qed.

(** ** Minutes and seconds *)

Lemma float_of_int_sixty : float_of_int 60 = Ok sixty.
Proof. reflexivity. Qed.

Lemma mag_sixty : mag 8444249301319680 (-47) = 60%R.
Proof.
  unfold mag. rewrite (bpow_opp 47 : bpow (-47) = _), (bpow_IZR 47) by lia.
  change 8444249301319680%positive with (Z.to_pos (60 * 2 ^ 47)).
  change (Zpos (Z.to_pos (60 * 2 ^ 47))) with (60 * 2 ^ 47).
  rewrite mult_IZR.
  assert (0 < IZR (2 ^ 47))%R by (apply IZR_lt; reflexivity).
  field. lra.
Qed.

(** [fmod(x, 60.0)] for a positive float [x] below [2 ^ 53]: with [K] the
    whole minutes of [x], the remainder is the float [x - 60 K] *)
Lemma fmod_sixty m e :
  SpecFloat.bounded prec emax m e = true -> e <= 0 ->
  let K := Z.shiftl (Zpos m) e `div` 60 in
  let r := PyArith.fmod (S754_finite false m e) sixty in
  0 <= K
  /\ ((mag m e = (60 * IZR K)%R /\ r = S754_zero false)
      \/ exists mr er, r = S754_finite false mr er
           /\ SpecFloat.bounded prec emax mr er = true
           /\ mag mr er = (mag m e - 60 * IZR K)%R
           /\ (mag mr er < 60)%R).
Proof.
  intros Hb He K r. subst r. unfold PyArith.fmod, sixty. cbn [cond_Zopp].
  destruct (canonical_bounds _ _ (bounded_canonical _ _ Hb)) as (Hemin & Hm & _).
  rewrite emin_eq in Hemin. unfold prec in Hm.
  set (em := Z.min e (-47)).
  assert (Hem : em <= e /\ em <= -47) by (unfold em; lia).
  set (s := 2 ^ (e - em)).
  assert (Hs : 0 < s) by (apply Z.pow_pos_nonneg; lia).
  assert (Ha : 0 < 2 ^ (- e)) by (apply Z.pow_pos_nonneg; lia).
  assert (HY : 8444249301319680 * 2 ^ (-47 - em) = 60 * (2 ^ (- e) * s)).
  { unfold s. rewrite <- Z.pow_add_r by lia.
    replace (- e + (e - em)) with (47 + (-47 - em)) by lia.
    rewrite Z.pow_add_r by lia. change 8444249301319680 with (60 * 2 ^ 47). ring. }
  rewrite HY. fold s.
  set (Xi := Zpos m * s). set (Yi := 60 * (2 ^ (- e) * s)).
  assert (HYi : 0 < Yi) by (unfold Yi; lia).
  assert (HK : Xi `div` Yi = K).
  { unfold Xi, Yi, K. rewrite Z.shiftl_div_pow2 by lia.
    replace (60 * (2 ^ (- e) * s)) with ((2 ^ (- e) * 60) * s) by ring.
    rewrite Z.div_mul_cancel_r by lia. symmetry. apply Z.div_div; lia. }
  assert (HK0 : 0 <= K) by (rewrite <- HK; apply Z.div_pos; unfold Xi; lia).
  split; [exact HK0|].
  pose proof (Z.div_mod Xi Yi ltac:(lia)) as Hdm. rewrite HK in Hdm.
  pose proof (Z.mod_pos_bound Xi Yi HYi) as HR.
  set (R := Xi `mod` Yi) in *.
  pose proof (bpow_pos em) as Hp.
  assert (HX : mag m e = (IZR Xi * bpow em)%R).
  { unfold mag, Xi, s. now apply in_format_scaled. }
  assert (H60 : (IZR Yi * bpow em)%R = 60%R).
  { unfold Yi, s. rewrite <- Z.pow_add_r by lia.
    replace (- e + (e - em)) with (- em) by lia.
    rewrite mult_IZR, <- (bpow_IZR (- em)) by lia. rewrite bpow_opp.
    field. lra. }
  assert (Hval : (IZR R * bpow em)%R = (mag m e - 60 * IZR K)%R).
  { apply (f_equal IZR) in Hdm. rewrite plus_IZR, mult_IZR in Hdm.
    rewrite HX, <- H60, Hdm. ring. }
  destruct (Z.eq_dec R 0) as [HR0 | HR0].
  - left. rewrite HR0 in *. split; [lra | reflexivity].
  - right. rewrite <- Hval.
    destruct (binary_normalize_exact R em false) as (mr & er & E & Hbr & Hmag).
    + lia.
    + exists R, em. split; [reflexivity|]. split; [|rewrite emin_eq; lia].
      unfold prec. split; [lia|].
      destruct (Z.le_ge_cases e (-47)).
      * assert (Xi = Zpos m)
          by (unfold Xi, s; replace (e - em) with 0 by (unfold em; lia); lia).
        assert (R <= Xi) by (apply Z.mod_le; unfold Xi; lia). lia.
      * assert (Yi = 8444249301319680).
        { unfold Yi. rewrite <- HY.
          replace (-47 - em) with 0 by (unfold em; lia). reflexivity. }
        lia.
    + rewrite Hval. pose proof (mag_lt_emax _ _ Hb).
      assert (0 <= IZR K)%R by (apply IZR_le; lia). lra.
    + exists mr, er. repeat split; try assumption.
      rewrite Hmag, <- H60. apply Rmult_lt_compat_r; [exact Hp|].
      apply IZR_lt. lia.
Qed.

(** [floor] leaves a float alone whose value is an integer *)
Lemma ffloor_integer m e K :
  SpecFloat.bounded prec emax m e = true -> mag m e = IZR K -> 0 < K < 2 ^ prec ->
  PyArith.ffloor (S754_finite false m e) = S754_finite false m e.
Proof.
  intros Hb Hmag HK. unfold PyArith.ffloor.
  destruct (Z.leb_spec 0 e) as [He | He]; [reflexivity|].
  pose proof (shiftl_exact _ _ _ Hmag) as Hq.
  rewrite Z.shiftl_div_pow2 in Hq by lia. rewrite Hq.
  assert (Hone : (IZR K * bpow 0)%R = IZR K) by (rewrite bpow_0; ring).
  destruct (binary_normalize_exact K 0 false) as (m' & e' & E & Hb' & Hmag').
  - lia.
  - rewrite Hone. apply in_format_int. lia.
  - rewrite Hone. rewrite (bpow_IZR emax) by (unfold emax; lia). apply IZR_lt.
    apply Z.lt_trans with (2 ^ prec); [lia | reflexivity].
  - rewrite E. rewrite Hone, <- Hmag in Hmag'.
    destruct (mag_inj _ _ _ _ Hb' Hb Hmag') as [-> ->]. reflexivity.
Qed.

(** the quotient of a positive float by 60.0 has the sign bit clear *)
Lemma sign_bit_quotient m e :
  PyFmt.sign_bit (SFdiv prec emax (S754_finite false m e) sixty) = false.
Proof.
  pose proof (SFdiv_rounds false m e false 8444249301319680 (-47)) as Hr.
  apply rounds_to_cases in Hr as [E | [(m' & e' & E & _) | E]];
    fold sixty in E; rewrite E; reflexivity.
Qed.

(** the quotient by 60.0 of the float of [60 K] is the float of [K], and
    [//] leaves it as it is *)
Lemma floordiv_snap mv ev K :
  mag mv ev = (60 * IZR K)%R -> 0 < K < 2 ^ prec ->
  let div := SFdiv prec emax (S754_finite false mv ev) sixty in
  exists md ed,
    div = S754_finite false md ed
    /\ (let floordiv := PyArith.ffloor div in
        if fgt (fsub div floordiv) PyArith.half
        then fadd floordiv PyArith.one else floordiv) = div
    /\ int_of_float div = Ok K.
Proof.
  intros Hmag HK div. subst div.
  pose proof (SFdiv_rounds false mv ev false 8444249301319680 (-47)) as Hr.
  fold sixty in Hr. rewrite mag_sixty, Hmag in Hr. cbn [xorb] in Hr.
  replace (60 * IZR K / 60)%R with (IZR K) in Hr by (field; lra).
  destruct (rounds_exact _ _ _ Hr) as (md & ed & E & Hbd & Hmd).
  - apply in_format_int. lia.
  - split; [apply IZR_lt; lia|].
    rewrite (bpow_IZR emax) by (unfold emax; lia). apply IZR_lt.
    apply Z.lt_trans with (2 ^ prec); [lia | reflexivity].
  - exists md, ed. rewrite E. split; [reflexivity|]. split.
    + cbn zeta. rewrite (ffloor_integer _ _ _ Hbd Hmd HK), fsub_diag. reflexivity.
    + cbn [int_of_float cond_Zopp]. now rewrite (shiftl_exact _ _ _ Hmd).
Qed.

(** [seconds // 60] and [seconds % 60] for a positive float below
    [2 ^ 53]: the whole minutes and the float of what is left *)
Lemma divmod_sixty m e :
  SpecFloat.bounded prec emax m e = true -> e <= 0 ->
  let K := Z.shiftl (Zpos m) e `div` 60 in
  exists q secs,
    PyArith.float_floordiv (S754_finite false m e) sixty = Ok q
    /\ int_of_float q = Ok K
    /\ PyArith.float_mod (S754_finite false m e) sixty = Ok secs
    /\ PyFmt.sign_bit secs = false
    /\ real_of secs = (mag m e - 60 * IZR K)%R
    /\ (0 <= real_of secs < 60)%R
    /\ (secs = S754_zero false \/ exists mr er, secs = S754_finite false mr er).
Proof.
  intros Hb He K.
  destruct (canonical_bounds _ _ (bounded_canonical _ _ Hb)) as (_ & Hm & _).
  assert (HKm : 60 * K <= Zpos m).
  { unfold K. rewrite Z.shiftl_div_pow2 by lia.
    assert (0 < 2 ^ (- e)) by (apply Z.pow_pos_nonneg; lia).
    pose proof (Z.mul_div_le (Zpos m `div` 2 ^ (- e)) 60 ltac:(lia)).
    pose proof (Z.div_le_upper_bound (Zpos m) (2 ^ (- e)) (Zpos m) ltac:(lia)
                  ltac:(nia)).
    lia. }
  destruct (fmod_sixty m e Hb He) as (HK0 & Hmod). fold K in HK0, Hmod.
  pose proof (mag_pos m e) as HX.
  unfold PyArith.float_floordiv, PyArith.float_mod. cbv zeta.
  change (is_zero sixty) with false. cbn iota.
  destruct Hmod as [(HXK & ->) | (mr & er & -> & Hbr & Hmag & Hlt)].
  - (* the remainder is zero *)
    assert (HK1 : 0 < K).
    { destruct (Z.eq_dec K 0) as [E | E]; [rewrite E in HXK; lra | lia]. }
    change (fsub (S754_finite false m e) (S754_zero false))
      with (S754_finite false m e).
    destruct (floordiv_snap m e K HXK ltac:(lia))
      as (md & ed & Ed & Hsnap & Hint).
    cbn [is_zero negb andb]. cbn zeta in Hsnap. rewrite Ed in *.
    cbn [is_zero].
    exists (S754_finite false md ed), (S754_zero false).
    split; [f_equal; exact Hsnap|].
    repeat split; try assumption; try reflexivity; cbn [real_of]; try lra.
    now left.
  - pose proof (mag_pos mr er) as Hr.
    assert (HK60 : (0 <= 60 * IZR K)%R)
      by (apply Rmult_le_pos; [lra | apply IZR_le; lia]).
    change (flt sixty PyArith.zero) with false.
    change (flt (S754_finite false mr er) PyArith.zero) with false.
    cbn [is_zero negb andb xorb].
    destruct (fsub_exact m e mr er Hb) as [(Heq & ->) | (mv & ev & -> & Hbv & Hmv)].
    + lra.
    + replace (mag m e - mag mr er)%R with (IZR (60 * K))
        by (rewrite mult_IZR; lra).
      apply in_format_int. lia.
    + (* less than a minute *)
      assert (HKz : K = 0).
      { assert (IZR K = 0)%R by lra. now apply eq_IZR. }
      change (SFdiv prec emax (S754_zero false) sixty) with (S754_zero false).
      cbn [is_zero].
      exists (S754_zero false), (S754_finite false mr er).
      rewrite sign_bit_quotient. rewrite HKz in *.
      repeat split; try reflexivity; cbn [real_of]; try lra.
      right. eauto.
    + assert (HK1 : 0 < K).
      { destruct (Z.eq_dec K 0) as [E | E]; [|lia].
        rewrite E in *. pose proof (mag_pos mv ev). lra. }
      assert (Hmv' : mag mv ev = (60 * IZR K)%R) by lra.
      destruct (floordiv_snap mv ev K Hmv' ltac:(lia))
        as (md & ed & Ed & Hsnap & Hint).
      cbn zeta in Hsnap. rewrite Ed in *. cbn [is_zero].
      exists (S754_finite false md ed), (S754_finite false mr er).
      split; [f_equal; exact Hsnap|].
      repeat split; try assumption; try reflexivity; cbn [real_of]; try lra.
      right. eauto.
Qed.

(** on a positive duration below [2 ^ 53] seconds, [seconds_to_time]
    returns *)
Lemma seconds_to_time_returns m e :
  SpecFloat.bounded prec emax m e = true -> e <= 0 ->
  exists text,
    VideoSplitterApp.seconds_to_time (Some (S754_finite false m e)) = Ok text.
Proof.
  intros Hb He.
  destruct (divmod_sixty m e Hb He) as (q & secs & Hq & Hint & Hsecs & _).
  unfold VideoSplitterApp.seconds_to_time.
  rewrite float_of_int_sixty. cbn [mbind result_bind].
  rewrite Hq. cbn [mbind result_bind]. rewrite Hint. cbn [mbind result_bind].
  rewrite Hsecs. cbn [mbind result_bind]. eauto.
Qed.

(** X13: For a positive duration below [2 ^ 53] seconds (a positive float
    whose exponent is not positive), [seconds_to_time] returns: the minutes
    are the whole part of the duration divided by 60, rounded down, and the
    seconds written after the colon are those of a float that is exactly the
    duration less 60 times the minutes, from 0 to below 60. *)
Theorem seconds_to_time_exact m e :
  SpecFloat.bounded prec emax m e = true -> e <= 0 ->
  let minutes := Z.shiftl (Zpos m) e `div` 60 in
  exists secs,
    VideoSplitterApp.seconds_to_time (Some (S754_finite false m e))
    = Ok (PyFmt.str_of_int minutes +:+ ":" +:+ PyFmt.format_05_2f secs)
    /\ PyFmt.sign_bit secs = false
    /\ real_of secs = (mag m e - 60 * IZR minutes)%R
    /\ (0 <= real_of secs < 60)%R.
Proof.
  intros Hb He minutes.
  destruct (divmod_sixty m e Hb He) as (q & secs & Hq & Hint & Hsecs & Hsign & Hval & Hr & Hshape).
  exists secs. unfold VideoSplitterApp.seconds_to_time.
  rewrite float_of_int_sixty. cbn [mbind result_bind].
  rewrite Hq. cbn [mbind result_bind]. rewrite Hint. cbn [mbind result_bind].
  rewrite Hsecs. cbn [mbind result_bind]. auto.
Qed.

(** 125.5 seconds are 2 minutes and 5.5 seconds *)
Lemma seconds_to_time_exact_witness :
  exists secs,
    VideoSplitterApp.seconds_to_time (Some (S754_finite false 8831277394296832 (-46)))
    = Ok (PyFmt.str_of_int 2 +:+ ":" +:+ PyFmt.format_05_2f secs)
    /\ PyFmt.sign_bit secs = false
    /\ real_of secs = (mag 8831277394296832 (-46) - 60 * IZR 2)%R
    /\ (0 <= real_of secs < 60)%R.
Proof.
  apply (seconds_to_time_exact 8831277394296832 (-46)); [reflexivity | lia].
Defined.

(** ** The seconds field *)

Lemma zeros_length n : String.length (PyFmt.zeros n) = n.
Proof. induction n as [|n IH]; cbn; [reflexivity | now rewrite IH]. Qed.

Lemma str_of_int_length k :
  0 <= k <= 60 -> (1 <= String.length (PyFmt.str_of_int k) <= 2)%nat.
Proof.
  intros Hk.
  assert (Hall : forallb (fun i =>
            let n := String.length (PyFmt.str_of_int (Z.of_nat i)) in
            (1 <=? n)%nat && (n <=? 2)%nat) (seq 0 61) = true)
    by (vm_compute; reflexivity).
  rewrite forallb_forall in Hall.
  specialize (Hall (Z.to_nat k) ltac:(apply in_seq; lia)).
  rewrite Z2Nat.id in Hall by lia. cbn zeta in Hall.
  apply andb_true_iff in Hall as [H1 H2].
  apply Nat.leb_le in H1, H2. lia.
Qed.

Lemma two_digits_length j :
  0 <= j <= 99 -> String.length (PyFmt.two_digits j) = 2%nat.
Proof.
  intros Hj.
  assert (Hall : forallb (fun i =>
            (String.length (PyFmt.two_digits (Z.of_nat i)) =? 2)%nat)
            (seq 0 100) = true)
    by (vm_compute; reflexivity).
  rewrite forallb_forall in Hall.
  specialize (Hall (Z.to_nat j) ltac:(apply in_seq; lia)).
  rewrite Z2Nat.id in Hall by lia. now apply Nat.eqb_eq in Hall.
Qed.

(** a float below 60 has at most 6000 hundredths *)
Lemma hundredths_bound m e :
  (mag m e < 60)%R -> 0 <= PyFmt.hundredths m e <= 6000.
Proof.
  intros H. unfold PyFmt.hundredths, mag in *.
  destruct (Z.leb_spec 0 e) as [He | He].
  - rewrite (bpow_IZR e He), <- mult_IZR in H. apply lt_IZR in H.
    pose proof (Z.pow_pos_nonneg 2 e). nia.
  - assert (Hd : 0 < 2 ^ (- e)) by (apply Z.pow_pos_nonneg; lia).
    assert (Hm : Zpos m < 60 * 2 ^ (- e)).
    { apply lt_IZR. rewrite mult_IZR, <- (bpow_IZR (- e)) by lia.
      rewrite bpow_opp. pose proof (bpow_pos e) as Hp.
      apply Rmult_lt_reg_r with (bpow e); [exact Hp|].
      replace (60 * / bpow e * bpow e)%R with 60%R by (field; lra). exact H. }
    unfold PyFmt.div_half_even.
    set (n := 100 * Zpos m). set (d := 2 ^ (- e)) in *.
    assert (Hq : 0 <= n `div` d <= 5999).
    { split; [apply Z.div_pos; unfold n; lia|].
      apply Z.lt_succ_r. apply Z.div_lt_upper_bound; [exact Hd | unfold n; lia]. }
    destruct (2 * (n `mod` d) ?= d); [destruct (Z.even _)| |]; lia.
Qed.

(** the text of a float from 0 to below 60 has five characters *)
Lemma format_05_2f_length secs :
  PyFmt.sign_bit secs = false ->
  (secs = S754_zero false
   \/ exists m e, secs = S754_finite false m e /\ (mag m e < 60)%R) ->
  String.length (PyFmt.format_05_2f secs) = 5%nat.
Proof.
  intros Hsign [-> | (m & e & -> & Hlt)]; [reflexivity|].
  unfold PyFmt.format_05_2f. cbn [PyFmt.sign_bit PyFmt.digits_2f].
  pose proof (hundredths_bound m e Hlt) as Hh.
  set (h := PyFmt.hundredths m e) in *.
  assert (Hi : 0 <= h `div` 100 <= 60).
  { split; [apply Z.div_pos; lia|].
    apply Z.div_le_upper_bound; lia. }
  pose proof (str_of_int_length _ Hi) as Hl1.
  pose proof (two_digits_length (h `mod` 100)
                ltac:(pose proof (Z.mod_pos_bound h 100 ltac:(lia)); lia)) as Hl2.
  set (digits := PyFmt.str_of_int (h `div` 100) +:+ "." +:+ PyFmt.two_digits (h `mod` 100)).
  assert (Hd : (4 <= String.length digits <= 5)%nat).
  { unfold digits. rewrite !string_length_app, Hl2.
    change (String.length ".") with 1%nat. lia. }
  rewrite !string_length_app, zeros_length.
  change (String.length "") with 0%nat. lia.
Qed.

(** X14: For a positive duration below [2 ^ 53] seconds, what
    [seconds_to_time] writes after the minutes and the colon has exactly
    five characters: the seconds with two decimals, padded with a zero below
    ten. *)
Theorem seconds_to_time_width m e :
  SpecFloat.bounded prec emax m e = true -> e <= 0 ->
  exists text,
    VideoSplitterApp.seconds_to_time (Some (S754_finite false m e))
    = Ok (PyFmt.str_of_int (Z.shiftl (Zpos m) e `div` 60) +:+ ":" +:+ text)
    /\ String.length text = 5%nat.
Proof.
  intros Hb He.
  destruct (divmod_sixty m e Hb He) as (q & secs & Hq & Hint & Hsecs & Hsign & Hval & Hr & Hshape).
  exists (PyFmt.format_05_2f secs). split.
  - unfold VideoSplitterApp.seconds_to_time.
    rewrite float_of_int_sixty. cbn [mbind result_bind].
    rewrite Hq. cbn [mbind result_bind]. rewrite Hint. cbn [mbind result_bind].
    rewrite Hsecs. reflexivity.
  - apply format_05_2f_length; [exact Hsign|].
    destruct Hshape as [-> | (mr & er & ->)]; [now left | right].
    exists mr, er. split; [reflexivity|]. cbn [real_of] in Hr. lra.
Qed.

(** 65.25 seconds are written 1:05.25 *)
Lemma seconds_to_time_width_witness :
  exists text,
    VideoSplitterApp.seconds_to_time (Some (S754_finite false 4591560557592576 (-46)))
    = Ok (PyFmt.str_of_int 1 +:+ ":" +:+ text)
    /\ String.length text = 5%nat.
Proof.
  apply (seconds_to_time_width 4591560557592576 (-46)); [reflexivity | lia].
Defined.

(** X15: Outside the durations that are numbers, [seconds_to_time] raises:
    [TypeError] on [None], the duration stored when ffprobe gave none, and
    [ValueError] on NaN and on the infinities, whose quotient by 60 is NaN;
    on both zeros it writes 0:00.00. *)
Theorem seconds_to_time_edges :
  VideoSplitterApp.seconds_to_time None = Raise TypeError
  /\ VideoSplitterApp.seconds_to_time (Some S754_nan) = Raise ValueError
  /\ (forall s, VideoSplitterApp.seconds_to_time (Some (S754_infinity s))
                = Raise ValueError)
  /\ (forall s, VideoSplitterApp.seconds_to_time (Some (S754_zero s))
                = Ok "0:00.00").
Proof.
  repeat split; try reflexivity; intros []; reflexivity.
Qed.

(** ** One run of the script *)

(** X16: When [shutil.which] misses ffmpeg or yt-dlp, a run of [main] shows
    the list of what is missing, FFmpeg before yt-dlp, and nothing else:
    whatever is entered or pressed, nothing is downloaded or processed and
    the video entries of the session are left as they were. *)
Theorem main_missing_dependencies w i s :
  which w "ffmpeg" = false \/ which w "yt-dlp" = false ->
  exists a,
    main w i s
    = ([st_error_missing_dependencies
          ((if which w "ffmpeg" then [] else ["FFmpeg"])
           ++ (if which w "yt-dlp" then [] else ["yt-dlp"]))],
       {| ss_app := Some (session_temp_dir w s, a); ss_video := ss_video s |},
       Ok Done).
Proof.
  intros Hmissing. unfold main, session_temp_dir, VideoSplitterApp.check_dependencies.
  destruct (ss_app s) as [[temp_dir a]|];
    destruct (which w "ffmpeg"), (which w "yt-dlp");
    destruct Hmissing as [H | H]; try discriminate H;
    cbn [List.app]; eexists; reflexivity.
Qed.

(** ffmpeg is not installed, and the download button is pressed *)
Lemma main_missing_dependencies_witness :
  exists a,
    main no_ffmpeg_world press_download loaded_session
    = ([st_error_missing_dependencies
          ((if which no_ffmpeg_world "ffmpeg" then [] else ["FFmpeg"])
           ++ (if which no_ffmpeg_world "yt-dlp" then [] else ["yt-dlp"]))],
       {| ss_app := Some (session_temp_dir no_ffmpeg_world loaded_session, a);
          ss_video := ss_video loaded_session |},
       Ok Done).
Proof.
  apply (main_missing_dependencies no_ffmpeg_world press_download loaded_session).
  left. reflexivity.
Defined.

(** X17: A download that fails forgets the video loaded before: with the
    tools installed, a press of the download button with a URL whose
    download returns no file leaves the video entries of the session
    cleared, whatever they held, and the page shows the notices of the
    download and the welcome text. *)
Theorem main_failed_download w i s notices :
  VideoSplitterApp.check_dependencies (which w) = [] ->
  in_download i = true ->
  PyStr.truthy (in_url i) = true ->
  VideoSplitterApp.download_video (yt_dlp w) (session_temp_dir w s) (in_url i)
  = (notices, None) ->
  exists a,
    main w i s
    = (map shown_notice notices ++ [st_info_welcome],
       {| ss_app := Some (session_temp_dir w s, a); ss_video := VideoCleared |},
       Ok Done).
Proof.
  intros Hdeps Hclick Hurl Hdl. unfold main, session_temp_dir in *.
  destruct (ss_app s) as [[temp_dir a]|];
    rewrite Hdeps, Hclick; unfold download_and_analyze;
    rewrite Hurl, Hdl; eauto.
Qed.

(** a session with a loaded video, and a download that yt-dlp fails *)
Lemma main_failed_download_witness :
  exists a,
    main failing_world press_download loaded_session
    = (map shown_notice
         [st_info_downloading; st_error_download_failed "ERROR: Unsupported URL"]
       ++ [st_info_welcome],
       {| ss_app := Some (session_temp_dir failing_world loaded_session, a);
          ss_video := VideoCleared |},
       Ok Done).
Proof.
  apply (main_failed_download failing_world press_download loaded_session);
    reflexivity.
Defined.

(** the page of a loaded video whose duration is [None] *)
Lemma main_without_duration w i temp_dir a file dimensions :
  VideoSplitterApp.check_dependencies (which w) = [] ->
  in_download i = false ->
  PyStr.truthy file = true ->
  let s := {| ss_app := Some (temp_dir, a);
              ss_video := VideoLoaded file {| vi_duration := None;
                                              vi_dimensions := dimensions |} |} in
  main w i s = ([], s, Raise TypeError).
Proof.
  intros Hdeps Hclick Htruthy. cbn zeta. unfold main. cbn [ss_app ss_video].
  rewrite Hdeps, Hclick, Htruthy. reflexivity.
Qed.

(** X18: A video without a duration cannot be shown. With the tools
    installed, when a download gives a file for which [get_video_info]
    returns no duration (ffprobe failed, or printed something that is no
    number or dimensions it cannot read), the run stores the video and asks
    for a rerun; every later run without a new download then raises
    [TypeError] at the duration metric, with nothing of the page shown and
    the session unchanged. *)
Theorem main_needs_duration w i s notices file :
  VideoSplitterApp.check_dependencies (which w) = [] ->
  in_download i = true ->
  PyStr.truthy (in_url i) = true ->
  VideoSplitterApp.download_video (yt_dlp w) (session_temp_dir w s) (in_url i)
  = (notices, Some file) ->
  fst (snd (VideoSplitterApp.get_video_info (ffprobe w) file)) = None ->
  exists page s1,
    main w i s = (page, s1, Ok Rerun)
    /\ forall i', in_download i' = false ->
         main w i' s1 = ([], s1, Raise TypeError).
Proof.
  intros Hdeps Hclick Hurl Hdl Hnone.
  pose proof (download_video_truthy _ _ _ _ _ Hdl) as Htruthy.
  destruct (VideoSplitterApp.get_video_info (ffprobe w) file)
    as [notices' [duration dimensions]] eqn:Einfo.
  cbn [fst snd] in Hnone. subst duration.
  assert (Hrun : exists temp_dir a,
            main w i s
            = (map shown_notice (notices ++ notices'),
               {| ss_app := Some (temp_dir, a);
                  ss_video := VideoLoaded file {| vi_duration := None;
                                                  vi_dimensions := dimensions |} |},
               Ok Rerun)).
  { unfold main, session_temp_dir in *.
    destruct (ss_app s) as [[temp_dir a]|];
      rewrite Hdeps, Hclick; unfold download_and_analyze;
      rewrite Hurl, Hdl, Htruthy, Einfo; eauto. }
  destruct Hrun as (temp_dir & a & Hrun). rewrite Hrun.
  eexists _, _. split; [reflexivity|].
  intros i' Hclick'. now apply main_without_duration.
Qed.

(** a download that works for a file ffprobe cannot measure *)
Lemma main_needs_duration_witness :
  exists page s1,
    main unmeasured_world press_download fresh_session = (page, s1, Ok Rerun)
    /\ forall i', in_download i' = false ->
         main unmeasured_world i' s1 = ([], s1, Raise TypeError).
Proof.
  apply (main_needs_duration unmeasured_world press_download fresh_session
           [st_info_downloading; st_success_downloaded]
           "/tmp/tmpab12cd/downloaded_video.mp4");
    reflexivity.
Defined.

(** X19: A loaded video is shown without an exception. With the tools
    installed and a video whose duration is a positive float below [2 ^ 53],
    a run without a new download ends normally when every time text of the
    segment fields is a time or is rejected with [ValueError]: the page
    starts with the duration, the video stays loaded, and the files of the
    output directory are kept. *)
Theorem main_loaded_page w i temp_dir a video_path m e dimensions :
  VideoSplitterApp.check_dependencies (which w) = [] ->
  in_download i = false ->
  PyStr.truthy video_path = true ->
  SpecFloat.bounded prec emax m e = true -> e <= 0 ->
  Forall (fun r => time_parses (start_time r) /\ time_parses (end_time r))
    (map (in_request i) (seq 0 (in_num_segments i))) ->
  let video :=
    VideoLoaded video_path
      {| vi_duration := Some (S754_finite false m e);
         vi_dimensions := dimensions |} in
  exists text page a',
    main w i {| ss_app := Some (temp_dir, a); ss_video := video |}
    = (st_metric_duration text :: page,
       {| ss_app := Some (temp_dir, a'); ss_video := video |}, Ok Done)
    /\ output_dir a' = output_dir a
    /\ files a ⊆ files a'.
Proof.
  intros Hdeps Hclick Htruthy Hb He Htimes video.
  destruct (seconds_to_time_returns m e Hb He) as (text & Htext).
  destruct (configure_segments_outcomes (S754_finite false m e) _ 0%nat Htimes)
    as (ws & segments & Econf & _ & _).
  unfold main. cbn [ss_app ss_video]. rewrite Hdeps, Hclick.
  unfold video. rewrite Htruthy. unfold video_page. cbn [vi_duration vi_dimensions].
  rewrite Htext, Econf. exists text.
  destruct segments as [|seg segments].
  { eexists _, a. split; [reflexivity|]. split; [reflexivity | set_solver]. }
  destruct (in_process i).
  - unfold process_all.
    pose proof (process_segments_report (tools_of w) video_path (seg :: segments)
                  a 0%nat) as Hrep.
    destruct (process_segments (tools_of w) a video_path 0 (seg :: segments))
      as [p a'].
    destruct Hrep as (Hdir & Hfiles & _).
    destruct (successful_segments p); eexists _, a';
      (split; [reflexivity|]); auto.
  - eexists _, a. split; [reflexivity|]. split; [reflexivity | set_solver].
Qed.

(** the loaded video of 100 seconds, with one segment from 10 to 20 *)
Lemma main_loaded_page_witness :
  exists text page a',
    main sample_world one_segment
      {| ss_app := Some ("/tmp/tmpab12cd", sample_app);
         ss_video :=
           VideoLoaded "/tmp/tmpab12cd/downloaded_video.mp4"
             {| vi_duration := Some one_hundred;
                vi_dimensions := Some (1920, 1080) |} |}
    = (st_metric_duration text :: page,
       {| ss_app := Some ("/tmp/tmpab12cd", a');
          ss_video :=
            VideoLoaded "/tmp/tmpab12cd/downloaded_video.mp4"
              {| vi_duration := Some one_hundred;
                 vi_dimensions := Some (1920, 1080) |} |},
       Ok Done)
    /\ output_dir a' = output_dir sample_app
    /\ files sample_app ⊆ files a'.
Proof.
  apply (main_loaded_page sample_world one_segment "/tmp/tmpab12cd" sample_app
           "/tmp/tmpab12cd/downloaded_video.mp4" 7036874417766400 (-46)
           (Some (1920, 1080)));
    [reflexivity | reflexivity | reflexivity | reflexivity | lia |].
  repeat constructor; vm_compute; exact I.
Defined.
